(** * autoEmailer: the SMTP deliverability verifier

    A shallow embedding of the heuristic SMTP verifier of the repository
    (the module that exports [verifyEmail] and is built from
    [detectMailProvider], [calculateHeuristicConfidence],
    [testSMTPConnection], [generateRandomEmail], [isRoleAccount],
    [isValidFormat], [isDisposableDomain] and [isFreeEmailProvider]),
    followed by the properties of its design description that were stated
    and settled against it.

    Conventions of the embedding.
    - A JavaScript string is a [string]; a character is a UTF-16 code unit
      below 256, so the only white space characters of [\s] that can occur
      are 9..13, 32 and 160.
    - A regular expression literal is a [regex] term and [RegExp.test] is
      a matcher by derivatives; a leading [^] and a trailing [$] are the
      choice between [test_prefix] and [test_full].
    - The socket of one probe is a record of the variables closed over by
      its handlers; the events the socket emits are a list, delivered in
      order to the handlers.
    - [verifyEmail] runs in a monad of state and exceptions over the
      [result] object it mutates and a log of the network operations it
      performs; DNS, the mail exchanger and the random source are an
      oracle, the [Network]. *)

From Stdlib Require Import Bool Arith NArith ZArith Lia List Ascii String.
From Stdlib Require Import Sorting.Permutation Sorting.Sorted.
Import ListNotations.

Local Open Scope string_scope.

(* ================================================================== *)
(** ** JavaScript strings *)

Module Js.

Definition code (c : ascii) : N := N_of_ascii c.

(** [lo <= c <= hi] on code units. *)
Definition between (lo hi c : ascii) : bool :=
  ((code lo <=? code c) && (code c <=? code hi))%N.

(** One code unit of [String.prototype.toLowerCase]: A-Z, and the
    upper-case letters of Latin-1 (U+00C0..U+00DE but U+00D7). *)
Definition lower_char (c : ascii) : ascii :=
  if between "A" "Z" c
     || ((192 <=? code c) && (code c <=? 222) && negb (code c =? 215))%N
  then ascii_of_N (code c + 32)
  else c.

Fixpoint toLowerCase (s : string) : string :=
  match s with
  | EmptyString => EmptyString
  | String c s' => String (lower_char c) (toLowerCase s')
  end.

(** [hay.includes(needle)] *)
Fixpoint includes (needle hay : string) : bool :=
  prefix needle hay
  || match hay with
     | EmptyString => false
     | String _ hay' => includes needle hay'
     end.

(** [s.split(sep)] for a separator that is not empty.  [acc] is the
    piece being read, [skip] the number of characters of a separator
    still to be passed over. *)
Fixpoint split_from (sep s acc : string) (skip : nat) : list string :=
  match s with
  | EmptyString => [acc]
  | String c s' =>
      match skip with
      | S k => split_from sep s' acc k
      | O =>
          if prefix sep s
          then acc :: split_from sep s' EmptyString (String.length sep - 1)
          else split_from sep s' (acc ++ String c EmptyString) 0
      end
  end.

Definition split (sep s : string) : list string :=
  split_from sep s EmptyString 0.

(** [xs.join(sep)] *)
Definition join (sep : string) (xs : list string) : string :=
  String.concat sep xs.

(** [xs.includes(x)] on an array of strings. *)
Definition array_includes (xs : list string) (x : string) : bool :=
  existsb (String.eqb x) xs.

(** [xs[i]], [None] standing for [undefined]. *)
Definition at_index (xs : list string) (i : Z) : option string :=
  if (i <? 0)%Z then None else nth_error xs (Z.to_nat i).

(** [v || d] on a string that may be [undefined]: both [undefined] and
    the empty string are falsy. *)
Definition or_default (v : option string) (d : string) : string :=
  match v with
  | Some EmptyString | None => d
  | Some s => s
  end.

Definition CRLF : string :=
  String (ascii_of_N 13) (String (ascii_of_N 10) EmptyString).

(** [Buffer.toString('hex')] *)
Definition hex_digit (n : N) : ascii :=
  if (n <? 10)%N then ascii_of_N (48 + n) else ascii_of_N (87 + n).

Fixpoint hex (bytes : list N) : string :=
  match bytes with
  | [] => EmptyString
  | b :: bs =>
      String (hex_digit (b / 16)) (String (hex_digit (b mod 16)) (hex bs))
  end.

End Js.

(* ================================================================== *)
(** ** Regular expressions *)

Module Regex.

Inductive regex : Type :=
| Void : regex
| Eps : regex
| Cls (p : ascii -> bool) : regex
| Cat (r1 r2 : regex) : regex
| Alt (r1 r2 : regex) : regex
| Star (r : regex) : regex.

Fixpoint nullable (r : regex) : bool :=
  match r with
  | Void => false
  | Eps => true
  | Cls _ => false
  | Cat r1 r2 => nullable r1 && nullable r2
  | Alt r1 r2 => nullable r1 || nullable r2
  | Star _ => true
  end.

Fixpoint deriv (c : ascii) (r : regex) : regex :=
  match r with
  | Void => Void
  | Eps => Void
  | Cls p => if p c then Eps else Void
  | Cat r1 r2 =>
      if nullable r1
      then Alt (Cat (deriv c r1) r2) (deriv c r2)
      else Cat (deriv c r1) r2
  | Alt r1 r2 => Alt (deriv c r1) (deriv c r2)
  | Star r1 => Cat (deriv c r1) (Star r1)
  end.

Fixpoint accepts (r : regex) (s : string) : bool :=
  match s with
  | EmptyString => nullable r
  | String c s' => accepts (deriv c r) s'
  end.

(** The words of a regular expression. *)
Inductive lang : regex -> string -> Prop :=
| lang_eps : lang Eps EmptyString
| lang_cls p c : p c = true -> lang (Cls p) (String c EmptyString)
| lang_cat r1 r2 s1 s2 :
    lang r1 s1 -> lang r2 s2 -> lang (Cat r1 r2) (s1 ++ s2)
| lang_alt_l r1 r2 s : lang r1 s -> lang (Alt r1 r2) s
| lang_alt_r r1 r2 s : lang r2 s -> lang (Alt r1 r2) s
| lang_star_nil r : lang (Star r) EmptyString
| lang_star_app r s1 s2 :
    lang r s1 -> lang (Star r) s2 -> lang (Star r) (s1 ++ s2).

(** Derived forms. *)
Definition Chr (c : ascii) : regex := Cls (Ascii.eqb c).
Definition Plus (r : regex) : regex := Cat r (Star r).

Fixpoint Rep (n : nat) (r : regex) : regex :=
  match n with
  | O => Eps
  | S k => Cat r (Rep k r)
  end.

(** [r{n,}] *)
Definition AtLeast (n : nat) (r : regex) : regex := Cat (Rep n r) (Star r).

Fixpoint Lit (s : string) : regex :=
  match s with
  | EmptyString => Eps
  | String c s' => Cat (Chr c) (Lit s')
  end.

(** Whatever follows a match that is not anchored at the end. *)
Definition Rest : regex := Star (Cls (fun _ => true)).

(** [/^r$/.test(s)] and [/^r/.test(s)] (no [m] flag). *)
Definition test_full (r : regex) (s : string) : bool := accepts r s.
Definition test_prefix (r : regex) (s : string) : bool :=
  accepts (Cat r Rest) s.

(** Character classes. *)
Definition digit : ascii -> bool := Js.between "0" "9".
Definition lower : ascii -> bool := Js.between "a" "z".
Definition lower_alnum (c : ascii) : bool := lower c || digit c.

(** [\s] on code units below 256. *)
Definition space (c : ascii) : bool :=
  ((9 <=? Js.code c) && (Js.code c <=? 13)
   || (Js.code c =? 32) || (Js.code c =? 160))%N.

(** [[^\s@]] *)
Definition not_space_at (c : ascii) : bool :=
  negb (space c || Ascii.eqb c "@").

End Regex.

(* ================================================================== *)
(** ** The SMTP probe: [testSMTPConnection] *)

Module Smtp.
Import Regex.

(** What the promise of one probe resolves to.  [code] is absent from
    the objects built by the timer, the [error] and the [timeout]
    handlers. *)
Record ProbeOutcome : Type := mkOutcome {
  connected : bool;
  accepted : bool;
  reason : string;
  code : option string
}.

(** What the socket emits. *)
Inductive SocketEvent : Type :=
| Data (chunk : string)
| Error (message : string)
| Timeout.

(** The variables of one call: [response], [step], [lastResponseCode],
    the timer of 15 s, the socket (what was written to it, whether it
    was ended or destroyed) and the promise. *)
Record Probe : Type := mkProbe {
  response : string;
  step : nat;
  lastResponseCode : string;
  timer : bool;
  written : list string;
  ended : bool;
  destroyed : bool;
  promise : option ProbeOutcome
}.

Definition commands (email : string) : list string :=
  [ "HELO verify.example.com" ++ Js.CRLF;
    "MAIL FROM:<verify@example.com>" ++ Js.CRLF;
    "RCPT TO:<" ++ email ++ ">" ++ Js.CRLF;
    "QUIT" ++ Js.CRLF ].

(** [net.createConnection(25, mxHost)] and [setTimeout(..., 15000)]. *)
Definition opened : Probe :=
  mkProbe "" 0 "" true [] false false None.

Definition set_response (v : string) (st : Probe) : Probe :=
  mkProbe v (step st) (lastResponseCode st) (timer st) (written st)
          (ended st) (destroyed st) (promise st).

Definition set_step (v : nat) (st : Probe) : Probe :=
  mkProbe (response st) v (lastResponseCode st) (timer st) (written st)
          (ended st) (destroyed st) (promise st).

Definition set_lastResponseCode (v : string) (st : Probe) : Probe :=
  mkProbe (response st) (step st) v (timer st) (written st)
          (ended st) (destroyed st) (promise st).

Definition clearTimeout (st : Probe) : Probe :=
  mkProbe (response st) (step st) (lastResponseCode st) false (written st)
          (ended st) (destroyed st) (promise st).

Definition socket_write (cmd : string) (st : Probe) : Probe :=
  mkProbe (response st) (step st) (lastResponseCode st) (timer st)
          (written st ++ [cmd])%list (ended st) (destroyed st) (promise st).

Definition socket_end (st : Probe) : Probe :=
  mkProbe (response st) (step st) (lastResponseCode st) (timer st)
          (written st) true (destroyed st) (promise st).

Definition socket_destroy (st : Probe) : Probe :=
  mkProbe (response st) (step st) (lastResponseCode st) (timer st)
          (written st) (ended st) true (promise st).

(** [resolve(o)]: a promise keeps the first value it is resolved with. *)
Definition resolve (o : ProbeOutcome) (st : Probe) : Probe :=
  match promise st with
  | Some _ => st
  | None =>
      mkProbe (response st) (step st) (lastResponseCode st) (timer st)
              (written st) (ended st) (destroyed st) (Some o)
  end.

(** The patterns of the [data] handler. *)
Definition re_code : regex := Rep 3 (Cls digit).                (* ^(\d{3}) *)
Definition re_2xx_3xx : regex :=                                (* ^[23]\d{2} *)
  Cat (Alt (Chr "2") (Chr "3")) (Rep 2 (Cls digit)).
Definition re_250 : regex := Lit "250".                         (* ^250 *)
Definition re_55x : regex :=                         (* ^550|^551|^553|^554 *)
  Alt (Lit "550") (Alt (Lit "551") (Alt (Lit "553") (Lit "554"))).
Definition re_45x : regex :=                              (* ^450|^451|^452 *)
  Alt (Lit "450") (Alt (Lit "451") (Lit "452")).
Definition re_4xx_5xx : regex :=                                (* ^[45]\d{2} *)
  Cat (Alt (Chr "4") (Chr "5")) (Rep 2 (Cls digit)).

(** [lastLine.match(/^(\d{3})/)] and its first group. *)
Definition match_code (lastLine : string) : option string :=
  if test_prefix re_code lastLine
  then Some (substring 0 3 lastLine)
  else None.

Definition rejection_phrase (lowerLine : string) : bool :=
  Js.includes "user unknown" lowerLine
  || Js.includes "does not exist" lowerLine
  || Js.includes "no such user" lowerLine
  || Js.includes "invalid recipient" lowerLine
  || Js.includes "recipient rejected" lowerLine.

(** The chain of [if (/^250/.test(lastLine)) ... else if ...] that is run
    when [step === 2]. *)
Definition classify (lastLine lastCode : string) : ProbeOutcome :=
  if test_prefix re_250 lastLine then
    if rejection_phrase (Js.toLowerCase lastLine)
    then mkOutcome true false "User does not exist" (Some lastCode)
    else mkOutcome true true "Email accepted" (Some lastCode)
  else if test_prefix re_55x lastLine then
    mkOutcome true false "User does not exist" (Some lastCode)
  else if test_prefix re_45x lastLine then
    mkOutcome true false "Temporary error - greylisting" (Some lastCode)
  else if test_prefix re_4xx_5xx lastLine then
    mkOutcome true false "Email rejected" (Some lastCode)
  else
    mkOutcome true false "Unknown response" (Some lastCode).

(** [lines[lines.length - 2] || ''] *)
Definition last_line (response : string) : string :=
  let lines := Js.split Js.CRLF response in
  Js.or_default (Js.at_index lines (Z.of_nat (List.length lines) - 2)) "".

(** [socket.on('data', ...)] *)
Definition on_data (email data : string) (st0 : Probe) : Probe :=
  let st1 := set_response (response st0 ++ data) st0 in
  let lastLine := last_line (response st1) in
  let st2 :=
    match match_code lastLine with
    | Some c => set_lastResponseCode c st1
    | None => st1
    end in
  if test_prefix re_2xx_3xx lastLine then
    if (step st2 <? 3)%nat then
      let st3 := socket_write (nth (step st2) (commands email) "") st2 in
      if (step st3 =? 2)%nat then
        let st4 := clearTimeout st3 in
        let st5 := socket_write (nth 3 (commands email) "") st4 in
        let st6 := socket_end st5 in
        resolve (classify lastLine (lastResponseCode st6)) st6
      else
        set_step (step st3 + 1) st3
    else st2
  else if test_prefix re_4xx_5xx lastLine then
    let st3 := socket_destroy (clearTimeout st2) in
    resolve (mkOutcome false false ("SMTP error: " ++ lastLine)
                       (Some (lastResponseCode st3))) st3
  else st2.

(** [socket.on('error', ...)] *)
Definition on_error (message : string) (st : Probe) : Probe :=
  resolve (mkOutcome false false message None) (clearTimeout st).

(** [socket.on('timeout', ...)] *)
Definition on_timeout (st : Probe) : Probe :=
  resolve (mkOutcome false false "Socket timeout" None)
          (socket_destroy (clearTimeout st)).

(** The callback of [setTimeout(..., 15000)]. *)
Definition on_timer (st : Probe) : Probe :=
  resolve (mkOutcome false false "Connection timeout" None)
          (socket_destroy st).

(** A destroyed socket emits nothing more. *)
Definition deliver (email : string) (st : Probe) (ev : SocketEvent) : Probe :=
  if destroyed st then st
  else match ev with
       | Data chunk => on_data email chunk st
       | Error message => on_error message st
       | Timeout => on_timeout st
       end.

(** The timer runs its callback 15 s after the call unless it was
    cleared; it runs once. *)
Definition deadline (st : Probe) : Probe :=
  if timer st then on_timer (clearTimeout st) else st.

(** The probe against a socket that emits [events], in this order.  What
    a socket would emit after a timer that is still running at 15 s is
    not in the list: the callback of the timer destroys the socket. *)
Definition run (email : string) (events : list SocketEvent) : Probe :=
  deadline (fold_left (deliver email) events opened).

(** The value the promise returned by [testSMTPConnection] is settled
    with; [None] is a promise that stays pending. *)
Definition testSMTPConnection (email : string) (events : list SocketEvent)
  : option ProbeOutcome :=
  promise (run email events).

End Smtp.

(* ================================================================== *)
(** ** The verifier: [verifyEmail] *)

Module Verifier.
Import Regex.

(** *** Data *)

Inductive Status : Type := Valid | Invalid | CatchAll | Unknown.
Inductive RiskLevel : Type := Low | Medium | High | RiskUnknown.

(** The strings returned by [detectMailProvider]. *)
Inductive Provider : Type :=
| google_workspace | microsoft365 | zoho | protonmail | consumer | corporate.

(** One answer of [dns.resolveMx]. *)
Record MxRecord : Type := mkMx {
  exchange : string;
  priority : Z
}.

(** The object [result]. *)
Record VerificationResult : Type := mkResult {
  email : string;
  status : Status;
  reason : string;
  is_catch_all : bool;
  is_disposable : bool;
  is_free_email : bool;
  is_role_account : bool;
  mx_records : list string;
  smtp_check : bool;
  dns_check : bool;
  confidence_score : Z;
  risk_level : RiskLevel
}.

Record Options : Type := mkOptions {
  debug : bool;
  skipCatchAll : bool
}.

(** A thrown [Error]. *)
Record JsError : Type := mkError { message : string }.

(** *** The network

    [dns] answers [resolveMx(domain)]: [None] is a rejected promise.
    [socket n host rcpt] is what the connection number [n] of one
    verification, made to [host] for a probe of [rcpt], does: either
    [net.createConnection] throws, or the socket emits these events
    during the probe.  [entropy n] is call number [n] of
    [crypto.randomBytes]: it throws, or gives a source of bytes. *)
Record Network : Type := mkNetwork {
  dns : string -> option (list MxRecord);
  socket : nat -> string -> string -> JsError + list Smtp.SocketEvent;
  entropy : nat -> JsError + (nat -> N)
}.

(** What one verification does on the network, oldest first. *)
Inductive NetOp : Type :=
| resolveMx_call (domain : string)
| randomBytes_call (size : nat)
| createConnection_call (port : nat) (host : string)
| probe_settled (rcpt : string) (outcome : Smtp.ProbeOutcome).

Fixpoint connections (tr : list NetOp) : nat :=
  match tr with
  | [] => 0
  | createConnection_call _ _ :: tr' => S (connections tr')
  | _ :: tr' => connections tr'
  end.

Fixpoint draws (tr : list NetOp) : nat :=
  match tr with
  | [] => 0
  | randomBytes_call _ :: tr' => S (draws tr')
  | _ :: tr' => draws tr'
  end.

(** The outcomes of the probes that settled, oldest first. *)
Fixpoint outcomes (tr : list NetOp) : list Smtp.ProbeOutcome :=
  match tr with
  | [] => []
  | probe_settled _ o :: tr' => o :: outcomes tr'
  | _ :: tr' => outcomes tr'
  end.

(** *** The monad of [verifyEmail] *)

Record VState : Type := mkVState {
  result : VerificationResult;
  transcript : list NetOp
}.

(** How a piece of code ends: with a value, by throwing, or never (it
    awaits a promise that stays pending). *)
Inductive Completion (A : Type) : Type :=
| Normal (a : A)
| Throw (e : JsError)
| Pending.
Arguments Normal {A} a.
Arguments Throw {A} e.
Arguments Pending {A}.

Definition M (A : Type) : Type := VState -> Completion A * VState.

Definition ret {A} (a : A) : M A := fun st => (Normal a, st).

Definition bind {A B} (m : M A) (k : A -> M B) : M B :=
  fun st =>
    match m st with
    | (Normal a, st') => k a st'
    | (Throw e, st') => (Throw e, st')
    | (Pending, st') => (Pending, st')
    end.

Definition throw {A} (e : JsError) : M A := fun st => (Throw e, st).

(** [await p] *)
Definition await {A} (p : option A) : M A :=
  match p with
  | Some a => ret a
  | None => fun st => (Pending, st)
  end.

(** [try { body } catch (error) { handler }]; what [body] did to the
    state before it threw stays done. *)
Definition try_catch {A} (body : M A) (handler : JsError -> M A) : M A :=
  fun st =>
    match body st with
    | (Throw e, st') => handler e st'
    | other => other
    end.

Definition get_result : M VerificationResult :=
  fun st => (Normal (result st), st).

Definition update (f : VerificationResult -> VerificationResult) : M unit :=
  fun st => (Normal tt, mkVState (f (result st)) (transcript st)).

Definition get_transcript : M (list NetOp) :=
  fun st => (Normal (transcript st), st).

Definition record_op (op : NetOp) : M unit :=
  fun st => (Normal tt, mkVState (result st) (transcript st ++ [op])%list).

Declare Scope js_scope.
Delimit Scope js_scope with js.
Notation "x <- m ;; k" := (bind m (fun x => k))
  (at level 61, m at next level, right associativity) : js_scope.
Notation "m ;; k" := (bind m (fun _ => k))
  (at level 61, right associativity) : js_scope.
Local Open Scope js_scope.

(** Assignments to the fields of [result]. *)
Definition set_status (v : Status) : M unit :=
  update (fun r => mkResult (email r) v (reason r) (is_catch_all r)
    (is_disposable r) (is_free_email r) (is_role_account r) (mx_records r)
    (smtp_check r) (dns_check r) (confidence_score r) (risk_level r)).
Definition set_reason (v : string) : M unit :=
  update (fun r => mkResult (email r) (status r) v (is_catch_all r)
    (is_disposable r) (is_free_email r) (is_role_account r) (mx_records r)
    (smtp_check r) (dns_check r) (confidence_score r) (risk_level r)).
Definition set_is_catch_all (v : bool) : M unit :=
  update (fun r => mkResult (email r) (status r) (reason r) v
    (is_disposable r) (is_free_email r) (is_role_account r) (mx_records r)
    (smtp_check r) (dns_check r) (confidence_score r) (risk_level r)).
Definition set_is_disposable (v : bool) : M unit :=
  update (fun r => mkResult (email r) (status r) (reason r) (is_catch_all r)
    v (is_free_email r) (is_role_account r) (mx_records r)
    (smtp_check r) (dns_check r) (confidence_score r) (risk_level r)).
Definition set_is_free_email (v : bool) : M unit :=
  update (fun r => mkResult (email r) (status r) (reason r) (is_catch_all r)
    (is_disposable r) v (is_role_account r) (mx_records r)
    (smtp_check r) (dns_check r) (confidence_score r) (risk_level r)).
Definition set_is_role_account (v : bool) : M unit :=
  update (fun r => mkResult (email r) (status r) (reason r) (is_catch_all r)
    (is_disposable r) (is_free_email r) v (mx_records r)
    (smtp_check r) (dns_check r) (confidence_score r) (risk_level r)).
Definition set_mx_records (v : list string) : M unit :=
  update (fun r => mkResult (email r) (status r) (reason r) (is_catch_all r)
    (is_disposable r) (is_free_email r) (is_role_account r) v
    (smtp_check r) (dns_check r) (confidence_score r) (risk_level r)).
Definition set_smtp_check (v : bool) : M unit :=
  update (fun r => mkResult (email r) (status r) (reason r) (is_catch_all r)
    (is_disposable r) (is_free_email r) (is_role_account r) (mx_records r)
    v (dns_check r) (confidence_score r) (risk_level r)).
Definition set_dns_check (v : bool) : M unit :=
  update (fun r => mkResult (email r) (status r) (reason r) (is_catch_all r)
    (is_disposable r) (is_free_email r) (is_role_account r) (mx_records r)
    (smtp_check r) v (confidence_score r) (risk_level r)).
Definition set_confidence_score (v : Z) : M unit :=
  update (fun r => mkResult (email r) (status r) (reason r) (is_catch_all r)
    (is_disposable r) (is_free_email r) (is_role_account r) (mx_records r)
    (smtp_check r) (dns_check r) v (risk_level r)).
Definition set_risk_level (v : RiskLevel) : M unit :=
  update (fun r => mkResult (email r) (status r) (reason r) (is_catch_all r)
    (is_disposable r) (is_free_email r) (is_role_account r) (mx_records r)
    (smtp_check r) (dns_check r) (confidence_score r) v).

(** *** The pure helpers *)

(** [/^[^\s@]+@[^\s@]+\.[^\s@]+$/] *)
Definition re_format : regex :=
  Cat (Plus (Cls not_space_at))
      (Cat (Chr "@")
           (Cat (Plus (Cls not_space_at))
                (Cat (Chr ".") (Plus (Cls not_space_at))))).

Definition isValidFormat (email : string) : bool :=
  test_full re_format email.

Definition roleAccounts : list string :=
  [ "info"; "admin"; "support"; "sales"; "contact"; "help"; "service";
    "office"; "hello"; "team"; "mail"; "webmaster"; "postmaster"; "noreply";
    "no-reply"; "jobs"; "careers"; "hr"; "marketing"; "billing"; "accounts" ].

Definition isRoleAccount (localPart : string) : bool :=
  Js.array_includes roleAccounts (Js.toLowerCase localPart).

Definition disposableDomains : list string :=
  [ "tempmail.com"; "guerrillamail.com"; "10minutemail.com";
    "mailinator.com"; "throwaway.email"; "temp-mail.org";
    "maildrop.cc"; "sharklasers.com"; "yopmail.com";
    "trashmail.com"; "fakeinbox.com"; "getnada.com" ].

Definition isDisposableDomain (domain : string) : bool :=
  Js.array_includes disposableDomains domain.

Definition freeProviders : list string :=
  [ "gmail.com"; "yahoo.com"; "hotmail.com"; "outlook.com";
    "aol.com"; "icloud.com"; "mail.com"; "protonmail.com";
    "zoho.com"; "yandex.com"; "gmx.com"; "live.com" ].

Definition isFreeEmailProvider (domain : string) : bool :=
  Js.array_includes freeProviders domain.

Definition detectMailProvider (mxRecords : list string) : Provider :=
  let mxString := Js.toLowerCase (Js.join " " mxRecords) in
  if Js.includes "google" mxString || Js.includes "googlemail" mxString
  then google_workspace
  else if Js.includes "outlook" mxString || Js.includes "microsoft" mxString
          || Js.includes "office365" mxString
  then microsoft365
  else if Js.includes "zoho" mxString then zoho
  else if Js.includes "protonmail" mxString then protonmail
  else if Js.includes "gmail" mxString || Js.includes "yahoo" mxString
          || Js.includes "hotmail" mxString
  then consumer
  else corporate.

(** The patterns of [calculateHeuristicConfidence]. *)
Definition re_random : regex := AtLeast 20 (Cls lower_alnum). (* ^[a-z0-9]{20,}$ *)
Definition re_first_last : regex :=                        (* ^[a-z]+\.[a-z]+$ *)
  Cat (Plus (Cls lower)) (Cat (Chr ".") (Plus (Cls lower))).
Definition re_word : regex := Plus (Cls lower).                    (* ^[a-z]+$ *)

Definition is_major (p : Provider) : bool :=
  match p with google_workspace | microsoft365 => true | _ => false end.
Definition is_corporate (p : Provider) : bool :=
  match p with corporate => true | _ => false end.

Definition calculateHeuristicConfidence
  (email : string) (result : VerificationResult) (mailProvider : Provider) : Z :=
  let score := 0%Z in
  let score := if smtp_check result then (score + 40)%Z else score in
  let score := if dns_check result then (score + 20)%Z else score in
  let score :=
    if is_major mailProvider then (score + 20)%Z
    else if is_corporate mailProvider then (score + 15)%Z
    else score in
  let localPart := nth 0 (Js.split "@" email) "" in
  let score := if is_role_account result then (score - 10)%Z else score in
  let score :=
    if (String.length localPart <? 3)%nat then (score - 10)%Z else score in
  let score :=
    if test_full re_random localPart then (score - 15)%Z else score in
  let score :=
    if test_full re_first_last localPart || test_full re_word localPart
    then (score + 10)%Z else score in
  let score := if is_free_email result then (score - 5)%Z else score in
  Z.max 0 (Z.min 100 score).

(** [(a, b) => a.priority - b.priority] *)
Definition by_priority (a b : MxRecord) : Z := (priority a - priority b)%Z.

(** [Array.prototype.sort] is stable: an element goes in front of the
    first one it does not compare greater than. *)
Fixpoint sort_insert (cmp : MxRecord -> MxRecord -> Z)
                     (x : MxRecord) (l : list MxRecord) : list MxRecord :=
  match l with
  | [] => [x]
  | y :: l' =>
      if (cmp x y >? 0)%Z then y :: sort_insert cmp x l' else x :: l
  end.

Fixpoint sort (cmp : MxRecord -> MxRecord -> Z) (l : list MxRecord)
  : list MxRecord :=
  match l with
  | [] => []
  | x :: l' => sort_insert cmp x (sort cmp l')
  end.

(** *** The calls to the network *)

(** [await resolveMx(domain).catch(() => null)] *)
Definition resolveMx (net : Network) (domain : string)
  : M (option (list MxRecord)) :=
  record_op (resolveMx_call domain) ;;
  ret (dns net domain).

(** [await testSMTPConnection(email, mxHost)]: the connection is made,
    the handlers of [Smtp] run on what the socket emits, and the caller
    goes on when the promise is settled.  A throw of
    [net.createConnection] inside the executor rejects the promise. *)
Definition await_testSMTPConnection (net : Network) (email mxHost : string)
  : M Smtp.ProbeOutcome :=
  tr <- get_transcript ;;
  record_op (createConnection_call 25 mxHost) ;;
  match socket net (connections tr) mxHost email with
  | inl error => throw error
  | inr events =>
      outcome <- await (Smtp.testSMTPConnection email events) ;;
      record_op (probe_settled email outcome) ;;
      ret outcome
  end.

(** [crypto.randomBytes(size)] *)
Definition randomBytes (net : Network) (size : nat) : M (list N) :=
  tr <- get_transcript ;;
  record_op (randomBytes_call size) ;;
  match entropy net (draws tr) with
  | inl error => throw error
  | inr source => ret (map (fun i => (source i mod 256)%N) (seq 0 size))
  end.

Definition generateRandomEmail (net : Network) (domain : string) : M string :=
  bytes <- randomBytes net 16 ;;
  let randomString := Js.hex bytes in
  ret (randomString ++ "@" ++ domain).

(** *** [verifyEmail] *)

Definition initial_result (email : string) : VerificationResult :=
  mkResult email Unknown "" false false false false [] false false 0
           RiskUnknown.

Definition numTests : nat := 2.

(** [for (let i = 0; i < numTests; i++) { ... }], [todo] being
    [numTests - i]; the pause of one second between two probes has no
    effect on the state. *)
Fixpoint random_probes (net : Network) (domainLower mxHost : string)
                       (todo : nat) (randomTests : list Smtp.ProbeOutcome)
  : M (list Smtp.ProbeOutcome) :=
  match todo with
  | O => ret randomTests
  | S todo' =>
      randomEmail <- generateRandomEmail net domainLower ;;
      randomCheck <- await_testSMTPConnection net randomEmail mxHost ;;
      random_probes net domainLower mxHost todo'
                    (randomTests ++ [randomCheck])%list
  end.

(** The block that starts at [// Use heuristic scoring instead]. *)
Definition heuristic_verdict (email : string) (mailProvider : Provider)
  : M unit :=
  r <- get_result ;;
  let confidence := calculateHeuristicConfidence email r mailProvider in
  set_confidence_score confidence ;;
  if (confidence >=? 75)%Z then
    set_status Valid ;;
    set_reason "Email accepted by mail server" ;;
    set_risk_level Low
  else if (confidence >=? 50)%Z then
    set_status Valid ;;
    set_reason "Likely valid (corporate mail server)" ;;
    set_risk_level Medium
  else
    set_status Unknown ;;
    set_reason "Cannot verify definitively" ;;
    set_risk_level Medium.

(** The block that starts at [// For other providers, perform catch-all
    test]. *)
Definition catch_all_test (net : Network) (domainLower mxHost : string)
  : M unit :=
  randomTests <- random_probes net domainLower mxHost numTests [] ;;
  let acceptedCount := List.length (filter Smtp.accepted randomTests) in
  if (acceptedCount =? numTests)%nat then
    set_is_catch_all true ;;
    set_status CatchAll ;;
    set_reason "Domain accepts all emails (catch-all)" ;;
    set_confidence_score 60 ;;
    set_risk_level Medium
  else
    set_status Valid ;;
    set_reason "Email verified successfully" ;;
    set_confidence_score 90 ;;
    set_risk_level Low.

(** The body of the [try].  Each [return result] is the end of a branch.
    [domain] is [undefined] when [email] has no [@], and
    [domain.toLowerCase()] throws then.  [console.log] under [debug] is
    left out: it changes neither [result] nor the network. *)
Definition verifyEmail_try (net : Network) (email : string)
                           (options : Options) : M unit :=
  if negb (isValidFormat email) then
    set_status Invalid ;;
    set_reason "Invalid email format" ;;
    set_confidence_score 0
  else
    match Js.split "@" email with
    | [] | [_] =>
        throw (mkError
          "Cannot read properties of undefined (reading 'toLowerCase')")
    | localPart :: domain :: _ =>
        let domainLower := Js.toLowerCase domain in
        set_is_role_account (isRoleAccount localPart) ;;
        set_is_disposable (isDisposableDomain domainLower) ;;
        r <- get_result ;;
        if is_disposable r then
          set_status Invalid ;;
          set_reason "Disposable email address" ;;
          set_confidence_score 0 ;;
          set_risk_level High
        else
          set_is_free_email (isFreeEmailProvider domainLower) ;;
          mxRecords <- resolveMx net domainLower ;;
          match mxRecords with
          | None | Some [] =>
              set_status Invalid ;;
              set_reason "No MX records found" ;;
              set_dns_check false ;;
              set_confidence_score 0 ;;
              set_risk_level High
          | Some mxRecords =>
              set_dns_check true ;;
              set_mx_records (map exchange (sort by_priority mxRecords)) ;;
              r <- get_result ;;
              let mailProvider := detectMailProvider (mx_records r) in
              let mxHost := nth 0 (mx_records r) "" in
              realEmailCheck <- await_testSMTPConnection net email mxHost ;;
              if negb (Smtp.connected realEmailCheck) then
                set_status Unknown ;;
                set_reason "Could not connect to mail server" ;;
                set_confidence_score 50 ;;
                set_risk_level Medium
              else
                set_smtp_check true ;;
                if negb (Smtp.accepted realEmailCheck) then
                  set_status Invalid ;;
                  set_reason (Js.or_default
                                (Some (Smtp.reason realEmailCheck))
                                "Email does not exist") ;;
                  set_confidence_score 10 ;;
                  set_risk_level High
                else if skipCatchAll options
                        || is_major mailProvider
                        || is_corporate mailProvider
                then heuristic_verdict email mailProvider
                else catch_all_test net domainLower mxHost
          end
    end.

(** The block of [catch (error)]. *)
Definition verifyEmail_catch (error : JsError) : M unit :=
  set_status Unknown ;;
  set_reason ("Verification error: " ++ message error) ;;
  set_confidence_score 50 ;;
  set_risk_level Medium.

(** [verifyEmail(email, options)]: how the call ends (with the [result]
    it returns), and what it did on the network. *)
Definition verifyEmail (net : Network) (email : string) (options : Options)
  : Completion VerificationResult * list NetOp :=
  let run :=
    try_catch
      (verifyEmail_try net email options ;; get_result)
      (fun error => verifyEmail_catch error ;; get_result) in
  let '(completion, st) := run (mkVState (initial_result email) []) in
  (completion, transcript st).

End Verifier.

(* ================================================================== *)
(** ** The design's words

    What the design description says of the confidence scorer, written
    down from its sentences and on characters, to be compared with
    [calculateHeuristicConfidence] and its patterns. *)

Module Design.
Import Regex Verifier.

Fixpoint all_chars (p : ascii -> bool) (s : string) : bool :=
  match s with
  | EmptyString => true
  | String c s' => p c && all_chars p s'
  end.

Definition is_lower_letter (c : ascii) : bool :=
  (97 <=? Js.code c)%N && (Js.code c <=? 122)%N.
Definition is_digit (c : ascii) : bool :=
  (48 <=? Js.code c)%N && (Js.code c <=? 57)%N.

(** "the local-part is shorter than 3 characters" *)
Definition too_short (localPart : string) : bool :=
  (String.length localPart <? 3)%nat.

(** "20+ lowercase alphanumeric characters with no separators" *)
Definition random_token (localPart : string) : bool :=
  (20 <=? String.length localPart)%nat
  && all_chars (fun c => is_lower_letter c || is_digit c) localPart.

(** "a single lowercase word" *)
Definition lowercase_word (s : string) : bool :=
  (1 <=? String.length s)%nat && all_chars is_lower_letter s.

(** "firstname.lastname": a lowercase word, a dot, a lowercase word.
    [seen] tells whether a letter of the first name was read. *)
Fixpoint first_dot_last (s : string) (seen : bool) : bool :=
  match s with
  | EmptyString => false
  | String c s' =>
      if is_lower_letter c then first_dot_last s' true
      else if Ascii.eqb c "." then seen && lowercase_word s'
      else false
  end.

Definition name_pattern (localPart : string) : bool :=
  first_dot_last localPart false || lowercase_word localPart.

Definition points (b : bool) (n : Z) : Z := if b then n else 0%Z.

Definition reputation (p : Provider) : Z :=
  match p with
  | google_workspace | microsoft365 => 20
  | corporate => 15
  | _ => 0
  end%Z.

Definition clamp (lo hi x : Z) : Z :=
  if (x <? lo)%Z then lo else if (hi <? x)%Z then hi else x.

Definition score (smtp_reached dns_ok : bool) (p : Provider)
                 (role : bool) (localPart : string) (free : bool) : Z :=
  clamp 0 100
    (points smtp_reached 40 + points dns_ok 20 + reputation p
     - points role 10 - points (too_short localPart) 10
     - points (random_token localPart) 15
     + points (name_pattern localPart) 10
     - points free 5)%Z.

(** "score >= 75: valid/low; 50-74: valid/medium; <50: unknown/medium" *)
Definition verdict (score : Z) : Status * RiskLevel :=
  if (75 <=? score)%Z then (Valid, Low)
  else if (50 <=? score)%Z then (Valid, Medium)
  else (Unknown, Medium).

End Design.

(* ================================================================== *)
(** ** Dialogues

    The vocabulary in which the properties of the probe are stated: the
    replies of a mail exchanger as the socket emits them. *)

Module Dialogue.

Definition CR : ascii := ascii_of_N 13.

(** A reply line holds no carriage return. *)
Definition one_line (l : string) : bool :=
  Design.all_chars (fun c => negb (Ascii.eqb c CR)) l.

(** One reply line, received whole in one chunk. *)
Definition reply (l : string) : Smtp.SocketEvent :=
  Smtp.Data (l ++ Js.CRLF).

(** What was received after the lines [ls]. *)
Fixpoint wire (ls : list string) : string :=
  match ls with
  | [] => ""
  | l :: ls' => l ++ Js.CRLF ++ wire ls'
  end.

(** The invariant of the handlers of a probe: an unsettled promise has
    its timer running, and a settled one never holds an acceptance
    without a connection. *)
Definition sound (st : Smtp.Probe) : Prop :=
  match Smtp.promise st with
  | None => Smtp.timer st = true
  | Some o => Smtp.accepted o = true -> Smtp.connected o = true
  end.

(** As long as the promise of a probe is not settled, [RCPT TO] was not
    written to the socket. *)
Definition rcpt_follows_settling (email : string) (st : Smtp.Probe) : Prop :=
  Smtp.promise st = None ->
  ~ In (nth 2 (Smtp.commands email) "") (Smtp.written st).

End Dialogue.

(* ================================================================== *)
(** ** Addresses and exchangers

    The vocabulary in which the properties of [verifyEmail] are stated. *)

Module Terms.

(** A string that holds no [@]. *)
Definition no_at (s : string) : bool :=
  Design.all_chars (fun c => negb (Ascii.eqb c "@")) s.

(** Ascending priority. *)
Definition by_priority_le (a b : Verifier.MxRecord) : Prop :=
  (Verifier.priority a <= Verifier.priority b)%Z.

End Terms.

(* ================================================================== *)
(** ** Scenarios

    Networks on which the properties are tried. *)

Module Scenarios.
Import Verifier Dialogue.

(** A mail exchanger that answers [250] whatever it is sent. *)
Definition accept_all_consumer : Network :=
mkNetwork
  (fun _ => Some [mkMx "mta7.am0.yahoodns.net" 1; mkMx "mta5.am0.yahoodns.net" 1])
  (fun _ _ _ => inr [reply "220 mta ESMTP ready"; reply "250 mta";
                     reply "250 sender ok"; reply "250 recipient ok"])
  (fun n => inr (fun i => N.of_nat (17 * n + i))).

(** A corporate exchanger that takes the sender. *)
Definition corporate_exchanger : Network :=
mkNetwork
  (fun _ => Some [mkMx "mx2.example.org" 20; mkMx "mx1.example.org" 10])
  (fun _ _ _ => inr [reply "220 mx1 ESMTP"; reply "250 mx1";
                     reply "250 2.1.0 Ok"])
  (fun n => inr (fun i => N.of_nat (17 * n + i))).

(** A domain hosted by Google Workspace. *)
Definition google_hosted : Network :=
mkNetwork
  (fun _ => Some [mkMx "alt1.aspmx.l.google.com" 5;
                  mkMx "aspmx.l.google.com" 1])
  (fun _ _ _ => inr [reply "220 mx.google.com ESMTP"; reply "250 mx.google.com";
                     reply "250 2.1.0 OK"])
  (fun n => inr (fun i => N.of_nat (17 * n + i))).

(** A domain without mail exchanger. *)
Definition no_exchanger : Network :=
mkNetwork (fun _ => None) (fun _ _ _ => inr [])
          (fun _ => inr (fun _ => 0%N)).

(** A mail exchanger whose address makes [net.createConnection] throw. *)
Definition throwing_connection : Network :=
mkNetwork
  (fun _ => Some [mkMx "mx.example.org" 10])
  (fun _ _ _ => inl (mkError "connect EINVAL"))
  (fun _ => inr (fun _ => 0%N)).

(** The second connection of the verification is refused. *)
Definition refuses_second_connection : Network :=
mkNetwork
  (fun _ => Some [mkMx "mta5.am0.yahoodns.net" 1])
  (fun n _ _ =>
     match n with
     | 1 => inr [Smtp.Error "connect ECONNREFUSED"]
     | _ => inr [reply "220 mta ESMTP ready"; reply "250 mta";
                 reply "250 sender ok"; reply "250 recipient ok"]
     end)
  (fun n => inr (fun i => N.of_nat (17 * n + i))).

(** A corporate exchanger that takes the sender and refuses the
  recipient with [550]. *)
Definition refusing_exchanger : Network :=
mkNetwork
  (fun _ => Some [mkMx "mx2.example.org" 20; mkMx "mx1.example.org" 10])
  (fun _ _ _ => inr [reply "220 mx1 ESMTP"; reply "250 mx1";
                     reply "250 2.1.0 Ok"; reply "550 5.1.1 No such user"])
  (fun n => inr (fun i => N.of_nat (17 * n + i))).

End Scenarios.

(* ================================================================== *)
(** ** The call of [verifyEmail]

    [export async function verifyEmail(email, options = {})] and its
    first two lines, [const debug = options.debug || false] and
    [const skipCatchAll = options.skipCatchAll || false], which stand
    before the [try]. *)

Module Boundary.
Import Verifier.

(** What a caller passes for [options]: nothing or [undefined], [null],
    a primitive (a number, a string, a boolean), or an object, of which
    the code asks whether its properties [debug] and [skipCatchAll] are
    truthy. *)
Inductive Argument : Type :=
| Undefined
| Null
| Primitive
| Object (properties : Options).

(** The binding of the parameter and the two reads: [undefined] takes
    the default [{}], whose properties are [undefined]; so are those of
    a primitive; reading a property of [null] throws the [TypeError] of
    the engine. *)
Definition read_options (argument : Argument) : JsError + Options :=
  match argument with
  | Undefined => inr (mkOptions false false)
  | Null => inl (mkError "Cannot read properties of null (reading 'debug')")
  | Primitive => inr (mkOptions false false)
  | Object properties => inr properties
  end.

(** [verifyEmail(email, options)] as it is called: a throw before the
    [try] leaves the function with nothing done. *)
Definition verifyEmail_call (net : Network) (email : string)
                            (argument : Argument)
  : Completion VerificationResult * list NetOp :=
  match read_options argument with
  | inl error => (Throw error, [])
  | inr options => verifyEmail net email options
  end.

End Boundary.

(* ================================================================== *)
(** ** Further vocabulary *)

Module Notions.

(** A digit of lowercase hexadecimal notation. *)
Definition is_hex_digit (c : ascii) : bool :=
  ((48 <=? Js.code c) && (Js.code c <=? 57)
   || (97 <=? Js.code c) && (Js.code c <=? 102))%N.

(** The records of priority [p], in their order. *)
Definition of_priority (p : Z) (recs : list Verifier.MxRecord)
  : list Verifier.MxRecord :=
  filter (fun m => (Verifier.priority m =? p)%Z) recs.

End Notions.

(* ================================================================== *)
(** ** Further scenarios *)

Module MoreScenarios.
Import Verifier Dialogue.

(** An exchanger that refuses the client at the greeting. *)
Definition blocked_at_greeting : Network :=
mkNetwork
  (fun _ => Some [mkMx "mx.example.org" 10])
  (fun _ _ _ => inr [reply "554 5.7.1 Service unavailable; client blocked"])
  (fun n => inr (fun i => N.of_nat (17 * n + i))).

(** An exchanger whose line 250 to [MAIL FROM] holds a rejection phrase. *)
Definition rejects_in_250 : Network :=
mkNetwork
  (fun _ => Some [mkMx "mx.example.org" 10])
  (fun _ _ _ => inr [reply "220 mx ESMTP"; reply "250 mx";
                     reply "250 OK, although the user unknown to us"])
  (fun n => inr (fun i => N.of_nat (17 * n + i))).

End MoreScenarios.
(* ================================================================== *)
(** ** The sender: aliases, domains, cooldown

    The helpers of the bulk sender ([getNextAlias], [extractDomain],
    [canSendToDomain], [processCooldownQueue]).  The variables of the
    module they read and write ([aliasIndex], [cooldownQueue],
    [domainLastSent]) and the clock are arguments and results. *)

Module Mailer.

(** [process.env.FROM_ALIASES.split(",")] *)
Definition aliases (FROM_ALIASES : string) : list string :=
  Js.split "," FROM_ALIASES.

(** [getNextAlias()]: the alias, [None] standing for [undefined], and the
    new [aliasIndex]. *)
Definition getNextAlias (aliases : list string) (aliasIndex : nat)
  : option string * nat :=
  let alias := nth_error aliases aliasIndex in
  (alias, (aliasIndex + 1) mod List.length aliases).

(** [k] calls of [getNextAlias] in a row. *)
Fixpoint nextAliases (aliases : list string) (k aliasIndex : nat)
  : list (option string) * nat :=
  match k with
  | O => ([], aliasIndex)
  | S k' =>
      let '(alias, aliasIndex') := getNextAlias aliases aliasIndex in
      let '(more, last) := nextAliases aliases k' aliasIndex' in
      (alias :: more, last)
  end.

(** [email.split('@')[1]?.toLowerCase() || ''] *)
Definition extractDomain (email : string) : string :=
  match Js.at_index (Js.split "@" email) 1 with
  | None => ""
  | Some part => Js.or_default (Some (Js.toLowerCase part)) ""
  end.

(** A value found in [domainLastSent]: all the code asks of it is whether
    it is truthy and what number it is in a subtraction ([None] for
    [NaN]).  [undefined] is [absent]; the instant written by
    [domainLastSent[domain] = Date.now()] is [instant t]. *)
Record JsValue : Type := mkValue {
  truthy : bool;
  number : option Z
}.

Definition absent : JsValue := mkValue false None.
Definition instant (t : Z) : JsValue := mkValue (negb (t =? 0)%Z) (Some t).

(** [const DOMAIN_COOLDOWN = 30 * 60 * 1000] *)
Definition DOMAIN_COOLDOWN : Z := 30 * 60 * 1000.

(** [now - lastSentTime < DOMAIN_COOLDOWN] and [>=]: a comparison with
    [NaN] is false. *)
Definition since_lt (now : Z) (last : JsValue) (bound : Z) : bool :=
  match number last with
  | Some t => (now - t <? bound)%Z
  | None => false
  end.

Definition since_ge (now : Z) (last : JsValue) (bound : Z) : bool :=
  match number last with
  | Some t => (now - t >=? bound)%Z
  | None => false
  end.

(** [canSendToDomain(email)], [now] being [Date.now()]. *)
Definition canSendToDomain (now : Z) (domainLastSent : string -> JsValue)
                           (email : string) : bool :=
  let domain := extractDomain email in
  if (domain =? "")%string then false
  else
    let lastSentTime := domainLastSent domain in
    if negb (truthy lastSentTime) then true
    else if since_lt now lastSentTime DOMAIN_COOLDOWN then false
    else true.

(** A row of the CSV file, or a copy of it in the queue
    ([{...lead, _fromQueue: true}]). *)
Record Lead : Type := mkLead {
  srno : string;
  company : string;
  email : string;
  name : string;
  _fromQueue : bool
}.

(** [processCooldownQueue()]: what it returns, [readyToSend], and the new
    [cooldownQueue], [stillOnCooldown]. *)
Definition processCooldownQueue
           (now : Z) (domainLastSent : string -> JsValue)
           (cooldownQueue : list Lead) : list Lead * list Lead :=
  fold_left
    (fun '(readyToSend, stillOnCooldown) item =>
       let domain := extractDomain (email item) in
       let lastSentTime := domainLastSent domain in
       if negb (truthy lastSentTime)
          || since_ge now lastSentTime DOMAIN_COOLDOWN
       then ((readyToSend ++ [item])%list, stillOnCooldown)
       else (readyToSend, (stillOnCooldown ++ [item])%list))
    cooldownQueue ([], []).

(** The test of [processCooldownQueue] on one lead. *)
Definition cooled_down (now : Z) (domainLastSent : string -> JsValue)
                       (item : Lead) : bool :=
  let lastSentTime := domainLastSent (extractDomain (email item)) in
  negb (truthy lastSentTime) || since_ge now lastSentTime DOMAIN_COOLDOWN.

End Mailer.
(* ================================================================== *)
(** ** The sending loop *)

(** [sendMails] of the bulk sender.  The module variables it reads and
    writes are the fields of [State]; what the outside answers during one
    turn of the [while] loop (the clock, the format validator, the
    verification service and the mail transport) is a [Tick].  Two
    effects are kept in the state: the content of [sent.json] as
    [saveProgress] last wrote it, and the messages that
    [transporter.sendMail] accepted.  Console output, the two log files
    and the delays are left out; writing a file is taken to succeed. *)

Module Sender.
Import Mailer.

Definition LF : string := String (ascii_of_N 10) EmptyString.
Definition QUOTE : string := String (ascii_of_N 34) EmptyString.

(** [o[k] = v] on an object used as a table from strings.  (Under the
    key [__proto__] an assignment would create no property; the two
    tables are written only under an address that the format validator
    let through, and under its domain.) *)
Definition assign {V : Type} (o : string -> V) (k : string) (v : V)
  : string -> V :=
  fun k' => if (k' =? k)%string then v else o k'.

(** An entry of [sentLog]: a string, or [None] for [undefined].  The
    empty string is falsy. *)
Definition logged (entry : option string) : bool :=
  match entry with
  | Some text => negb (text =? "")%string
  | None => false
  end.

(** A value that may be [undefined], inside a template literal. *)
Definition text_of (v : option string) : string :=
  match v with
  | Some text => text
  | None => "undefined"
  end.

(** The [progress] object, as the loop uses it: [sentToday] holds an
    integer, as it does when the module set it up or wrote the file. *)
Record Progress : Type := mkProgress {
  lastRunDate : string;
  sentToday : Z
}.

Record MailOptions : Type := mkMailOptions {
  from : string;
  replyTo : option string;
  to : string;
  subject : string;
  html : string
}.

(** A message that [transporter.sendMail] accepted, with what
    [Date.now()] gave in [canSendToDomain] before it and for
    [domainLastSent] after it. *)
Record Delivery : Type := mkDelivery {
  mail : MailOptions;
  checked_at : Z;
  stamped_at : Z
}.

(** The object that [saveProgress] writes. *)
Record Saved : Type := mkSaved {
  saved_sentLog : string -> option string;
  saved_lastIndex : nat;
  saved_lastRunDate : string;
  saved_sentToday : Z;
  saved_domainLastSent : string -> JsValue;
  saved_cooldownQueue : list Lead
}.

(** The variables of the module, then the two effects. *)
Record State : Type := mkState {
  sentCount : nat;
  failedCount : nat;
  aliasIndex : nat;
  lastIndex : nat;
  domainLastSent : string -> JsValue;
  cooldownQueue : list Lead;
  sentLog : string -> option string;
  progress : Progress;
  sent_json : option Saved;
  outbox : list Delivery
}.

Definition set_sentCount (v : nat) (st : State) : State :=
  mkState v (failedCount st) (aliasIndex st) (lastIndex st)
          (domainLastSent st) (cooldownQueue st) (sentLog st) (progress st)
          (sent_json st) (outbox st).

Definition set_failedCount (v : nat) (st : State) : State :=
  mkState (sentCount st) v (aliasIndex st) (lastIndex st)
          (domainLastSent st) (cooldownQueue st) (sentLog st) (progress st)
          (sent_json st) (outbox st).

Definition set_aliasIndex (v : nat) (st : State) : State :=
  mkState (sentCount st) (failedCount st) v (lastIndex st)
          (domainLastSent st) (cooldownQueue st) (sentLog st) (progress st)
          (sent_json st) (outbox st).

Definition set_lastIndex (v : nat) (st : State) : State :=
  mkState (sentCount st) (failedCount st) (aliasIndex st) v
          (domainLastSent st) (cooldownQueue st) (sentLog st) (progress st)
          (sent_json st) (outbox st).

Definition set_domainLastSent (v : string -> JsValue) (st : State) : State :=
  mkState (sentCount st) (failedCount st) (aliasIndex st) (lastIndex st)
          v (cooldownQueue st) (sentLog st) (progress st)
          (sent_json st) (outbox st).

Definition set_cooldownQueue (v : list Lead) (st : State) : State :=
  mkState (sentCount st) (failedCount st) (aliasIndex st) (lastIndex st)
          (domainLastSent st) v (sentLog st) (progress st)
          (sent_json st) (outbox st).

Definition set_sentLog (v : string -> option string) (st : State) : State :=
  mkState (sentCount st) (failedCount st) (aliasIndex st) (lastIndex st)
          (domainLastSent st) (cooldownQueue st) v (progress st)
          (sent_json st) (outbox st).

Definition set_sentToday (v : Z) (st : State) : State :=
  mkState (sentCount st) (failedCount st) (aliasIndex st) (lastIndex st)
          (domainLastSent st) (cooldownQueue st) (sentLog st)
          (mkProgress (lastRunDate (progress st)) v)
          (sent_json st) (outbox st).

Definition set_sent_json (v : option Saved) (st : State) : State :=
  mkState (sentCount st) (failedCount st) (aliasIndex st) (lastIndex st)
          (domainLastSent st) (cooldownQueue st) (sentLog st) (progress st)
          v (outbox st).

Definition set_outbox (v : list Delivery) (st : State) : State :=
  mkState (sentCount st) (failedCount st) (aliasIndex st) (lastIndex st)
          (domainLastSent st) (cooldownQueue st) (sentLog st) (progress st)
          (sent_json st) v.

(** The [data] object of [saveProgress] for the state as it is. *)
Definition snapshot (st : State) : Saved :=
  mkSaved (sentLog st) (lastIndex st) (lastRunDate (progress st))
          (sentToday (progress st)) (domainLastSent st) (cooldownQueue st).

(** [saveProgress()] *)
Definition saveProgress (st : State) : State :=
  set_sent_json (Some (snapshot st)) st.

(** [isEmailSafeToSend(verificationResult)], on the [status] of the
    result ([None] when it has none; a falsy result has none). *)
Definition isEmailSafeToSend (status : option string) : bool :=
  match status with
  | None => false
  | Some status =>
      if (status =? "error")%string then false
      else
        let safeStatuses := ["safe"] in
        Js.array_includes safeStatuses status
  end.

(** What the outside answers during one turn of the loop:
    [sweep_now] is [Date.now()] in [processCooldownQueue], [format_ok]
    is [validator.validate(lead.email)], [verification] the status of
    what [verifyEmail] resolves to, [check_now] is [Date.now()] in
    [canSendToDomain], [delivery] is [None] when [sendMail] resolves and
    [err.message] when it rejects, [sent_iso] is
    [new Date().toISOString()] and [sent_now] is [Date.now()] after the
    send. *)
Record Tick : Type := mkTick {
  sweep_now : Z;
  format_ok : bool;
  verification : option string;
  check_now : Z;
  delivery : option string;
  sent_iso : string;
  sent_now : Z
}.

(** The [mailOptions] of one lead. *)
Definition mailOptions (alias : option string) (lead : Lead) : MailOptions :=
  mkMailOptions
    ("Saket <" ++ text_of alias ++ ">")
    alias
    (email lead)
    ("Hi, Quick question about " ++ company lead)
    (LF
  ++ "        <p>Hi " ++ name lead ++ ",</p>" ++ LF
  ++ "        <p>I came across <b>" ++ company lead ++ "</b> and was genuinely impressed </p>" ++ LF
  ++ "        <p>I'm a software engineer currently exploring opportunities. Would you be open to a brief chat about potential fits on your team?</p>" ++ LF
  ++ "        <p>Happy to share my background if it's helpful.</p>" ++ LF
  ++ "        <br/>" ++ LF
  ++ "        <p>Best,<br/>Saket</p>" ++ LF
  ++ "        <p style=" ++ QUOTE ++ "font-size:11px;color:gray" ++ QUOTE ++ ">Not interested? Just reply " ++ QUOTE ++ "stop" ++ QUOTE ++ "</p>" ++ LF
  ++ "      ").

(** [if (!isFromQueue) lastIndex++] *)
Definition advance (isFromQueue : bool) (st : State) : State :=
  if negb isFromQueue then set_lastIndex (S (lastIndex st)) st else st.

(** The test of the [catch] block on [err.message]. *)
Definition unreachable (message : string) : bool :=
  Js.includes "550" message
  || Js.includes "NoSuchUser" message
  || Js.includes "does not exist" message
  || Js.includes "Relaying denied" message.

(** The body of the loop from [if (sentLog[lead.email])] on, for the
    lead that was chosen. *)
Definition attend (aliases : list string) (tick : Tick)
                  (lead : Lead) (isFromQueue : bool) (st : State) : State :=
  if logged (sentLog st (email lead)) then
    saveProgress (advance isFromQueue st)
  else if negb (format_ok tick) then
    saveProgress (advance isFromQueue st)
  else
    let verificationResult := verification tick in
    if negb (isEmailSafeToSend verificationResult) then
      let st :=
        set_sentLog
          (assign (sentLog st) (email lead)
             (Some ("VERIFICATION_FAILED_" ++ text_of verificationResult)))
          st in
      saveProgress (advance isFromQueue st)
    else if negb (canSendToDomain (check_now tick) (domainLastSent st)
                                  (email lead)) then
      let st :=
        if negb isFromQueue then
          let st :=
            set_cooldownQueue
              (cooldownQueue st
               ++ [mkLead (srno lead) (company lead) (email lead)
                          (name lead) true])%list
              st in
          set_lastIndex (S (lastIndex st)) st
        else st in
      saveProgress st
    else
      let '(alias, aliasIndex') := getNextAlias aliases (aliasIndex st) in
      let st := set_aliasIndex aliasIndex' st in
      let mailOptions := mailOptions alias lead in
      match delivery tick with
      | None =>
          let st :=
            set_outbox
              (outbox st
               ++ [mkDelivery mailOptions (check_now tick) (sent_now tick)])%list
              st in
          let st := set_sentCount (S (sentCount st)) st in
          let st := set_sentToday (sentToday (progress st) + 1) st in
          let st :=
            set_sentLog
              (assign (sentLog st) (email lead) (Some (sent_iso tick))) st in
          let domain := extractDomain (email lead) in
          let st :=
            set_domainLastSent
              (assign (domainLastSent st) domain (instant (sent_now tick)))
              st in
          saveProgress (advance isFromQueue st)
      | Some message =>
          let st := set_failedCount (S (failedCount st)) st in
          let st :=
            if unreachable message then
              set_sentLog
                (assign (sentLog st) (email lead) (Some "INVALID_EMAIL")) st
            else st in
          saveProgress (advance isFromQueue st)
      end.

(** How one turn of the loop ends: at its end or at a [continue], or at
    a [break]. *)
Inductive Step : Type :=
| Again (st : State)
| Break (st : State).

(** One turn of the [while] loop, its condition being true. *)
Definition turn (leads : list Lead) (aliases : list string) (maxPerRun : Z)
                (tick : Tick) (st : State) : Step :=
  if (sentToday (progress st) >=? maxPerRun)%Z then
    Break (saveProgress st)
  else
    let '(readyFromQueue, stillOnCooldown) :=
      processCooldownQueue (sweep_now tick) (domainLastSent st)
                           (cooldownQueue st) in
    let st := set_cooldownQueue stillOnCooldown st in
    match readyFromQueue with
    | lead :: _ => Again (attend aliases tick lead true st)
    | [] =>
        match nth_error leads (lastIndex st) with
        | Some lead => Again (attend aliases tick lead false st)
        | None =>
            if (0 <? List.length (cooldownQueue st))%nat then Again st
            else Break st
        end
    end.

(** [lastIndex < leads.length || cooldownQueue.length > 0] *)
Definition pending (leads : list Lead) (st : State) : bool :=
  (lastIndex st <? List.length leads)%nat
  || (0 <? List.length (cooldownQueue st))%nat.

(** The [while] loop, one tick for each turn; when the ticks are used up
    before the loop is left, the state reached comes back with [false]. *)
Fixpoint loop (leads : list Lead) (aliases : list string) (maxPerRun : Z)
              (ticks : list Tick) (st : State) : State * bool :=
  if negb (pending leads st) then (st, true)
  else
    match ticks with
    | [] => (st, false)
    | tick :: ticks' =>
        match turn leads aliases maxPerRun tick st with
        | Again st' => loop leads aliases maxPerRun ticks' st'
        | Break st' => (st', true)
        end
    end.

(** The statement after the loop. *)
Definition wind_up (leads : list Lead) (st : State) : State :=
  if (List.length leads <=? lastIndex st)%nat
     && (List.length (cooldownQueue st) =? 0)%nat
  then
    let st := set_lastIndex 0 st in
    let st := set_sentToday 0 st in
    let st := set_domainLastSent (fun _ => absent) st in
    let st := set_cooldownQueue [] st in
    saveProgress st
  else st.

(** [sendMails()]: [None] as long as the ticks do not reach its end. *)
Definition sendMails (leads : list Lead) (aliases : list string)
                     (maxPerRun : Z) (ticks : list Tick) (st : State)
  : option State :=
  match loop leads aliases maxPerRun ticks st with
  | (st', true) => Some (wind_up leads st')
  | (_, false) => None
  end.

(** The state of the module when [sendMails] is first called and there
    is no [sent.json]. *)
Definition first_run (today : string) : State :=
  mkState 0 0 0 0 (fun _ => absent) [] (fun _ => None)
          (mkProgress today 0) None [].

(** What is left to do: a lead of the file can be attended to twice,
    once from the file and once from the queue. *)
Definition work_left (leads : list Lead) (st : State) : nat :=
  2 * (List.length leads - lastIndex st) + List.length (cooldownQueue st).

(** The instant written to [domainLastSent] by the last of the
    deliveries that went to the domain. *)
Fixpoint last_stamp (domain : string) (deliveries : list Delivery)
  : option Z :=
  match deliveries with
  | [] => None
  | d :: ds =>
      match last_stamp domain ds with
      | Some t => Some t
      | None =>
          if (extractDomain (to (mail d)) =? domain)%string
          then Some (stamped_at d)
          else None
      end
  end.

(** A state in which two queued leads have cooled down, and a tick that
    lets a message through. *)
Definition two_cooled : State :=
  mkState 0 0 0 2
          (fun d => if (d =? "example.org")%string then instant 100000
                    else absent)
          [mkLead "1" "Example" "ann@example.org" "Ann" true;
           mkLead "2" "Example" "bob@example.org" "Bob" true]
          (fun _ => None) (mkProgress "2024-05-01" 0) None [].

Definition clear_tick (now : Z) : Tick :=
  mkTick now true (Some "safe") now None "2024-05-01T10:00:00.000Z" now.

End Sender.

(* ================================================================== *)
(** * Properties *)

(** ** Strings *)

Lemma append_nil_r (s : string) : s ++ "" = s.
Proof. induction s as [|c s IH]; simpl; [reflexivity | now rewrite IH]. Qed.

Lemma append_assoc (a b c : string) : (a ++ b) ++ c = a ++ (b ++ c).
Proof. induction a as [|x a IH]; simpl; [reflexivity | now rewrite IH]. Qed.

Lemma append_length (a b : string) :
  String.length (a ++ b) = String.length a + String.length b.
Proof. induction a as [|x a IH]; simpl; [reflexivity | now rewrite IH]. Qed.

Lemma append_eq_nil (a b : string) : a ++ b = "" -> a = "" /\ b = "".
Proof. destruct a; simpl; [auto | discriminate]. Qed.

Lemma append_eq_cons (a b : string) (c : ascii) (s : string) :
  a ++ b = String c s ->
  (a = "" /\ b = String c s) \/ (exists a', a = String c a' /\ s = a' ++ b).
Proof.
  destruct a as [|x a]; simpl; intros H.
  - left; auto.
  - right. injection H as -> <-. now exists a.
Qed.

(** ** Regular expressions: the matcher decides the language *)

Module RegexFacts.
Import Regex.

Lemma nullable_lang (r : regex) : nullable r = true <-> lang r "".
Proof.
  induction r as [| |p|r1 IH1 r2 IH2|r1 IH1 r2 IH2|r IH]; simpl.
  - split; [discriminate | inversion 1].
  - split; [constructor | reflexivity].
  - split; [discriminate | inversion 1].
  - rewrite andb_true_iff, IH1, IH2. split.
    + intros [H1 H2]. change "" with ("" ++ ""). now constructor.
    + inversion 1 as [| |? ? s1 s2 H1 H2 E1 E2| | | |]; subst.
      apply append_eq_nil in E2 as [-> ->]. auto.
  - rewrite orb_true_iff, IH1, IH2. split.
    + intros [H|H]; [now apply lang_alt_l | now apply lang_alt_r].
    + inversion 1; subst; auto.
  - split; [constructor | reflexivity].
Qed.

(** A word of [Star r] that starts with [c] starts with a word of [r]
    that starts with [c]. *)
Lemma star_cons_inv (r : regex) (w : string) :
  lang (Star r) w ->
  forall c s, w = String c s ->
  exists s1 s2, s = s1 ++ s2 /\ lang r (String c s1) /\ lang (Star r) s2.
Proof.
  intros H. remember (Star r) as r' eqn:E.
  induction H as [| | | | | r0 | r0 s1 s2 H1 _ H2 IH2];
    try discriminate.
  injection E as ->. intros c s Ew.
  destruct (append_eq_cons _ _ _ _ Ew) as [[-> ->] | [a' [-> ->]]].
  - apply IH2; reflexivity.
  - exists a', s2. auto.
Qed.

Lemma deriv_lang (r : regex) :
  forall c s, lang (deriv c r) s <-> lang r (String c s).
Proof.
  induction r as [| |p|r1 IH1 r2 IH2|r1 IH1 r2 IH2|r IH]; intros c s; simpl.
  - split; inversion 1.
  - split; inversion 1.
  - destruct (p c) eqn:Hp; split; intros H.
    + inversion H; subst. now constructor.
    + inversion H; subst. constructor.
    + inversion H.
    + inversion H; subst. congruence.
  - assert (Hcat : lang (Cat (deriv c r1) r2) s ->
                   lang (Cat r1 r2) (String c s)).
    { inversion 1 as [| |? ? s1 s2 H1 H2 E1 E2| | | |]; subst.
      apply IH1 in H1. change (lang (Cat r1 r2) (String c s1 ++ s2)).
      now constructor. }
    assert (Hinv : lang (Cat r1 r2) (String c s) ->
                   lang (Cat (deriv c r1) r2) s
                   \/ (lang r1 "" /\ lang (deriv c r2) s)).
    { inversion 1 as [| |? ? s1 s2 H1 H2 E1 E2| | | |]; subst.
      destruct (append_eq_cons _ _ _ _ E2) as [[-> ->] | [a' [-> ->]]].
      - right. split; [assumption | now apply IH2].
      - left. constructor; [now apply IH1 | assumption]. }
    destruct (nullable r1) eqn:Hn; split; intros H.
    + inversion H; subst; [now apply Hcat |].
      change (lang (Cat r1 r2) ("" ++ String c s)).
      constructor; [now apply nullable_lang | now apply IH2].
    + destruct (Hinv H) as [H'|[_ H']];
        [now apply lang_alt_l | now apply lang_alt_r].
    + now apply Hcat.
    + destruct (Hinv H) as [H'|[H' _]]; [assumption |].
      apply nullable_lang in H'. congruence.
  - split; intros H; inversion H; subst.
    + apply lang_alt_l. now apply IH1.
    + apply lang_alt_r. now apply IH2.
    + apply lang_alt_l. now apply IH1.
    + apply lang_alt_r. now apply IH2.
  - split; intros H.
    + inversion H as [| |? ? s1 s2 H1 H2 E1 E2| | | |]; subst.
      apply IH in H1. change (lang (Star r) (String c s1 ++ s2)).
      now constructor.
    + destruct (star_cons_inv _ _ H c s eq_refl) as [s1 [s2 [-> [H1 H2]]]].
      constructor; [now apply IH | assumption].
Qed.

Theorem accepts_lang (r : regex) (s : string) :
  accepts r s = true <-> lang r s.
Proof.
  revert r. induction s as [|c s IH]; intros r; simpl.
  - apply nullable_lang.
  - rewrite IH. apply deriv_lang.
Qed.

End RegexFacts.

(** ** Regular expressions: the shapes used by the verifier *)

Module RegexShapes.
Import Regex RegexFacts Design.

Lemma lang_cat_inv (a b : regex) (s : string) :
  lang (Cat a b) s -> exists s1 s2, s = s1 ++ s2 /\ lang a s1 /\ lang b s2.
Proof. inversion 1; subst; eauto. Qed.

Lemma lang_alt_inv (a b : regex) (s : string) :
  lang (Alt a b) s -> lang a s \/ lang b s.
Proof. inversion 1; subst; auto. Qed.

Lemma lang_cls_inv (p : ascii -> bool) (s : string) :
  lang (Cls p) s -> exists c, s = String c "" /\ p c = true.
Proof. inversion 1; subst; eauto. Qed.

Lemma lang_chr_inv (c : ascii) (s : string) :
  lang (Chr c) s -> s = String c "".
Proof.
  intros H. apply lang_cls_inv in H as [x [-> Hx]].
  apply Ascii.eqb_eq in Hx. now subst.
Qed.

Lemma lang_chr (c : ascii) : lang (Chr c) (String c "").
Proof. constructor. apply Ascii.eqb_refl. Qed.

Lemma lang_eps_inv (s : string) : lang Eps s -> s = "".
Proof. now inversion 1. Qed.

Lemma all_chars_app (p : ascii -> bool) (a b : string) :
  all_chars p (a ++ b) = all_chars p a && all_chars p b.
Proof.
  induction a as [|c a IH]; simpl; [reflexivity|].
  now rewrite IH, andb_assoc.
Qed.

Lemma lang_star_cls (p : ascii -> bool) (s : string) :
  lang (Star (Cls p)) s <-> all_chars p s = true.
Proof.
  split.
  - intros H. remember (Star (Cls p)) as r eqn:E.
    induction H as [| | | | | r0 | r0 s1 s2 H1 _ H2 IH2]; try discriminate.
    + reflexivity.
    + injection E as ->. apply lang_cls_inv in H1 as [c [-> Hc]].
      simpl. rewrite Hc. now apply IH2.
  - induction s as [|c s IH]; simpl; intros H.
    + constructor.
    + apply andb_true_iff in H as [Hc Hs].
      change (lang (Star (Cls p)) (String c "" ++ s)).
      constructor; [now constructor | now apply IH].
Qed.

Lemma lang_plus_cls (p : ascii -> bool) (s : string) :
  lang (Plus (Cls p)) s <-> s <> "" /\ all_chars p s = true.
Proof.
  unfold Plus. split.
  - intros H. apply lang_cat_inv in H as [s1 [s2 [-> [H1 H2]]]].
    apply lang_cls_inv in H1 as [c [-> Hc]]. apply lang_star_cls in H2.
    simpl. rewrite Hc, H2. split; [discriminate | reflexivity].
  - intros [Hne H]. destruct s as [|c s]; [congruence|].
    simpl in H. apply andb_true_iff in H as [Hc Hs].
    change (lang (Cat (Cls p) (Star (Cls p))) (String c "" ++ s)).
    constructor; [now constructor | now apply lang_star_cls].
Qed.

Lemma lang_rep_cls (p : ascii -> bool) (n : nat) (s : string) :
  lang (Rep n (Cls p)) s <-> String.length s = n /\ all_chars p s = true.
Proof.
  revert s. induction n as [|n IH]; intros s; simpl.
  - split.
    + intros H. apply lang_eps_inv in H. subst. auto.
    + intros [H _]. destruct s; [constructor | discriminate].
  - split.
    + intros H. apply lang_cat_inv in H as [s1 [s2 [-> [H1 H2]]]].
      apply lang_cls_inv in H1 as [c [-> Hc]]. apply IH in H2 as [Hl Ha].
      simpl. rewrite Hc, Ha, Hl. auto.
    + intros [Hl Ha]. destruct s as [|c s]; [discriminate|].
      simpl in Hl, Ha. apply andb_true_iff in Ha as [Hc Hs].
      change (lang (Cat (Cls p) (Rep n (Cls p))) (String c "" ++ s)).
      constructor; [now constructor | apply IH; split; [lia | assumption]].
Qed.

Lemma lang_rest (s : string) : lang Rest s.
Proof.
  apply lang_star_cls. induction s; simpl; [reflexivity | assumption].
Qed.

(** [/^r/.test(s)]: a word of [r] starts [s]. *)
Lemma test_prefix_iff (r : regex) (s : string) :
  test_prefix r s = true <-> exists w rest, s = w ++ rest /\ lang r w.
Proof.
  unfold test_prefix. rewrite accepts_lang. split.
  - intros H. apply lang_cat_inv in H as [s1 [s2 [-> [H1 _]]]]. eauto.
  - intros [w [rest [-> H]]]. constructor; [assumption | apply lang_rest].
Qed.

Lemma test_full_iff (r : regex) (s : string) :
  test_full r s = true <-> lang r s.
Proof. apply accepts_lang. Qed.

Lemma lower_is_lower_letter (c : ascii) : lower c = is_lower_letter c.
Proof. reflexivity. Qed.

Lemma digit_is_digit (c : ascii) : digit c = is_digit c.
Proof. reflexivity. Qed.

(** [/^[a-z]+$/] is "a single lowercase word". *)
Lemma re_word_spec (s : string) :
  test_full Verifier.re_word s = lowercase_word s.
Proof.
  apply Bool.eq_iff_eq_true. rewrite test_full_iff.
  unfold Verifier.re_word, lowercase_word.
  rewrite lang_plus_cls, andb_true_iff, Nat.leb_le.
  split; intros [H1 H2]; (split; [|exact H2]).
  - destruct s; [congruence | simpl; lia].
  - destruct s; [simpl in H1; lia | discriminate].
Qed.

(** [/^[a-z0-9]{20,}$/] is "20 or more lowercase letters and digits". *)
Lemma re_random_spec (s : string) :
  test_full Verifier.re_random s = random_token s.
Proof.
  apply Bool.eq_iff_eq_true. rewrite test_full_iff.
  unfold Verifier.re_random, AtLeast, random_token.
  rewrite andb_true_iff, Nat.leb_le.
  change (fun c => is_lower_letter c || is_digit c) with lower_alnum.
  split.
  - intros H. apply lang_cat_inv in H as [s1 [s2 [-> [H1 H2]]]].
    apply lang_rep_cls in H1 as [Hl Ha]. apply lang_star_cls in H2.
    rewrite append_length, all_chars_app, Ha, H2. split; [lia | reflexivity].
  - intros [Hl Ha].
    assert (Hsplit : forall n t, n <= String.length t ->
              exists a b, t = a ++ b /\ String.length a = n).
    { induction n as [|n IHn]; intros t Hn.
      - exists "", t. auto.
      - destruct t as [|c t]; [simpl in Hn; lia|].
        destruct (IHn t) as [a [b [-> Hlen]]]; [simpl in Hn; lia|].
        exists (String c a), b. simpl. auto. }
    destruct (Hsplit 20 s Hl) as [a [b [-> Hlen]]].
    rewrite all_chars_app in Ha. apply andb_true_iff in Ha as [Ha Hb].
    constructor; [apply lang_rep_cls; auto | now apply lang_star_cls].
Qed.

Lemma first_dot_last_iff (s : string) (seen : bool) :
  first_dot_last s seen = true <->
  exists a b, s = a ++ String "." b
              /\ all_chars is_lower_letter a = true
              /\ (seen = true \/ a <> "")
              /\ lowercase_word b = true.
Proof.
  revert seen. induction s as [|c s IH]; intros seen; simpl.
  - split; [discriminate|]. intros [a [b [E _]]]. destruct a; discriminate.
  - destruct (is_lower_letter c) eqn:Hc.
    + rewrite IH. split.
      * intros [a [b [-> [Ha [_ Hb]]]]]. exists (String c a), b.
        simpl. rewrite Hc, Ha. repeat split; auto. right; discriminate.
      * intros [a [b [E [Ha [Hs Hb]]]]]. destruct a as [|x a]; simpl in E.
        -- inversion E; subst. discriminate Hc.
        -- inversion E; subst. simpl in Ha.
           apply andb_true_iff in Ha as [_ Ha].
           exists a, b. repeat split; auto.
    + destruct (Ascii.eqb c ".") eqn:Hdot.
      * apply Ascii.eqb_eq in Hdot. subst c.
        rewrite andb_true_iff. split.
        -- intros [-> Hb]. exists "", s. simpl. auto.
        -- intros [a [b [E [Ha [Hs Hb]]]]]. destruct a as [|x a]; simpl in E.
           ++ inversion E; subst.
              destruct Hs as [Hs|Hs]; [auto | congruence].
           ++ inversion E; subst. simpl in Ha. discriminate.
      * split; [discriminate|]. intros [a [b [E [Ha _]]]].
        destruct a as [|x a]; simpl in E; inversion E; subst.
        -- rewrite Ascii.eqb_refl in Hdot. discriminate.
        -- simpl in Ha. rewrite Hc in Ha. discriminate.
Qed.

(** [/^[a-z]+\.[a-z]+$/] is "firstname.lastname". *)
Lemma re_first_last_spec (s : string) :
  test_full Verifier.re_first_last s = first_dot_last s false.
Proof.
  apply Bool.eq_iff_eq_true.
  rewrite test_full_iff, first_dot_last_iff. unfold Verifier.re_first_last.
  split.
  - intros H. apply lang_cat_inv in H as [a [t [-> [Ha Ht]]]].
    apply lang_cat_inv in Ht as [d [b [-> [Hd Hb]]]].
    apply lang_chr_inv in Hd. subst d.
    apply lang_plus_cls in Ha as [Hne Ha].
    exists a, b. simpl. repeat split; auto.
    rewrite <- re_word_spec. now apply test_full_iff.
  - intros [a [b [-> [Ha [Hs Hb]]]]].
    destruct Hs as [Hs|Hs]; [discriminate|].
    constructor; [now apply lang_plus_cls|].
    change (String "." b) with (String "." "" ++ b).
    constructor; [apply lang_chr|].
    apply test_full_iff. now rewrite re_word_spec.
Qed.

End RegexShapes.

(** ** The probe *)

Module SmtpFacts.
Import Regex RegexFacts RegexShapes Design Smtp Dialogue.

Lemma split_from_line (l acc t : string) :
  one_line l = true ->
  Js.split_from Js.CRLF (l ++ Js.CRLF ++ t) acc 0
  = (acc ++ l) :: Js.split_from Js.CRLF t "" 0.
Proof.
  revert acc. induction l as [|c l IH]; intros acc Hl.
  - rewrite append_nil_r.
    change ("" ++ Js.CRLF ++ t)
      with (String (ascii_of_N 13) (String (ascii_of_N 10) t)).
    cbn [Js.split_from].
    replace (prefix Js.CRLF (String (ascii_of_N 13) (String (ascii_of_N 10) t)))
      with true by (now destruct t).
    reflexivity.
  - unfold one_line in Hl. simpl in Hl.
    apply andb_true_iff in Hl as [Hc Hl].
    change ((String c l) ++ Js.CRLF ++ t) with (String c (l ++ Js.CRLF ++ t)).
    cbn [Js.split_from].
    assert (Hp : prefix Js.CRLF (String c (l ++ Js.CRLF ++ t)) = false).
    { unfold Js.CRLF. cbn [prefix].
      destruct (ascii_dec (ascii_of_N 13) c) as [E|E]; [|reflexivity].
      subst c. unfold CR in Hc. rewrite Ascii.eqb_refl in Hc. discriminate. }
    rewrite Hp, IH by exact Hl.
    now rewrite append_assoc.
Qed.

Lemma split_wire (ls : list string) :
  forallb one_line ls = true ->
  Js.split Js.CRLF (wire ls) = (ls ++ [""])%list.
Proof.
  unfold Js.split. induction ls as [|l ls IH]; cbn [wire forallb]; intros H.
  - reflexivity.
  - apply andb_true_iff in H as [Hl Hls].
    rewrite split_from_line by exact Hl.
    rewrite IH by exact Hls. reflexivity.
Qed.

Lemma wire_snoc (ls : list string) (l : string) :
  wire (ls ++ [l]) = wire ls ++ l ++ Js.CRLF.
Proof.
  induction ls as [|x ls IH]; cbn [wire List.app].
  - reflexivity.
  - now rewrite IH, !append_assoc.
Qed.

(** After whole lines, [lastLine] is the last of them. *)
Lemma last_line_wire (ls : list string) (l : string) :
  forallb one_line ls = true -> one_line l = true ->
  last_line (wire ls ++ l ++ Js.CRLF) = l.
Proof.
  intros Hls Hl. unfold last_line. rewrite <- wire_snoc.
  rewrite split_wire
    by (rewrite forallb_app; simpl; now rewrite Hls, Hl).
  rewrite <- app_assoc. simpl. rewrite !length_app. simpl.
  unfold Js.at_index.
  replace (Z.of_nat (List.length ls + 2) - 2)%Z
    with (Z.of_nat (List.length ls)) by lia.
  destruct (Z.ltb_spec (Z.of_nat (List.length ls)) 0); [lia|].
  rewrite Nat2Z.id, nth_error_app2, Nat.sub_diag by lia. simpl.
  now destruct l.
Qed.

(** A line that starts like [2xx] or [3xx] starts with a code. *)
Lemma code_of_2xx_3xx (l : string) :
  test_prefix re_2xx_3xx l = true -> match_code l = Some (substring 0 3 l).
Proof.
  intros H. unfold match_code.
  replace (test_prefix re_code l) with true; [reflexivity|].
  symmetry. apply test_prefix_iff. apply test_prefix_iff in H.
  destruct H as [w [rest [-> H]]]. exists w, rest. split; [reflexivity|].
  unfold re_2xx_3xx in H. apply lang_cat_inv in H as [a [b [-> [Ha Hb]]]].
  apply lang_rep_cls in Hb as [Hlen Hb].
  assert (Hd : exists c, a = String c "" /\ digit c = true).
  { inversion Ha as [| | |? ? ? H1|? ? ? H1| |]; subst;
      apply lang_chr_inv in H1; subst.
    - now exists "2"%char.
    - now exists "3"%char. }
  destruct Hd as [c [-> Hc]].
  apply (lang_rep_cls digit 3). simpl. rewrite Hc, Hb, Hlen. auto.
Qed.

(** The [data] handler on a whole line [2xx]/[3xx] before the third:
    the next command is written and [step] goes up. *)
Lemma on_data_go (email : string) (ls : list string) (l : string) (st : Probe) :
  forallb one_line ls = true -> one_line l = true ->
  response st = wire ls ->
  test_prefix re_2xx_3xx l = true ->
  step st < 2 ->
  on_data email (l ++ Js.CRLF) st
  = mkProbe (wire (ls ++ [l])) (S (step st)) (substring 0 3 l) (timer st)
            (written st ++ [nth (step st) (commands email) ""])
            (ended st) (destroyed st) (promise st).
Proof.
  intros Hls Hl Hr H2xx Hstep. unfold on_data.
  cbn [response set_response]. rewrite Hr, last_line_wire by assumption.
  rewrite code_of_2xx_3xx, H2xx by assumption.
  rewrite wire_snoc.
  destruct st as [resp k c tm wr en de pr]. cbn in Hstep |- *.
  destruct k as [|[|k]]; [reflexivity | reflexivity | lia].
Qed.

(** The [data] handler on a whole line [2xx]/[3xx] when [step] is 2:
    [RCPT TO] and [QUIT] are written together, and the promise is
    resolved from the line that was just read. *)
Lemma on_data_decide (email : string) (ls : list string) (l : string) (st : Probe) :
  forallb one_line ls = true -> one_line l = true ->
  response st = wire ls ->
  test_prefix re_2xx_3xx l = true ->
  step st = 2 -> promise st = None ->
  on_data email (l ++ Js.CRLF) st
  = mkProbe (wire (ls ++ [l])) 2 (substring 0 3 l) false
            ((written st ++ [nth 2 (commands email) ""])
               ++ [nth 3 (commands email) ""])
            true (destroyed st)
            (Some (classify l (substring 0 3 l))).
Proof.
  intros Hls Hl Hr H2xx Hstep Hp. unfold on_data.
  cbn [response set_response]. rewrite Hr, last_line_wire by assumption.
  rewrite code_of_2xx_3xx, H2xx by assumption.
  rewrite wire_snoc.
  destruct st as [resp k c tm wr en de pr]. cbn in Hstep, Hp |- *.
  subst k pr. reflexivity.
Qed.

(** A promise keeps its value. *)
Lemma resolve_settled (o o' : ProbeOutcome) (st : Probe) :
  promise st = Some o -> promise (resolve o' st) = Some o.
Proof. intros H. unfold resolve. now rewrite H. Qed.

Lemma deliver_settled (email : string) (st : Probe) (ev : SocketEvent)
                      (o : ProbeOutcome) :
  promise st = Some o -> promise (deliver email st ev) = Some o.
Proof.
  intros H. unfold deliver. destruct (destroyed st); [assumption|].
  destruct ev as [chunk|msg|].
  - unfold on_data.
    repeat match goal with
           | |- context [match ?x with _ => _ end] => destruct x
           end;
      try (apply resolve_settled); assumption.
  - now apply resolve_settled.
  - now apply resolve_settled.
Qed.

Lemma fold_deliver_settled (email : string) (evs : list SocketEvent) :
  forall st o, promise st = Some o ->
               promise (fold_left (deliver email) evs st) = Some o.
Proof.
  induction evs as [|ev evs IH]; intros st o H; simpl.
  - assumption.
  - apply IH. now apply deliver_settled.
Qed.

Lemma deadline_settled (st : Probe) (o : ProbeOutcome) :
  promise st = Some o -> promise (deadline st) = Some o.
Proof.
  intros H. unfold deadline. destruct (timer st); [|assumption].
  now apply resolve_settled.
Qed.

(** A server that takes the greeting, [HELO] and [MAIL FROM]: three whole
    lines [2xx]/[3xx], each received in one chunk. *)
Section AcceptedSender.

Variables email g h m : string.
Hypothesis one_line_g : one_line g = true.
Hypothesis one_line_h : one_line h = true.
Hypothesis one_line_m : one_line m = true.
Hypothesis greeting_ok : test_prefix re_2xx_3xx g = true.
Hypothesis helo_ok : test_prefix re_2xx_3xx h = true.
Hypothesis mail_from_ok : test_prefix re_2xx_3xx m = true.

Lemma after_greeting :
  deliver email opened (reply g)
  = mkProbe (wire [g]) 1 (substring 0 3 g) true
            [nth 0 (commands email) ""] false false None.
Proof.
  unfold deliver, reply. cbn [destroyed opened].
  rewrite (on_data_go email [] g) by (auto; cbn; lia). reflexivity.
Qed.

Lemma after_helo (st : Probe) :
  st = mkProbe (wire [g]) 1 (substring 0 3 g) true
               [nth 0 (commands email) ""] false false None ->
  deliver email st (reply h)
  = mkProbe (wire [g; h]) 2 (substring 0 3 h) true
            [nth 0 (commands email) ""; nth 1 (commands email) ""]
            false false None.
Proof.
  intros ->. unfold deliver, reply. cbn [destroyed].
  rewrite (on_data_go email [g] h)
    by (auto; cbn [forallb step]; try rewrite one_line_g; auto).
  reflexivity.
Qed.

(** The probe after the three lines: the four commands were written,
    [RCPT TO] and [QUIT] on reading the third line; the timer is cleared
    and the promise holds the classification of that third line, which is
    the reply to [MAIL FROM]. *)
Lemma three_replies :
  fold_left (deliver email) [reply g; reply h; reply m] opened
  = mkProbe (wire [g; h; m]) 2 (substring 0 3 m) false (commands email)
            true false (Some (classify m (substring 0 3 m))).
Proof.
  cbn [fold_left]. rewrite after_greeting, (after_helo _ eq_refl).
  unfold deliver, reply. cbn [destroyed].
  rewrite (on_data_decide email [g; h] m)
    by (auto; cbn [forallb]; rewrite one_line_g, one_line_h; auto).
  reflexivity.
Qed.

(** Whatever the socket emits after them. *)
Lemma third_reply_decides (rest : list SocketEvent) :
  testSMTPConnection email (reply g :: reply h :: reply m :: rest)
  = Some (classify m (substring 0 3 m)).
Proof.
  unfold testSMTPConnection, run. apply deadline_settled.
  change (reply g :: reply h :: reply m :: rest)
    with ([reply g; reply h; reply m] ++ rest)%list.
  rewrite fold_left_app. apply fold_deliver_settled.
  now rewrite three_replies.
Qed.

End AcceptedSender.

(** A line that starts with [250] has the code [250]. *)
Lemma code_of_250 (m : string) :
  test_prefix re_250 m = true -> substring 0 3 m = "250".
Proof.
  intros H. apply test_prefix_iff in H as [w [rest [-> H]]].
  unfold re_250 in H. cbn [Lit] in H.
  apply lang_cat_inv in H as [a [t [-> [Ha H]]]].
  apply lang_cat_inv in H as [b [t' [-> [Hb H]]]].
  apply lang_cat_inv in H as [c [e [-> [Hc He]]]].
  apply lang_chr_inv in Ha, Hb, Hc. apply lang_eps_inv in He. subst.
  cbn. now destruct rest.
Qed.

Lemma lang_lit (w s : string) : lang (Lit w) s -> s = w.
Proof.
  revert s. induction w as [|c w IH]; intros s H; cbn [Lit] in H.
  - now apply lang_eps_inv.
  - apply lang_cat_inv in H as [a [b [-> [Ha Hb]]]].
    apply lang_chr_inv in Ha. subst a. now rewrite (IH b Hb).
Qed.

(** The chain of [classify] does treat a line [550], [551], [553] or
    [554] as the design says; it is never given the reply to [RCPT TO]. *)
Lemma classify_55x (r c : string) :
  test_prefix re_55x r = true ->
  classify r c = mkOutcome true false "User does not exist" (Some c).
Proof.
  intros H. unfold classify. rewrite H.
  replace (test_prefix re_250 r) with false; [reflexivity|].
  symmetry. apply not_true_is_false. intros H250.
  apply test_prefix_iff in H as [w [rest [-> Hw]]].
  apply test_prefix_iff in H250 as [w' [rest' [E Hw']]].
  apply lang_lit in Hw'. subst w'.
  unfold re_55x in Hw.
  apply lang_alt_inv in Hw as [Hw|Hw];
    [| apply lang_alt_inv in Hw as [Hw|Hw];
       [| apply lang_alt_inv in Hw as [Hw|Hw]]];
    apply lang_lit in Hw; subst w; discriminate E.
Qed.

Lemma classify_reason (l c : string) :
  reason (classify l c) <> "Connection timeout".
Proof.
  unfold classify.
  repeat match goal with
         | |- context [if ?b then _ else _] => destruct b
         end; discriminate.
Qed.

Lemma classify_connected (l c : string) : connected (classify l c) = true.
Proof.
  unfold classify.
  repeat match goal with
         | |- context [if ?b then _ else _] => destruct b
         end; reflexivity.
Qed.

Lemma resolve_sound (o : ProbeOutcome) (st : Probe) :
  (accepted o = true -> connected o = true) ->
  (forall o', promise st = Some o' -> accepted o' = true -> connected o' = true) ->
  sound (resolve o st).
Proof.
  intros Ho Hst. unfold sound, resolve.
  destruct (promise st) as [o'|] eqn:E.
  - rewrite E. now apply Hst.
  - cbn. exact Ho.
Qed.

Lemma sound_settled (st : Probe) :
  sound st ->
  forall o', promise st = Some o' -> accepted o' = true -> connected o' = true.
Proof. unfold sound. intros H o' E. now rewrite E in H. Qed.

Lemma deliver_sound (email : string) (st : Probe) (ev : SocketEvent) :
  sound st -> sound (deliver email st ev).
Proof.
  intros H. unfold deliver. destruct (destroyed st); [assumption|].
  pose proof (sound_settled st H) as Hs.
  destruct ev as [chunk|msg|].
  - unfold on_data.
    repeat match goal with
           | |- context [match ?x with _ => _ end] => destruct x
           end;
      try (apply resolve_sound;
           [ first [ intros _; apply classify_connected | discriminate ]
           | exact Hs ]);
      exact H.
  - apply resolve_sound; [discriminate | exact Hs].
  - apply resolve_sound; [discriminate | exact Hs].
Qed.

Lemma run_sound (email : string) (evs : list SocketEvent) :
  forall st, sound st -> sound (fold_left (deliver email) evs st).
Proof.
  induction evs as [|ev evs IH]; intros st H; simpl; [assumption|].
  apply IH. now apply deliver_sound.
Qed.

(** [RCPT TO] is written in the very call of the [data] handler that
    settles the promise, so no reply to it is ever read before the
    outcome is fixed, however the replies are cut into chunks. *)
Lemma deliver_rcpt_follows_settling
      (email : string) (st : Probe) (ev : SocketEvent) :
  rcpt_follows_settling email st ->
  rcpt_follows_settling email (deliver email st ev).
Proof.
  unfold rcpt_follows_settling. intros H.
  unfold deliver. destruct (destroyed st); [exact H|].
  destruct ev as [chunk|msg|].
  - unfold on_data.
    destruct (match_code _); destruct (test_prefix re_2xx_3xx _);
      try destruct (test_prefix re_4xx_5xx _);
      destruct st as [resp k c tm wr en de pr]; cbn in H |- *;
      try exact H;
      try (destruct pr; [discriminate | cbn; discriminate]).
    all: destruct k as [|[|[|k]]]; cbn; try exact H;
      try (destruct pr; [discriminate | cbn; discriminate]).
    all: intros Hp Hin; apply in_app_or in Hin as [Hin|[Hin|[]]];
      [ now apply (H Hp) | discriminate Hin ].
  - destruct st as [resp k c tm wr en de pr]. unfold on_error, resolve.
    destruct pr; cbn; intros Hp; discriminate Hp.
  - destruct st as [resp k c tm wr en de pr]. unfold on_timeout, resolve.
    destruct pr; cbn; intros Hp; discriminate Hp.
Qed.

Theorem settled_when_rcpt_is_written (email : string) (evs : list SocketEvent) :
  In (nth 2 (commands email) "")
     (written (fold_left (deliver email) evs opened)) ->
  exists o, promise (fold_left (deliver email) evs opened) = Some o.
Proof.
  assert (H : forall st, rcpt_follows_settling email st ->
                         rcpt_follows_settling email
                           (fold_left (deliver email) evs st)).
  { induction evs as [|ev evs IH]; intros st Hst; cbn [fold_left].
    - exact Hst.
    - apply IH. now apply deliver_rcpt_follows_settling. }
  intros Hin.
  destruct (promise (fold_left (deliver email) evs opened)) as [o|] eqn:E.
  - now exists o.
  - exfalso. apply (H opened); [intros _ [] | exact E | exact Hin].
Qed.

Lemma opened_sound : sound opened.
Proof. reflexivity. Qed.

(** The promise of a probe is always settled, and what it is settled
    with never is an acceptance without a connection. *)
Lemma probe_resolves (email : string) (evs : list SocketEvent) :
  exists o, testSMTPConnection email evs = Some o
            /\ (accepted o = true -> connected o = true).
Proof.
  unfold testSMTPConnection, run.
  pose proof (run_sound email evs opened opened_sound) as H.
  set (st := fold_left (deliver email) evs opened) in *.
  unfold deadline. unfold sound in H.
  destruct (promise st) as [o|] eqn:E.
  - exists o. split; [|exact H].
    destruct (timer st); [|exact E]. now apply resolve_settled.
  - rewrite H. unfold on_timer, resolve. cbn. rewrite E.
    eexists. split; [reflexivity | discriminate].
Qed.

End SmtpFacts.

(** ** The address and its parts *)

Module FormatFacts.
Import Regex RegexFacts RegexShapes Design Verifier Terms.

Lemma split_at_end (t acc : string) :
  no_at t = true -> Js.split_from "@" t acc 0 = [acc ++ t].
Proof.
  revert acc. induction t as [|c t IH]; intros acc H.
  - now rewrite append_nil_r.
  - unfold no_at in H. simpl in H. apply andb_true_iff in H as [Hc Ht].
    cbn [Js.split_from].
    assert (Hp : prefix "@" (String c t) = false).
    { cbn [prefix]. destruct (ascii_dec "@" c) as [E|E]; [|reflexivity].
      subst c. discriminate. }
    rewrite Hp, IH by exact Ht. now rewrite append_assoc.
Qed.

Lemma split_at_first (a t acc : string) :
  no_at a = true ->
  Js.split_from "@" (a ++ String "@" t) acc 0
  = (acc ++ a) :: Js.split_from "@" t "" 0.
Proof.
  revert acc. induction a as [|c a IH]; intros acc H.
  - rewrite append_nil_r. cbn [append Js.split_from].
    replace (prefix "@" (String "@" t)) with true by (now destruct t).
    reflexivity.
  - unfold no_at in H. simpl in H. apply andb_true_iff in H as [Hc Ha].
    cbn [append Js.split_from].
    assert (Hp : prefix "@" (String c (a ++ String "@" t)) = false).
    { cbn [prefix]. destruct (ascii_dec "@" c) as [E|E]; [|reflexivity].
      subst c. discriminate. }
    rewrite Hp, IH by exact Ha. now rewrite append_assoc.
Qed.

Lemma not_space_at_no_at (s : string) :
  all_chars not_space_at s = true -> no_at s = true.
Proof.
  unfold no_at. induction s as [|c s IH]; simpl; [reflexivity|].
  intros H. apply andb_true_iff in H as [Hc Hs]. rewrite IH by exact Hs.
  unfold not_space_at in Hc.
  destruct (Ascii.eqb c "@"); [|reflexivity].
  now rewrite orb_true_r in Hc.
Qed.

(** An address of the accepted shape has one [@], between a local part
    and a domain that hold none. *)
Lemma format_parts (email : string) :
  isValidFormat email = true ->
  exists localPart domain,
    email = localPart ++ String "@" domain
    /\ no_at localPart = true /\ no_at domain = true.
Proof.
  unfold isValidFormat. rewrite test_full_iff. unfold re_format. intros H.
  apply lang_cat_inv in H as [a [t1 [-> [Ha H]]]].
  apply lang_cat_inv in H as [x [t2 [-> [Hx H]]]].
  apply lang_cat_inv in H as [b [t3 [-> [Hb H]]]].
  apply lang_cat_inv in H as [y [c [-> [Hy Hc]]]].
  apply lang_chr_inv in Hx, Hy. subst x y.
  apply lang_plus_cls in Ha as [_ Ha], Hb as [_ Hb], Hc as [_ Hc].
  exists a, (b ++ String "." c). split; [reflexivity|].
  split; [now apply not_space_at_no_at|].
  apply not_space_at_no_at. rewrite all_chars_app. simpl.
  now rewrite Hb, Hc.
Qed.

Lemma split_parts (localPart domain : string) :
  no_at localPart = true -> no_at domain = true ->
  Js.split "@" (localPart ++ String "@" domain) = [localPart; domain].
Proof.
  intros Hl Hd. unfold Js.split.
  rewrite split_at_first by exact Hl. now rewrite split_at_end.
Qed.

End FormatFacts.

(** ** The order of the mail exchangers *)

Module SortFacts.
Import Verifier Terms.

Lemma sort_insert_perm (x : MxRecord) (l : list MxRecord) :
  Permutation (x :: l) (sort_insert by_priority x l).
Proof.
  induction l as [|y l IH]; simpl; [reflexivity|].
  destruct (by_priority x y >? 0)%Z; [|reflexivity].
  rewrite perm_swap. now constructor.
Qed.

Lemma sort_perm (l : list MxRecord) :
  Permutation l (sort by_priority l).
Proof.
  induction l as [|x l IH]; simpl; [constructor|].
  rewrite <- sort_insert_perm. now constructor.
Qed.

Lemma sort_insert_sorted (x : MxRecord) (l : list MxRecord) :
  Sorted by_priority_le l -> Sorted by_priority_le (sort_insert by_priority x l).
Proof.
  induction 1 as [|y l Hl IH Hy]; simpl.
  - repeat constructor.
  - unfold by_priority at 1.
    destruct (Z.gtb_spec (priority x - priority y) 0) as [Hgt|Hle].
    + constructor; [exact IH|].
      destruct l as [|z l]; simpl.
      * constructor. unfold by_priority_le. lia.
      * unfold by_priority at 1.
        destruct (Z.gtb_spec (priority x - priority z) 0).
        -- constructor. now inversion Hy.
        -- constructor. unfold by_priority_le. lia.
    + constructor; [now constructor|].
      constructor. unfold by_priority_le. lia.
Qed.

Lemma sort_sorted (l : list MxRecord) :
  Sorted by_priority_le (sort by_priority l).
Proof.
  induction l as [|x l IH]; simpl; [constructor|].
  now apply sort_insert_sorted.
Qed.

End SortFacts.

(** ** The verifier *)

Module VerifierFacts.
Import Regex RegexShapes Design Verifier Terms FormatFacts SortFacts.

Lemma split_of_valid (email : string) :
  isValidFormat email = true ->
  exists localPart domain,
    Js.split "@" email = [localPart; domain]
    /\ email = localPart ++ String "@" domain
    /\ no_at localPart = true /\ no_at domain = true.
Proof.
  intros H. destruct (format_parts email H) as (l & d & -> & Hl & Hd).
  exists l, d. split; [now apply split_parts | auto].
Qed.

Lemma calculateHeuristicConfidence_bounds
      (email : string) (r : VerificationResult) (p : Provider) :
  (0 <= calculateHeuristicConfidence email r p <= 100)%Z.
Proof. unfold calculateHeuristicConfidence. lia. Qed.

(** [calculateHeuristicConfidence] computes the score of the design. *)
Lemma calculateHeuristicConfidence_design
      (email : string) (r : VerificationResult) (p : Provider) :
  calculateHeuristicConfidence email r p
  = Design.score (smtp_check r) (dns_check r) p (is_role_account r)
                 (nth 0 (Js.split "@" email) "") (is_free_email r).
Proof.
  unfold calculateHeuristicConfidence, Design.score, name_pattern, too_short.
  rewrite re_random_spec, re_first_last_spec, re_word_spec.
  set (l := nth 0 (Js.split "@" email) "").
  unfold clamp, points.
  destruct (smtp_check r), (dns_check r), p, (is_role_account r),
    (String.length l <? 3)%nat, (random_token l),
    (first_dot_last l false || lowercase_word l), (is_free_email r);
    reflexivity.
Qed.

(** Running [verifyEmail] by cases: the monad is reduced as far as the
    next test on the address or on the network, and the test is split. *)
Ltac reduce_verifier :=
  cbv beta iota zeta delta
      [verifyEmail try_catch verifyEmail_try verifyEmail_catch
       heuristic_verdict catch_all_test random_probes numTests
       generateRandomEmail randomBytes await_testSMTPConnection resolveMx
       await bind ret throw get_result get_transcript update record_op
       set_status set_reason set_is_catch_all set_is_disposable
       set_is_free_email set_is_role_account set_mx_records set_smtp_check
       set_dns_check set_confidence_score set_risk_level initial_result
       result transcript email status reason is_catch_all is_disposable
       is_free_email is_role_account mx_records smtp_check dns_check
       confidence_score risk_level
       connections draws outcomes List.app fst snd];
  cbn [negb].

Ltac branch_verifier :=
  match goal with
  | |- context [isValidFormat ?e] =>
      let H := fresh "Hformat" in
      destruct (isValidFormat e) eqn:H;
      [ let l := fresh "localPart" in
        let d := fresh "domain" in
        let Hs := fresh "Hsplit" in
        let He := fresh "Hemail" in
        let Hl := fresh "Hlocal" in
        let Hd := fresh "Hdomain" in
        destruct (split_of_valid e H) as (l & d & Hs & He & Hl & Hd);
        rewrite Hs
      | ]
  | |- context [match dns ?n ?d with _ => _ end] =>
      let H := fresh "Hdns" in
      destruct (dns n d) as [[|? ?]|] eqn:H
  | |- context [match socket ?n ?i ?h ?e with _ => _ end] =>
      let H := fresh "Hsocket" in
      destruct (socket n i h e) as [?|?] eqn:H
  | |- context [match entropy ?n ?i with _ => _ end] =>
      let H := fresh "Hentropy" in
      destruct (entropy n i) as [?|?] eqn:H
  | |- context [Smtp.testSMTPConnection ?e ?evs] =>
      let o := fresh "o" in
      let E := fresh "Hprobe" in
      let G := fresh "Hsound" in
      destruct (SmtpFacts.probe_resolves e evs) as [o [E G]]; rewrite E
  | |- context [negb ?b] => destruct b eqn:?
  | |- context [if ?b then _ else _] => destruct b eqn:?
  end.

Ltac run_verifier :=
  reduce_verifier; repeat (branch_verifier; reduce_verifier).

End VerifierFacts.

(* ================================================================== *)
(** * The properties of the design, settled *)

Import Regex Smtp Dialogue.

(** C1.  The design: when the greeting, the reply to [HELO] and the reply
    to [MAIL FROM] are [2xx] and the reply to [RCPT TO] is [550] (or
    [551], [553], [554]), the probe returns [connected = true],
    [accepted = false], "User does not exist".
    The code: the promise is resolved on reading the third reply, the one
    to [MAIL FROM], while [RCPT TO] and [QUIT] are being written, so the
    outcome is the classification of that third reply whatever [r] the
    server then answers to [RCPT TO]; when the third reply is a plain
    [250], a mailbox refused with [550] is reported accepted. *)
Theorem C1_reply_to_rcpt_is_not_read
        (email g h m r : string) (rest : list SocketEvent) :
  one_line g = true -> one_line h = true -> one_line m = true ->
  test_prefix re_2xx_3xx g = true ->
  test_prefix re_2xx_3xx h = true ->
  test_prefix re_2xx_3xx m = true ->
  test_prefix re_55x r = true ->
  testSMTPConnection email (reply g :: reply h :: reply m :: reply r :: rest)
  = Some (classify m (substring 0 3 m))
  /\ (test_prefix re_250 m = true ->
      rejection_phrase (Js.toLowerCase m) = false ->
      testSMTPConnection email
        (reply g :: reply h :: reply m :: reply r :: rest)
      = Some (mkOutcome true true "Email accepted" (Some "250"))).
Proof.
  intros Hg Hh Hm Tg Th Tm _.
  pose proof (SmtpFacts.third_reply_decides email g h m Hg Hh Hm Tg Th Tm
                                             (reply r :: rest)) as E.
  split; [exact E|].
  intros H250 Hphrase. rewrite E. unfold classify.
  now rewrite H250, Hphrase, (SmtpFacts.code_of_250 m H250).
Qed.

Lemma C1_reply_to_rcpt_is_not_read_witness :
  testSMTPConnection "bob@example.org"
    [reply "220 mx.example.org ESMTP"; reply "250 mx.example.org";
     reply "250 2.1.0 Ok"; reply "550 5.1.1 No such user"]
  = Some (mkOutcome true true "Email accepted" (Some "250")).
Proof.
  apply (C1_reply_to_rcpt_is_not_read
           "bob@example.org" "220 mx.example.org ESMTP" "250 mx.example.org"
           "250 2.1.0 Ok" "550 5.1.1 No such user" []);
    reflexivity.
Defined.

(** C2.  The design: when the server accepts the greeting, [HELO] and
    [MAIL FROM] and then never answers [RCPT TO], the probe returns
    [connected = false], "Connection timeout".
    The code: on reading the reply to [MAIL FROM] the timer is cleared and
    the promise resolved, so a server that stays silent afterwards gets
    the classification of that reply, with [connected = true]; the timer
    never runs. *)
Theorem C2_silence_after_mail_from_is_no_timeout (email g h m : string) :
  one_line g = true -> one_line h = true -> one_line m = true ->
  test_prefix re_2xx_3xx g = true ->
  test_prefix re_2xx_3xx h = true ->
  test_prefix re_2xx_3xx m = true ->
  exists o,
    testSMTPConnection email [reply g; reply h; reply m] = Some o
    /\ o = classify m (substring 0 3 m)
    /\ connected o = true
    /\ reason o <> "Connection timeout"
    /\ timer (run email [reply g; reply h; reply m]) = false
    /\ written (run email [reply g; reply h; reply m]) = commands email.
Proof.
  intros Hg Hh Hm Tg Th Tm.
  exists (classify m (substring 0 3 m)).
  unfold testSMTPConnection, run.
  rewrite (SmtpFacts.three_replies email g h m Hg Hh Hm Tg Th Tm).
  cbn [deadline timer promise written].
  repeat split.
  - apply SmtpFacts.classify_connected.
  - apply SmtpFacts.classify_reason.
Qed.

Lemma C2_silence_after_mail_from_is_no_timeout_witness :
  testSMTPConnection "bob@example.org"
    [reply "220 mx.example.org ESMTP"; reply "250 mx.example.org";
     reply "250 2.1.0 Ok"]
  = Some (mkOutcome true true "Email accepted" (Some "250")).
Proof.
  destruct (C2_silence_after_mail_from_is_no_timeout
              "bob@example.org" "220 mx.example.org ESMTP"
              "250 mx.example.org" "250 2.1.0 Ok"
              eq_refl eq_refl eq_refl eq_refl eq_refl eq_refl)
    as [o [E [-> _]]].
  exact E.
Defined.

Import Verifier Terms Scenarios.

(** C3.  The design: an address that fails the shape check gets
    [status = 'invalid'], [confidence_score = 0], [risk_level = 'high'],
    and the network is not touched.
    The code: the status and the score are set and nothing is done on the
    network, but this branch returns without assigning [risk_level],
    which keeps its initial value ['unknown']; the two branches that
    follow it (disposable domain, no MX record) do assign ['high']. *)
Theorem C3_malformed_address_keeps_unknown_risk
        (net : Network) (email : string) (options : Options) :
  isValidFormat email = false ->
  verifyEmail net email options
  = (Normal (mkResult email Invalid "Invalid email format" false false false
                      false [] false false 0 RiskUnknown),
     []).
Proof.
  intros H. unfold verifyEmail, try_catch, verifyEmail_try, bind.
  rewrite H. reflexivity.
Qed.

Lemma C3_malformed_address_keeps_unknown_risk_witness :
  exists r,
    verifyEmail no_exchanger "not-an-email" (mkOptions false false)
    = (Normal r, [])
    /\ status r = Invalid /\ confidence_score r = 0%Z
    /\ risk_level r = RiskUnknown /\ risk_level r <> High.
Proof.
  eexists. split.
  - apply (C3_malformed_address_keeps_unknown_risk
             no_exchanger "not-an-email" (mkOptions false false)).
    reflexivity.
  - cbn. repeat split. discriminate.
Defined.

(** C4.  In a verification that reaches the catch-all discriminator and
    gets an outcome for each of its two synthetic probes (three probes
    settled: the real address, then the two random ones), the real address
    was accepted; if both synthetic probes are accepted the result is
    [catch_all], [is_catch_all = true], score 60, risk [medium]; if one of
    them is not accepted the result is [valid], score 90, risk [low]. *)
Theorem C4_catch_all_discriminator
        (net : Network) (email : string) (options : Options)
        (r : VerificationResult) (tr : list NetOp)
        (real first second : ProbeOutcome) :
  verifyEmail net email options = (Normal r, tr) ->
  outcomes tr = [real; first; second] ->
  accepted real = true
  /\ (accepted first = true /\ accepted second = true ->
      status r = CatchAll /\ is_catch_all r = true
      /\ confidence_score r = 60%Z /\ risk_level r = Medium)
  /\ (accepted first = false \/ accepted second = false ->
      status r = Valid /\ is_catch_all r = false
      /\ confidence_score r = 90%Z /\ risk_level r = Low).
Proof.
  revert r tr real first second.
  VerifierFacts.run_verifier;
    intros r tr real first second Hrun Hout;
    injection Hrun as <- <-; try discriminate Hout;
    injection Hout as <- <- <-;
    cbn [status is_catch_all confidence_score risk_level].
  all: match goal with
       | H : (List.length (filter accepted [?a; ?b]) =? 2)%nat = _ |- _ =>
           cbn [filter] in H;
           destruct (accepted a) eqn:?, (accepted b) eqn:?;
           try discriminate H
       end.
  all: split; [assumption|]; split;
    [ intros [? ?]; try discriminate; auto
    | intros [?|?]; try discriminate; auto ].
Qed.

Lemma C4_catch_all_discriminator_witness :
  exists r tr real first second,
    verifyEmail accept_all_consumer "bob@example.org" (mkOptions false false)
    = (Normal r, tr)
    /\ outcomes tr = [real; first; second]
    /\ status r = CatchAll /\ is_catch_all r = true
    /\ confidence_score r = 60%Z /\ risk_level r = Medium.
Proof.
  let v := eval vm_compute in
             (verifyEmail accept_all_consumer "bob@example.org"
                          (mkOptions false false)) in
  match v with
  | (Normal ?r, ?tr) =>
      let os := eval vm_compute in (outcomes tr) in
      match os with
      | [?a; ?b; ?c] =>
          exists r, tr, a, b, c;
          assert (Hrun : verifyEmail accept_all_consumer "bob@example.org"
                                     (mkOptions false false) = (Normal r, tr))
            by (vm_compute; reflexivity);
          assert (Hout : outcomes tr = [a; b; c]) by reflexivity;
          split; [exact Hrun|]; split; [exact Hout|];
          apply (proj1 (proj2 (C4_catch_all_discriminator
                                 _ _ _ _ _ _ _ _ Hrun Hout)));
          split; reflexivity
      end
  end.
Defined.

(** C5.  On the path that skips the catch-all test (one probe settled,
    connected and accepted, and the flag set or the provider one of
    [google_workspace], [microsoft365], [corporate]) the SMTP and DNS
    stages were reached, and the score is the score of the design: the
    sum 40 + 20, the reputation of the provider, -10 for a role account,
    -10 for a local part shorter than 3, -15 for 20 or more lowercase
    letters and digits, +10 for a name pattern, -5 for a free provider,
    clamped to [0, 100]; the status and the risk are those of the design's
    table, and the status is never [invalid]. *)
Theorem C5_heuristic_score
        (net : Network) (email : string) (options : Options)
        (r : VerificationResult) (tr : list NetOp) (real : ProbeOutcome) :
  verifyEmail net email options = (Normal r, tr) ->
  outcomes tr = [real] ->
  connected real = true -> accepted real = true ->
  skipCatchAll options
  || is_major (detectMailProvider (mx_records r))
  || is_corporate (detectMailProvider (mx_records r)) = true ->
  exists localPart domain,
    email = localPart ++ String "@" domain
    /\ no_at localPart = true /\ no_at domain = true
    /\ smtp_check r = true /\ dns_check r = true
    /\ is_role_account r = isRoleAccount localPart
    /\ is_free_email r = isFreeEmailProvider (Js.toLowerCase domain)
    /\ confidence_score r
       = Design.score true true (detectMailProvider (mx_records r))
                      (is_role_account r) localPart (is_free_email r)
    /\ (status r, risk_level r) = Design.verdict (confidence_score r)
    /\ status r <> Invalid.
Proof.
  revert r tr real.
  VerifierFacts.run_verifier;
    intros r tr real Hrun Hout;
    injection Hrun as <- <-; try discriminate Hout;
    injection Hout as <-;
    cbv beta iota delta
        [status is_role_account is_free_email smtp_check dns_check
         confidence_score risk_level mx_records];
    intros Hc Ha Hskip; cbn [sort] in *; try congruence.
  all: exists localPart, domain.
  all: rewrite VerifierFacts.calculateHeuristicConfidence_design in *.
  all: cbv beta iota delta
        [status is_role_account is_free_email smtp_check dns_check
         confidence_score risk_level mx_records] in *.
  all: rewrite Hsplit in *; cbn [nth] in *.
  all: repeat match goal with
         | |- _ /\ _ => split
         end; try reflexivity; try assumption; try discriminate.
  all: unfold Design.verdict.
  all: repeat match goal with
         | H : (_ >=? _)%Z = _ |- _ => rewrite Z.geb_leb in H; rewrite H; clear H
         end; reflexivity.
Qed.

Lemma C5_heuristic_score_witness :
  exists r tr,
    verifyEmail corporate_exchanger "hr@example.org" (mkOptions false false)
    = (Normal r, tr)
    /\ confidence_score r = 65%Z
    /\ status r = Valid /\ risk_level r = Medium.
Proof.
  let v := eval vm_compute in
             (verifyEmail corporate_exchanger "hr@example.org"
                          (mkOptions false false)) in
  match v with
  | (Normal ?r, ?tr) =>
      let os := eval vm_compute in (outcomes tr) in
      match os with
      | [?a] =>
          exists r, tr;
          assert (Hrun : verifyEmail corporate_exchanger "hr@example.org"
                                     (mkOptions false false) = (Normal r, tr))
            by (vm_compute; reflexivity);
          assert (Hout : outcomes tr = [a]) by reflexivity;
          split; [exact Hrun|];
          destruct (C5_heuristic_score _ _ _ _ _ _ Hrun Hout
                      eq_refl eq_refl eq_refl)
            as (l & d & _ & _ & _ & _ & _ & _ & _ & _ & _ & _);
          repeat split
      end
  end.
Defined.

(** C6.  When the MX records of the domain of the address fingerprint as
    [google_workspace], [verifyEmail] with [skipCatchAll = false] returns
    what it returns with [skipCatchAll = true] and does the same on the
    network, where it draws no random address and opens at most the
    connection of the real probe. *)
Theorem C6_google_workspace_overrides_the_flag
        (net : Network) (email : string) (dbg : bool) :
  (forall localPart domain rest recs,
      Js.split "@" email = localPart :: domain :: rest ->
      dns net (Js.toLowerCase domain) = Some recs ->
      detectMailProvider (map exchange (sort by_priority recs))
      = google_workspace) ->
  verifyEmail net email (mkOptions dbg false)
  = verifyEmail net email (mkOptions dbg true)
  /\ draws (snd (verifyEmail net email (mkOptions dbg false))) = 0
  /\ connections (snd (verifyEmail net email (mkOptions dbg false))) <= 1.
Proof.
  intros Hgoogle.
  VerifierFacts.run_verifier; cbn [skipCatchAll orb];
    try (split; [reflexivity | split; [reflexivity | lia]]).
  all: try rewrite (Hgoogle _ _ _ _ Hsplit Hdns) in *.
  all: cbn [is_major orb] in *; try discriminate.
  all: VerifierFacts.run_verifier;
    try (split; [reflexivity | split; [reflexivity | cbv; lia]]).
Qed.

Lemma C6_google_workspace_overrides_the_flag_witness :
  verifyEmail google_hosted "ada.lovelace@example.org" (mkOptions false false)
  = verifyEmail google_hosted "ada.lovelace@example.org" (mkOptions false true)
  /\ draws (snd (verifyEmail google_hosted "ada.lovelace@example.org"
                             (mkOptions false false))) = 0.
Proof.
  destruct (C6_google_workspace_overrides_the_flag
              google_hosted "ada.lovelace@example.org" false) as (H1 & H2 & _).
  - intros localPart domain rest recs _ Hdns.
    injection Hdns as <-. vm_compute. reflexivity.
  - split; [exact H1 | exact H2].
Defined.

(** C7.  Whatever the address and whatever the network does,
    [verifyEmail] returns a result whose [confidence_score] lies in
    [0, 100] and whose [is_catch_all] is true exactly when its status is
    [catch_all]. *)
Theorem C7_score_range_and_catch_all_flag
        (net : Network) (email : string) (options : Options) :
  exists r,
    fst (verifyEmail net email options) = Normal r
    /\ (0 <= confidence_score r <= 100)%Z
    /\ (is_catch_all r = true <-> status r = CatchAll).
Proof.
  VerifierFacts.run_verifier.
  all: eexists; (split; [reflexivity|]);
    cbv beta iota delta [confidence_score is_catch_all status].
  all: first
         [ split; [lia | split; discriminate]
         | split; [apply VerifierFacts.calculateHeuristicConfidence_bounds
                  | split; discriminate]
         | split; [lia | split; reflexivity] ].
Qed.

(** C8.  In a verification that resolves the MX records of a domain: if
    the resolution fails or gives no record, the verification ends there
    with [invalid], "No MX records found", [dns_check = false], score 0,
    risk [high]; if it gives records, [dns_check] is true and
    [mx_records] lists their hosts in the order of ascending priority. *)
Theorem C8_mx_resolution
        (net : Network) (email : string) (options : Options)
        (r : VerificationResult) (tr : list NetOp) (d : string) :
  verifyEmail net email options = (Normal r, tr) ->
  In (resolveMx_call d) tr ->
  (dns net d = None \/ dns net d = Some [] ->
   status r = Invalid /\ reason r = "No MX records found"
   /\ dns_check r = false /\ confidence_score r = 0%Z
   /\ risk_level r = High /\ tr = [resolveMx_call d])
  /\ (forall recs,
         dns net d = Some recs -> recs <> [] ->
         dns_check r = true
         /\ mx_records r = map exchange (sort by_priority recs)
         /\ Sorted by_priority_le (sort by_priority recs)
         /\ Permutation recs (sort by_priority recs)).
Proof.
  revert r tr.
  VerifierFacts.run_verifier;
    intros r tr Hrun Hin;
    injection Hrun as <- <-;
    cbn [In] in Hin;
    repeat match goal with
           | H : _ \/ _ |- _ => destruct H as [H|H]
           | H : False |- _ => destruct H
           | H : _ = resolveMx_call _ |- _ =>
               first [ discriminate H | injection H as <- ]
           end;
    cbv beta iota delta
        [status reason dns_check confidence_score risk_level mx_records].
  all: split;
    [ intros [Hd|Hd]; try congruence; repeat split
    | intros recs Hd Hne; try congruence ].
  all: try (rewrite Hdns in Hd; injection Hd as <-).
  all: repeat split;
    first [ apply SortFacts.sort_sorted | apply SortFacts.sort_perm ].
Qed.

Lemma C8_mx_resolution_witness :
  exists r,
    verifyEmail no_exchanger "bob@Example.ORG" (mkOptions false false)
    = (Normal r, [resolveMx_call "example.org"])
    /\ status r = Invalid /\ reason r = "No MX records found"
    /\ dns_check r = false /\ confidence_score r = 0%Z
    /\ risk_level r = High.
Proof.
  let v := eval vm_compute in
             (verifyEmail no_exchanger "bob@Example.ORG"
                          (mkOptions false false)) in
  match v with
  | (Normal ?r, ?tr) =>
      exists r;
      assert (Hrun : verifyEmail no_exchanger "bob@Example.ORG"
                                 (mkOptions false false) = (Normal r, tr))
        by (vm_compute; reflexivity);
      split; [exact Hrun|];
      destruct (proj1 (C8_mx_resolution _ _ _ _ _ "example.org" Hrun
                         (or_introl eq_refl)) (or_introl eq_refl))
        as (H1 & H2 & H3 & H4 & H5 & _);
      repeat split; assumption
  end.
Defined.

(** C9.  [verifyEmail] does raise past its boundary: the two lines that
    read [options.debug] and [options.skipCatchAll] stand before the
    [try], so a call with [null] for the options throws a [TypeError]
    that no [catch] folds, before any result exists and before anything
    is done on the network.  For every other argument of the model (the
    options left out, a primitive, an object) the call returns a result
    and never throws, and when the body of the [try] throws, the result
    has the status [unknown], the score 50, the risk [medium], and the
    message of the error in its reason. *)
Theorem C9_null_options_are_read_outside_the_try
        (net : Network) (email : string) :
  Boundary.verifyEmail_call net email Boundary.Null
  = (Throw (mkError "Cannot read properties of null (reading 'debug')"), [])
  /\ (forall r, fst (Boundary.verifyEmail_call net email Boundary.Null)
                <> Normal r)
  /\ (forall argument,
         argument <> Boundary.Null ->
         exists options,
           Boundary.read_options argument = inr options
           /\ Boundary.verifyEmail_call net email argument
              = verifyEmail net email options
           /\ (exists r,
                  fst (Boundary.verifyEmail_call net email argument)
                  = Normal r)
           /\ (forall error st,
                  verifyEmail_try net email options
                                  (mkVState (initial_result email) [])
                  = (Throw error, st) ->
                  exists r,
                    fst (Boundary.verifyEmail_call net email argument)
                    = Normal r
                    /\ status r = Unknown /\ confidence_score r = 50%Z
                    /\ risk_level r = Medium
                    /\ reason r = "Verification error: " ++ message error)).
Proof.
  split; [reflexivity|]. split; [intros r H; discriminate H|].
  intros argument Hnot.
  assert (Hread : exists options,
             Boundary.read_options argument = inr options).
  { destruct argument as [| | |o]; cbn; eauto. now destruct Hnot. }
  destruct Hread as [options Hread]. exists options.
  assert (Hcall : Boundary.verifyEmail_call net email argument
                  = verifyEmail net email options)
    by (unfold Boundary.verifyEmail_call; now rewrite Hread).
  split; [exact Hread|]. split; [exact Hcall|]. rewrite Hcall. split.
  - VerifierFacts.run_verifier; eexists; reflexivity.
  - intros error st H. unfold verifyEmail, try_catch, bind at 1.
    rewrite H. eexists. split; [reflexivity|]. repeat split.
Qed.

Lemma C9_null_options_are_read_outside_the_try_witness :
  (forall r,
      fst (Boundary.verifyEmail_call throwing_connection "bob@example.org"
                                     Boundary.Null)
      <> Normal r)
  /\ exists r,
       fst (Boundary.verifyEmail_call throwing_connection "bob@example.org"
                                      Boundary.Undefined) = Normal r
       /\ status r = Unknown /\ confidence_score r = 50%Z
       /\ risk_level r = Medium
       /\ reason r = "Verification error: connect EINVAL".
Proof.
  destruct (C9_null_options_are_read_outside_the_try
              throwing_connection "bob@example.org")
    as (_ & Hnull & Hother).
  split; [exact Hnull|].
  destruct (Hother Boundary.Undefined) as (options & Hread & _ & _ & Hfold);
    [discriminate|].
  injection Hread as <-.
  let v := eval vm_compute in
             (verifyEmail_try throwing_connection "bob@example.org"
                (mkOptions false false)
                (mkVState (initial_result "bob@example.org") [])) in
  match v with
  | (Throw ?e, ?st) =>
      apply (Hfold e st); vm_compute; reflexivity
  end.
Defined.

(** C10.  In a verification that reaches the catch-all discriminator and
    gets an outcome for each of its two synthetic probes, a synthetic
    probe that did not connect (a transport failure, a timeout) counts as
    a rejection: the result is [valid], score 90, risk [low]. *)
Theorem C10_unconnected_synthetic_probe_counts_as_rejected
        (net : Network) (email : string) (options : Options)
        (r : VerificationResult) (tr : list NetOp)
        (real first second : ProbeOutcome) :
  verifyEmail net email options = (Normal r, tr) ->
  outcomes tr = [real; first; second] ->
  connected first = false \/ connected second = false ->
  accepted real = true
  /\ status r = Valid /\ is_catch_all r = false
  /\ confidence_score r = 90%Z /\ risk_level r = Low.
Proof.
  revert r tr real first second.
  VerifierFacts.run_verifier;
    intros r tr real first second Hrun Hout;
    injection Hrun as <- <-; try discriminate Hout;
    injection Hout as <- <- <-;
    cbv beta iota delta [status is_catch_all confidence_score risk_level];
    intros Hunconnected.
  all: match goal with
       | H : (List.length (filter accepted [?a; ?b]) =? 2)%nat = _ |- _ =>
           cbn [filter] in H;
           destruct (accepted a) eqn:?, (accepted b) eqn:?;
           try discriminate H
       end.
  all: try (repeat split; assumption).
  all: exfalso; destruct Hunconnected as [Hu|Hu];
    match type of Hu with
    | connected ?o = false =>
        match goal with
        | Hs : _ -> connected o = true |- _ =>
            rewrite Hs in Hu by assumption; discriminate Hu
        end
    end.
Qed.

Lemma C10_unconnected_synthetic_probe_counts_as_rejected_witness :
  exists r tr real first second,
    verifyEmail refuses_second_connection "bob@example.org"
                (mkOptions false false)
    = (Normal r, tr)
    /\ outcomes tr = [real; first; second]
    /\ connected first = false
    /\ status r = Valid /\ confidence_score r = 90%Z /\ risk_level r = Low.
Proof.
  let v := eval vm_compute in
             (verifyEmail refuses_second_connection "bob@example.org"
                          (mkOptions false false)) in
  match v with
  | (Normal ?r, ?tr) =>
      let os := eval vm_compute in (outcomes tr) in
      match os with
      | [?a; ?b; ?c] =>
          exists r, tr, a, b, c;
          assert (Hrun : verifyEmail refuses_second_connection
                           "bob@example.org" (mkOptions false false)
                         = (Normal r, tr))
            by (vm_compute; reflexivity);
          assert (Hout : outcomes tr = [a; b; c]) by reflexivity;
          split; [exact Hrun|]; split; [exact Hout|];
          split; [reflexivity|];
          destruct (C10_unconnected_synthetic_probe_counts_as_rejected
                      _ _ _ _ _ _ _ _ Hrun Hout (or_introl eq_refl))
            as (_ & H1 & _ & H2 & H3);
          repeat split; assumption
      end
  end.
Defined.

(** ** The two defects at the level of [verifyEmail] *)

(** A mailbox that the exchanger refuses with [550 5.1.1 No such user] is
    returned as [valid], because the probe never reads that reply. *)
Example refused_mailbox_is_returned_valid :
  exists r tr,
    verifyEmail refusing_exchanger "bob@example.org" (mkOptions false false)
    = (Normal r, tr)
    /\ status r = Valid
    /\ reason r = "Email accepted by mail server"
    /\ confidence_score r = 85%Z /\ risk_level r = Low
    /\ outcomes tr = [mkOutcome true true "Email accepted" (Some "250")].
Proof. do 2 eexists. split; [vm_compute; reflexivity | repeat split]. Qed.

(** With an exchanger that takes the sender, a domain that is not
    catch-all is returned as [catch_all]: each synthetic probe is settled
    on the reply to [MAIL FROM], before the refusal of the recipient. *)
Example refusing_consumer_domain_is_returned_catch_all :
  let net :=
    mkNetwork
      (fun _ => Some [mkMx "mta5.am0.yahoodns.net" 1])
      (fun _ _ _ => inr [reply "220 mta ESMTP ready"; reply "250 mta";
                         reply "250 sender ok";
                         reply "550 5.1.1 No such user"])
      (fun n => inr (fun i => N.of_nat (17 * n + i))) in
  exists r tr,
    verifyEmail net "bob@example.org" (mkOptions false false) = (Normal r, tr)
    /\ status r = CatchAll /\ is_catch_all r = true.
Proof.
  intros net. do 2 eexists. split; [vm_compute; reflexivity | repeat split].
Qed.

(* ================================================================== *)
(** * Further properties of the code *)

(** ** The probe: refusals, errors, silence *)

Module ProbeMore.
Import Regex RegexFacts RegexShapes Design Smtp Dialogue SmtpFacts.

(** A test [/^[xy]\d{2}/] reads three characters. *)
Lemma test_class_chars (x y : ascii) (l : string) :
  test_prefix (Cat (Alt (Chr x) (Chr y)) (Rep 2 (Cls digit))) l
  = match l with
    | String a (String b (String c _)) =>
        (Ascii.eqb x a || Ascii.eqb y a) && digit b && digit c
    | _ => false
    end.
Proof.
  apply Bool.eq_iff_eq_true. rewrite test_prefix_iff. split.
  - intros [w [rest [-> H]]].
    apply lang_cat_inv in H as [a [bc [-> [Ha Hbc]]]].
    apply (lang_rep_cls digit 2) in Hbc as [Hlen Hd].
    destruct bc as [|b [|c [|? ?]]]; try discriminate Hlen.
    cbn in Hd. apply andb_true_iff in Hd as [Hb Hc].
    apply andb_true_iff in Hc as [Hc _].
    apply lang_alt_inv in Ha as [Ha|Ha]; apply lang_chr_inv in Ha; subst a;
      cbn; rewrite Hb, Hc, Ascii.eqb_refl; cbn;
      [reflexivity | now rewrite orb_true_r].
  - destruct l as [|a [|b [|c rest]]]; try discriminate.
    intros H. apply andb_true_iff in H as [H Hc].
    apply andb_true_iff in H as [Ha Hb].
    exists (String a (String b (String c ""))), rest. split; [reflexivity|].
    change (String a (String b (String c "")))
      with (String a "" ++ String b (String c "")).
    constructor.
    + apply orb_true_iff in Ha as [Ha|Ha]; apply Ascii.eqb_eq in Ha; subst a;
        [apply lang_alt_l | apply lang_alt_r]; apply lang_chr.
    + apply (lang_rep_cls digit 2). cbn. now rewrite Hb, Hc.
Qed.

Lemma refusal_is_no_acceptance (l : string) :
  test_prefix re_4xx_5xx l = true -> test_prefix re_2xx_3xx l = false.
Proof.
  unfold re_4xx_5xx, re_2xx_3xx. rewrite !test_class_chars.
  destruct l as [|a [|b [|c rest]]]; try discriminate.
  intros H. apply andb_true_iff in H as [H _].
  apply andb_true_iff in H as [H _].
  apply orb_true_iff in H as [H|H]; apply Ascii.eqb_eq in H; subst a;
    reflexivity.
Qed.

Lemma acceptance_is_no_refusal (l : string) :
  test_prefix re_2xx_3xx l = true -> test_prefix re_4xx_5xx l = false.
Proof.
  intros H. destruct (test_prefix re_4xx_5xx l) eqn:E; [|reflexivity].
  apply refusal_is_no_acceptance in E. congruence.
Qed.


Lemma re_55x_is_refusal (l : string) :
  test_prefix re_55x l = true -> test_prefix re_4xx_5xx l = true.
Proof.
  intros H. apply test_prefix_iff in H as [w [rest [-> Hw]]].
  unfold re_55x in Hw.
  apply lang_alt_inv in Hw as [Hw|Hw];
    [| apply lang_alt_inv in Hw as [Hw|Hw];
       [| apply lang_alt_inv in Hw as [Hw|Hw]]];
    apply lang_lit in Hw; subst w;
    unfold re_4xx_5xx; rewrite test_class_chars; reflexivity.
Qed.

Lemma re_45x_is_refusal (l : string) :
  test_prefix re_45x l = true -> test_prefix re_4xx_5xx l = true.
Proof.
  intros H. apply test_prefix_iff in H as [w [rest [-> Hw]]].
  unfold re_45x in Hw.
  apply lang_alt_inv in Hw as [Hw|Hw];
    [| apply lang_alt_inv in Hw as [Hw|Hw]];
    apply lang_lit in Hw; subst w;
    unfold re_4xx_5xx; rewrite test_class_chars; reflexivity.
Qed.

(** What [classify] can return on the only lines it is given, those that
    passed [/^[23]\d{2}/]. *)
Lemma classify_on_acceptance (l : string) :
  test_prefix re_2xx_3xx l = true ->
  classify l (substring 0 3 l)
  = mkOutcome true true "Email accepted" (Some "250")
  \/ classify l (substring 0 3 l)
     = mkOutcome true false "User does not exist" (Some "250")
  \/ classify l (substring 0 3 l)
     = mkOutcome true false "Unknown response" (Some (substring 0 3 l)).
Proof.
  intros H. pose proof (acceptance_is_no_refusal l H) as Hno.
  unfold classify.
  destruct (test_prefix re_250 l) eqn:H250.
  - rewrite (code_of_250 l H250).
    destruct (rejection_phrase (Js.toLowerCase l)); auto.
  - destruct (test_prefix re_55x l) eqn:H55.
    { apply re_55x_is_refusal in H55. congruence. }
    destruct (test_prefix re_45x l) eqn:H45.
    { apply re_45x_is_refusal in H45. congruence. }
    rewrite Hno. auto.
Qed.



(** A destroyed socket has a settled promise. *)
Lemma destroyed_is_settled (email : string) (evs : list SocketEvent) :
  promise (fold_left (deliver email) evs opened) = None ->
  destroyed (fold_left (deliver email) evs opened) = false.
Proof.
  assert (H : forall st,
             (promise st = None -> destroyed st = false) ->
             promise (fold_left (deliver email) evs st) = None ->
             destroyed (fold_left (deliver email) evs st) = false).
  { induction evs as [|ev evs IH]; intros st Hst; cbn [fold_left].
    - exact Hst.
    - apply IH. unfold deliver.
      destruct (destroyed st) eqn:Hd;
        [intros Hp; specialize (Hst Hp); discriminate Hst|].
      destruct ev as [chunk|msg|].
      + unfold on_data.
        repeat match goal with
               | |- context [match ?x with _ => _ end] => destruct x
               end;
          destruct st as [resp k c tm wr en de pr]; cbn in Hd |- *;
          try (intros _; exact Hd);
          unfold resolve; cbn; destruct pr; cbn;
          first [ intros _; exact Hd | discriminate ].
      + destruct st as [resp k c tm wr en de pr]. unfold on_error, resolve.
        cbn in Hd |- *. destruct pr; cbn; [intros _; exact Hd | discriminate].
      + destruct st as [resp k c tm wr en de pr]. unfold on_timeout, resolve.
        cbn. destruct pr; cbn; discriminate. }
  apply H. reflexivity.
Qed.

(** Text without carriage return holds no line end. *)
Lemma split_no_line (s acc : string) :
  one_line s = true -> Js.split_from Js.CRLF s acc 0 = [acc ++ s].
Proof.
  revert acc. induction s as [|c s IH]; intros acc H.
  - now rewrite append_nil_r.
  - unfold one_line in H. cbn in H. apply andb_true_iff in H as [Hc Hs].
    cbn [Js.split_from].
    assert (Hp : prefix Js.CRLF (String c s) = false).
    { unfold Js.CRLF. cbn [prefix].
      destruct (ascii_dec (ascii_of_N 13) c) as [E|E]; [|reflexivity].
      subst c. unfold CR in Hc. rewrite Ascii.eqb_refl in Hc. discriminate. }
    rewrite Hp, IH by exact Hs. now rewrite append_assoc.
Qed.

Lemma last_line_no_line (s : string) : one_line s = true -> last_line s = "".
Proof.
  intros H. unfold last_line, Js.split. now rewrite split_no_line.
Qed.

Lemma one_line_app (a b : string) :
  one_line (a ++ b) = one_line a && one_line b.
Proof. apply all_chars_app. Qed.

(** The outcomes that come with a connection. *)
Lemma connected_shape
        (email : string) (evs : list SocketEvent) (o : ProbeOutcome) :
  testSMTPConnection email evs = Some o ->
  connected o = true ->
  o = mkOutcome true true "Email accepted" (Some "250")
  \/ o = mkOutcome true false "User does not exist" (Some "250")
  \/ exists c, o = mkOutcome true false "Unknown response" (Some c).
Proof.
  set (P := fun o : ProbeOutcome =>
              connected o = true ->
              o = mkOutcome true true "Email accepted" (Some "250")
              \/ o = mkOutcome true false "User does not exist" (Some "250")
              \/ exists c, o = mkOutcome true false "Unknown response" (Some c)).
  assert (Hresolve : forall o' st,
             P o' -> (forall o, promise st = Some o -> P o) ->
             forall o, promise (resolve o' st) = Some o -> P o).
  { intros o' st Ho' Hst o0. unfold resolve.
    destruct (promise st) as [p|] eqn:E.
    - rewrite E. now apply Hst.
    - cbn. intros [= <-]. exact Ho'. }
  assert (Hstep : forall st ev,
             (forall o, promise st = Some o -> P o) ->
             forall o, promise (deliver email st ev) = Some o -> P o).
  { intros st ev H. unfold deliver. destruct (destroyed st); [exact H|].
    destruct ev as [chunk|msg|].
    - unfold on_data.
      set (lastLine := last_line _).
      destruct (test_prefix re_2xx_3xx lastLine) eqn:T.
      + rewrite (code_of_2xx_3xx lastLine T).
        destruct st as [resp k c0 tm wr en de pr]. cbn in H |- *.
        destruct k as [|[|[|k]]]; cbn; try exact H.
        apply Hresolve; [|exact H].
        intros _. destruct (classify_on_acceptance lastLine T)
          as [E|[E|E]]; rewrite E; eauto.
      + destruct (test_prefix re_4xx_5xx lastLine).
        * apply Hresolve; [discriminate|].
          destruct (match_code lastLine); exact H.
        * destruct (match_code lastLine); exact H.
    - apply Hresolve; [discriminate | exact H].
    - apply Hresolve; [discriminate | exact H]. }
  assert (Hfold : forall st,
             (forall o, promise st = Some o -> P o) ->
             forall o, promise (fold_left (deliver email) evs st) = Some o ->
                       P o).
  { induction evs as [|ev evs IH]; intros st H; cbn [fold_left].
    - exact H.
    - apply IH. now apply Hstep. }
  unfold testSMTPConnection, run, deadline.
  set (st := fold_left (deliver email) evs opened).
  assert (Hst : forall o, promise st = Some o -> P o)
    by (apply Hfold; discriminate).
  destruct (timer st); [|apply Hst].
  apply Hresolve; [discriminate | exact Hst].
Qed.

End ProbeMore.

Import Regex Smtp Dialogue.



(** X2.  While the promise is pending, an [error] of the socket settles
    the probe with [connected = false] and the message of the error as the
    reason, and a [timeout] of the socket settles it with "Socket
    timeout"; neither outcome carries a code. *)
Theorem socket_failure_settles_unconnected
        (email : string) (evs : list SocketEvent) (message : string)
        (rest : list SocketEvent) :
  promise (fold_left (deliver email) evs opened) = None ->
  testSMTPConnection email (evs ++ Error message :: rest)
  = Some (mkOutcome false false message None)
  /\ testSMTPConnection email (evs ++ Timeout :: rest)
     = Some (mkOutcome false false "Socket timeout" None).
Proof.
  intros Hp. pose proof (ProbeMore.destroyed_is_settled email evs Hp) as Hd.
  unfold testSMTPConnection, run.
  split; apply SmtpFacts.deadline_settled; rewrite fold_left_app;
    cbn [fold_left]; apply SmtpFacts.fold_deliver_settled;
    set (st := fold_left (deliver email) evs opened) in *;
    unfold deliver; rewrite Hd;
    [unfold on_error | unfold on_timeout]; unfold resolve; cbn;
    now rewrite Hp.
Qed.

Lemma socket_failure_settles_unconnected_witness :
  testSMTPConnection "bob@example.org"
    [reply "220 mx.example.org ESMTP"; Error "read ECONNRESET"]
  = Some (mkOutcome false false "read ECONNRESET" None).
Proof.
  apply (socket_failure_settles_unconnected
           "bob@example.org" [reply "220 mx.example.org ESMTP"]
           "read ECONNRESET" []).
  reflexivity.
Defined.

(** X3.  A server that never sends a whole line: when no chunk holds a
    carriage return, nothing is written to the socket, not even [HELO],
    and the probe ends with "Connection timeout". *)
Theorem no_whole_line_is_a_timeout (email : string) (chunks : list string) :
  forallb one_line chunks = true ->
  testSMTPConnection email (map Data chunks)
  = Some (mkOutcome false false "Connection timeout" None)
  /\ written (run email (map Data chunks)) = [].
Proof.
  intros H.
  assert (E : forall resp,
             one_line resp = true ->
             exists resp',
               fold_left (deliver email) (map Data chunks)
                         (mkProbe resp 0 "" true [] false false None)
               = mkProbe resp' 0 "" true [] false false None).
  { induction chunks as [|chunk chunks IH]; intros resp Hresp.
    - now exists resp.
    - cbn in H. apply andb_true_iff in H as [Hc Hcs].
      cbn [map fold_left]. unfold deliver at 2. cbn [destroyed].
      unfold on_data. cbn [response set_response].
      assert (Hone : one_line (resp ++ chunk) = true)
        by (rewrite ProbeMore.one_line_app; now rewrite Hresp, Hc).
      rewrite (ProbeMore.last_line_no_line _ Hone). cbn.
      apply (IH Hcs). exact Hone. }
  destruct (E "" eq_refl) as [resp' E'].
  unfold testSMTPConnection, run. fold opened in E'. rewrite E'.
  split; reflexivity.
Qed.

Lemma no_whole_line_is_a_timeout_witness :
  testSMTPConnection "bob@example.org" [Data "220 mx.exam"; Data "ple.org"]
  = Some (mkOutcome false false "Connection timeout" None).
Proof.
  apply (no_whole_line_is_a_timeout
           "bob@example.org" ["220 mx.exam"; "ple.org"]).
  reflexivity.
Defined.



(** X5.  An outcome with [connected = true] is one of three: the
    acceptance, with code 250; "User does not exist", with code 250 (a
    line 250 that holds a rejection phrase); or "Unknown response".  The
    reasons "Temporary error - greylisting" and "Email rejected" never
    come with [connected = true]: their branches sit behind the test
    [/^[23]\d{2}/] of the line. *)
Theorem connected_outcomes_are_three
        (email : string) (evs : list SocketEvent) (o : ProbeOutcome) :
  testSMTPConnection email evs = Some o ->
  (accepted o = true ->
   o = mkOutcome true true "Email accepted" (Some "250"))
  /\ (connected o = true -> accepted o = false ->
      o = mkOutcome true false "User does not exist" (Some "250")
      \/ exists c, o = mkOutcome true false "Unknown response" (Some c))
  /\ (connected o = true ->
      reason o <> "Temporary error - greylisting"
      /\ reason o <> "Email rejected").
Proof.
  intros Hrun.
  pose proof (ProbeMore.connected_shape email evs o Hrun) as Hshape.
  destruct (SmtpFacts.probe_resolves email evs) as [o' [E Hsound]].
  rewrite Hrun in E. injection E as <-.
  split; [|split].
  - intros Ha. destruct (Hshape (Hsound Ha)) as [->|[->|[c ->]]];
      [reflexivity | discriminate Ha | discriminate Ha].
  - intros Hc Ha. destruct (Hshape Hc) as [->|[->|[c ->]]];
      [discriminate Ha | now left | right; now exists c].
  - intros Hc. destruct (Hshape Hc) as [->|[->|[c ->]]];
      split; discriminate.
Qed.

Lemma connected_outcomes_are_three_witness :
  reason (mkOutcome true false "User does not exist" (Some "250"))
  <> "Email rejected".
Proof.
  apply (connected_outcomes_are_three
           "bob@example.org"
           [reply "220 mx.example.org ESMTP"; reply "250 mx.example.org";
            reply "250 sender <verify@example.com> OK, but user unknown"]
           (mkOutcome true false "User does not exist" (Some "250"))
           eq_refl).
  reflexivity.
Defined.

(** X6.  However the replies of the server are cut into chunks, [RCPT TO]
    is found among what was written to the socket only once the promise
    is settled: no reply to it is read before the outcome is fixed. *)
Theorem rcpt_is_written_when_the_probe_is_settled
        (email : string) (evs : list SocketEvent) :
  In (nth 2 (commands email) "")
     (written (fold_left (deliver email) evs opened)) ->
  exists o,
    promise (fold_left (deliver email) evs opened) = Some o
    /\ forall rest, testSMTPConnection email (evs ++ rest) = Some o.
Proof.
  intros Hin.
  destruct (SmtpFacts.settled_when_rcpt_is_written email evs Hin) as [o Ho].
  exists o. split; [exact Ho|].
  intros rest. unfold testSMTPConnection, run.
  apply SmtpFacts.deadline_settled. rewrite fold_left_app.
  now apply SmtpFacts.fold_deliver_settled.
Qed.

Lemma rcpt_is_written_when_the_probe_is_settled_witness :
  exists o,
    promise (fold_left (deliver "bob@example.org")
                       [Data ("220-mx.example.org" ++ Js.CRLF);
                        Data ("220 ESMTP ready" ++ Js.CRLF);
                        reply "250 mx.example.org"]
                       opened) = Some o.
Proof.
  destruct (rcpt_is_written_when_the_probe_is_settled
              "bob@example.org"
              [Data ("220-mx.example.org" ++ Js.CRLF);
               Data ("220 ESMTP ready" ++ Js.CRLF);
               reply "250 mx.example.org"]) as [o [Ho _]].
  - vm_compute. do 2 right. left. reflexivity.
  - exists o. exact Ho.
Defined.

(** ** Strings: lower case, search, hexadecimal *)

Module StringFacts.
Import Regex Design Notions.

Lemma toLowerCase_app (a b : string) :
  Js.toLowerCase (a ++ b) = Js.toLowerCase a ++ Js.toLowerCase b.
Proof. induction a as [|c a IH]; cbn; [reflexivity | now rewrite IH]. Qed.

Lemma toLowerCase_length (s : string) :
  String.length (Js.toLowerCase s) = String.length s.
Proof. induction s as [|c s IH]; cbn; [reflexivity | now rewrite IH]. Qed.

Lemma lower_char_idempotent (c : ascii) :
  Js.lower_char (Js.lower_char c) = Js.lower_char c.
Proof. destruct c as [[] [] [] [] [] [] [] []]; reflexivity. Qed.

Lemma toLowerCase_idempotent (s : string) :
  Js.toLowerCase (Js.toLowerCase s) = Js.toLowerCase s.
Proof.
  induction s as [|c s IH]; cbn; [reflexivity|].
  now rewrite lower_char_idempotent, IH.
Qed.

Lemma lower_char_not_space_at (c : ascii) :
  not_space_at (Js.lower_char c) = not_space_at c.
Proof. destruct c as [[] [] [] [] [] [] [] []]; reflexivity. Qed.

Lemma lower_char_dot (c : ascii) :
  Ascii.eqb (Js.lower_char c) "." = Ascii.eqb c ".".
Proof. destruct c as [[] [] [] [] [] [] [] []]; reflexivity. Qed.

Lemma toLowerCase_not_space_at (s : string) :
  all_chars not_space_at (Js.toLowerCase s) = all_chars not_space_at s.
Proof.
  induction s as [|c s IH]; cbn; [reflexivity|].
  now rewrite lower_char_not_space_at, IH.
Qed.

Lemma prefix_nil (s : string) : prefix "" s = true.
Proof. now destruct s. Qed.

Lemma prefix_app (n s b : string) :
  prefix n s = true -> prefix n (s ++ b) = true.
Proof.
  revert n. induction s as [|c s IH]; intros n H.
  - destruct n; [apply prefix_nil | discriminate H].
  - destruct n as [|x n]; [reflexivity|].
    cbn in H |- *. destruct (ascii_dec x c); [now apply IH | discriminate H].
Qed.

(** A needle found in [s] is found in [a ++ s ++ b]. *)
Lemma includes_app_r (n a s : string) :
  Js.includes n s = true -> Js.includes n (a ++ s) = true.
Proof.
  intros H. induction a as [|c a IH]; [exact H|].
  change (String c a ++ s) with (String c (a ++ s)).
  cbn [Js.includes]. rewrite IH. apply orb_true_r.
Qed.

Lemma includes_app_l (n s b : string) :
  Js.includes n s = true -> Js.includes n (s ++ b) = true.
Proof.
  induction s as [|c s IH]; intros H.
  - cbn [Js.includes] in H. rewrite orb_false_r in H.
    destruct n; [|discriminate H].
    destruct b; reflexivity.
  - change (String c s ++ b) with (String c (s ++ b)).
    cbn [Js.includes] in H |- *.
    apply orb_true_iff in H as [H|H].
    + change (String c (s ++ b)) with (String c s ++ b).
      now rewrite (prefix_app _ _ b H).
    + rewrite (IH H). apply orb_true_r.
Qed.

Lemma includes_middle (n a s b : string) :
  Js.includes n s = true -> Js.includes n (a ++ s ++ b) = true.
Proof. intros H. now apply includes_app_r, includes_app_l. Qed.

(** Each string of an array is a piece of the joined array. *)
Lemma join_holds (sep h : string) (xs : list string) :
  In h xs -> exists a b, Js.join sep xs = a ++ h ++ b.
Proof.
  unfold Js.join. induction xs as [|x xs IH]; intros Hin; [destruct Hin|].
  destruct Hin as [->|Hin].
  - destruct xs as [|y xs].
    + exists "", "". cbn. now rewrite append_nil_r.
    + exists "", (sep ++ concat sep (y :: xs)). reflexivity.
  - destruct (IH Hin) as [a [b E]].
    destruct xs as [|y xs]; [destruct Hin|].
    exists (x ++ sep ++ a), b.
    change (concat sep (x :: y :: xs)) with (x ++ sep ++ concat sep (y :: xs)).
    rewrite E. now rewrite !append_assoc.
Qed.

Lemma toLowerCase_join (sep : string) (xs : list string) :
  Js.toLowerCase (Js.join sep xs)
  = Js.join (Js.toLowerCase sep) (map Js.toLowerCase xs).
Proof.
  unfold Js.join. induction xs as [|x xs IH]; [reflexivity|].
  destruct xs as [|y xs]; [reflexivity|].
  change (concat sep (x :: y :: xs)) with (x ++ sep ++ concat sep (y :: xs)).
  rewrite !toLowerCase_app, IH. reflexivity.
Qed.

Lemma hex_length (bytes : list N) :
  String.length (Js.hex bytes) = 2 * List.length bytes.
Proof. induction bytes as [|b bs IH]; cbn; [reflexivity | rewrite IH; lia]. Qed.

Lemma hex_digit_is_hex (n : N) :
  (n < 16)%N -> is_hex_digit (Js.hex_digit n) = true.
Proof.
  intros H.
  pose proof (proj1 (forallb_forall
    (fun k => is_hex_digit (Js.hex_digit (N.of_nat k))) (seq 0 16)) eq_refl)
    as Hall.
  specialize (Hall (N.to_nat n)). cbv beta in Hall. rewrite N2Nat.id in Hall.
  apply Hall, in_seq. lia.
Qed.

Lemma hex_is_hex (bytes : list N) :
  Forall (fun b => (b < 256)%N) bytes ->
  all_chars is_hex_digit (Js.hex bytes) = true.
Proof.
  induction 1 as [|b bs Hb _ IH]; [reflexivity|].
  cbn [Js.hex all_chars]. rewrite IH.
  assert (Hhi : (b / 16 < 16)%N)
    by (apply N.Div0.div_lt_upper_bound; exact Hb).
  assert (Hlo : (b mod 16 < 16)%N) by (apply N.mod_lt; discriminate).
  now rewrite (hex_digit_is_hex _ Hhi), (hex_digit_is_hex _ Hlo).
Qed.

Lemma is_hex_not_space_at (s : string) :
  all_chars is_hex_digit s = true -> all_chars not_space_at s = true.
Proof.
  induction s as [|c s IH]; cbn; [reflexivity|].
  intros H. apply andb_true_iff in H as [Hc Hs]. rewrite (IH Hs).
  rewrite andb_true_r.
  destruct c as [[] [] [] [] [] [] [] []]; try discriminate Hc; reflexivity.
Qed.

End StringFacts.

(** ** The verifier: the paths the design's properties leave out *)

Import Verifier Terms Scenarios Notions MoreScenarios.

(** X7.  An address of the accepted shape whose domain, in lower case, is
    on the list of disposable domains is returned [invalid], "Disposable
    email address", [is_disposable = true], score 0, risk [high], with the
    role-account flag of its local part; nothing is done on the network,
    whatever the letter case of the domain. *)
Theorem disposable_domain_is_invalid_offline
        (net : Network) (email : string) (options : Options)
        (localPart domain : string) (rest : list string) :
  isValidFormat email = true ->
  Js.split "@" email = localPart :: domain :: rest ->
  isDisposableDomain (Js.toLowerCase domain) = true ->
  verifyEmail net email options
  = (Normal (mkResult email Invalid "Disposable email address" false true
                      false (isRoleAccount localPart) [] false false 0 High),
     []).
Proof.
  intros Hformat Hsplit Hdisposable.
  unfold verifyEmail, try_catch, verifyEmail_try, bind.
  rewrite Hformat, Hsplit. cbn [negb].
  cbv beta iota zeta delta
      [set_is_role_account set_is_disposable update get_result bind result
       transcript initial_result is_disposable].
  rewrite Hdisposable. reflexivity.
Qed.

Lemma disposable_domain_is_invalid_offline_witness :
  verifyEmail no_exchanger "Info@MAILINATOR.com" (mkOptions false false)
  = (Normal (mkResult "Info@MAILINATOR.com" Invalid
                      "Disposable email address" false true false true []
                      false false 0 High),
     []).
Proof.
  apply (disposable_domain_is_invalid_offline
           no_exchanger "Info@MAILINATOR.com" (mkOptions false false)
           "Info" "MAILINATOR.com" []);
    reflexivity.
Defined.

(** X8.  When the probe of the real address settles without a connection
    (refused dialogue, socket error, timeout), the verification ends
    there: [unknown], "Could not connect to mail server", score 50, risk
    [medium], with [dns_check = true] and [smtp_check = false]; no random
    address is drawn and no second connection is made. *)
Theorem unconnected_probe_is_unknown
        (net : Network) (email : string) (options : Options)
        (r : VerificationResult) (tr : list NetOp) (real : ProbeOutcome)
        (more : list ProbeOutcome) :
  verifyEmail net email options = (Normal r, tr) ->
  outcomes tr = real :: more ->
  Smtp.connected real = false ->
  status r = Unknown
  /\ reason r = "Could not connect to mail server"
  /\ confidence_score r = 50%Z /\ risk_level r = Medium
  /\ dns_check r = true /\ smtp_check r = false
  /\ more = [] /\ draws tr = 0 /\ connections tr = 1.
Proof.
  revert r tr real more.
  VerifierFacts.run_verifier;
    intros r tr real more Hrun Hout;
    injection Hrun as <- <-; try discriminate Hout;
    injection Hout as <- <-;
    cbv beta iota delta
        [status reason confidence_score risk_level dns_check smtp_check];
    intros Hunconnected; try congruence.
  repeat split.
Qed.

(** The exchanger refuses the dialogue at the greeting. *)
Lemma unconnected_probe_is_unknown_witness :
  exists r tr,
    verifyEmail blocked_at_greeting "bob@example.org" (mkOptions false false)
    = (Normal r, tr)
    /\ status r = Unknown /\ confidence_score r = 50%Z
    /\ smtp_check r = false.
Proof.
  let v := eval vm_compute in
             (verifyEmail blocked_at_greeting "bob@example.org"
                          (mkOptions false false)) in
  match v with
  | (Normal ?r, ?tr) =>
      let os := eval vm_compute in (outcomes tr) in
      match os with
      | ?a :: ?m =>
          exists r, tr;
          assert (Hrun : verifyEmail blocked_at_greeting "bob@example.org"
                                     (mkOptions false false) = (Normal r, tr))
            by (vm_compute; reflexivity);
          assert (Hout : outcomes tr = a :: m) by reflexivity;
          split; [exact Hrun|];
          destruct (unconnected_probe_is_unknown _ _ _ _ _ _ _ Hrun Hout
                      eq_refl)
            as (H1 & _ & H2 & _ & _ & H3 & _);
          repeat split; assumption
      end
  end.
Defined.

(** X9.  When the probe of the real address settles with a connection and
    without acceptance, the verification ends there: [invalid], score 10,
    risk [high], [smtp_check = true], and the reason is the reason of the
    probe, which is "User does not exist" or "Unknown response"; the
    fallback "Email does not exist" is never used. *)
Theorem rejected_probe_is_invalid
        (net : Network) (email : string) (options : Options)
        (r : VerificationResult) (tr : list NetOp) (real : ProbeOutcome)
        (more : list ProbeOutcome) :
  verifyEmail net email options = (Normal r, tr) ->
  outcomes tr = real :: more ->
  Smtp.connected real = true -> Smtp.accepted real = false ->
  status r = Invalid
  /\ reason r = Smtp.reason real
  /\ (reason r = "User does not exist" \/ reason r = "Unknown response")
  /\ confidence_score r = 10%Z /\ risk_level r = High
  /\ smtp_check r = true
  /\ more = [] /\ draws tr = 0 /\ connections tr = 1.
Proof.
  revert r tr real more.
  VerifierFacts.run_verifier;
    intros r tr real more Hrun Hout;
    injection Hrun as <- <-; try discriminate Hout;
    injection Hout as <- <-;
    cbv beta iota delta
        [status reason confidence_score risk_level dns_check smtp_check];
    intros Hconnected Hrejected; try congruence.
  match goal with
  | Hp : Smtp.testSMTPConnection _ _ = Some ?o |- _ =>
      destruct (ProbeMore.connected_shape _ _ _ Hp Hconnected)
        as [->|[->|[c ->]]]
  end; try discriminate; cbn; repeat split; auto.
Qed.

(** The exchanger answers [MAIL FROM] with a line 250 that holds a
    rejection phrase. *)
Lemma rejected_probe_is_invalid_witness :
  exists r tr,
    verifyEmail rejects_in_250 "bob@example.org" (mkOptions false false)
    = (Normal r, tr)
    /\ status r = Invalid /\ reason r = "User does not exist"
    /\ confidence_score r = 10%Z.
Proof.
  let v := eval vm_compute in
             (verifyEmail rejects_in_250 "bob@example.org"
                          (mkOptions false false)) in
  match v with
  | (Normal ?r, ?tr) =>
      let os := eval vm_compute in (outcomes tr) in
      match os with
      | ?a :: ?m =>
          exists r, tr;
          assert (Hrun : verifyEmail rejects_in_250 "bob@example.org"
                                     (mkOptions false false) = (Normal r, tr))
            by (vm_compute; reflexivity);
          assert (Hout : outcomes tr = a :: m) by reflexivity;
          split; [exact Hrun|];
          destruct (rejected_probe_is_invalid _ _ _ _ _ _ _ Hrun Hout
                      eq_refl eq_refl)
            as (H1 & H2 & _ & H3 & _);
          repeat split; assumption
      end
  end.
Defined.

(** X10.  How risk, status and score go together in every result:
    risk [low] comes with a score of at least 75 and the status [valid];
    risk [high] with a score of at most 10 and the status [invalid]; the
    status [valid] with a score of at least 50; and [risk_level] is left
    at its initial ['unknown'] exactly for the addresses that fail the
    shape check. *)
Theorem risk_status_and_score_agree
        (net : Network) (email : string) (options : Options) :
  exists r tr,
    verifyEmail net email options = (Normal r, tr)
    /\ Verifier.email r = email
    /\ (risk_level r = Low ->
        (75 <= confidence_score r)%Z /\ status r = Valid)
    /\ (risk_level r = High ->
        (confidence_score r <= 10)%Z /\ status r = Invalid)
    /\ (status r = Valid -> (50 <= confidence_score r)%Z)
    /\ (risk_level r = RiskUnknown <-> isValidFormat email = false).
Proof.
  VerifierFacts.run_verifier.
  all: do 2 eexists; (split; [reflexivity|]);
    cbv beta iota delta [Verifier.email confidence_score risk_level status].
  all: repeat match goal with
         | H : (_ >=? _)%Z = _ |- _ =>
             rewrite Z.geb_leb in H;
             first [apply Z.leb_le in H | apply Z.leb_gt in H]
         end.
  all: repeat split; intros; try discriminate; try congruence; try lia.
Qed.

(** X11.  What a verification does on the network: every connection goes
    to port 25 of the first host of [mx_records], the exchanger of lowest
    priority; there are at most three connections and two draws of random
    bytes, and a connection is made only after the MX records were
    resolved. *)
Theorem network_footprint
        (net : Network) (email : string) (options : Options) :
  exists r tr,
    verifyEmail net email options = (Normal r, tr)
    /\ (forall port host,
           In (createConnection_call port host) tr ->
           port = 25 /\ host = nth 0 (mx_records r) ""
           /\ dns_check r = true)
    /\ connections tr <= 3 /\ draws tr <= 2
    /\ (forall size, In (randomBytes_call size) tr -> size = 16).
Proof.
  VerifierFacts.run_verifier.
  all: do 2 eexists; (split; [reflexivity|]);
    cbv beta iota delta [mx_records dns_check]; cbn [connections draws].
  all: split;
    [ intros port host Hin; cbn [In] in Hin;
      repeat match goal with
             | H : _ \/ _ |- _ => destruct H as [H|H]
             | H : False |- _ => destruct H
             | H : _ = createConnection_call _ _ |- _ =>
                 first [discriminate H | injection H as <- <-]
             end; repeat split
    | split; [lia | split; [lia|]];
      intros size Hin; cbn [In] in Hin;
      repeat match goal with
             | H : _ \/ _ |- _ => destruct H as [H|H]
             | H : False |- _ => destruct H
             | H : _ = randomBytes_call _ |- _ =>
                 first [discriminate H | injection H as <-]
             end; reflexivity ].
Qed.

(** X12.  With [skipCatchAll] set, whatever the provider, no random
    address is drawn and at most the connection of the real probe is
    made; the result never is [catch_all]. *)
Theorem skip_flag_means_one_probe
        (net : Network) (email : string) (dbg : bool) :
  exists r tr,
    verifyEmail net email (mkOptions dbg true) = (Normal r, tr)
    /\ draws tr = 0 /\ connections tr <= 1
    /\ status r <> CatchAll /\ is_catch_all r = false.
Proof.
  VerifierFacts.run_verifier; cbn [skipCatchAll orb] in *;
    try discriminate.
  all: VerifierFacts.run_verifier.
  all: do 2 eexists; (split; [reflexivity|]);
    cbv beta iota delta [status is_catch_all]; cbn [connections draws].
  all: repeat split; try lia; discriminate.
Qed.

(** ** The verifier: synthetic addresses, scores, providers *)

Module VerifierMore.
Import Regex RegexFacts RegexShapes Design Verifier Terms Notions.
Import FormatFacts StringFacts.

Lemma random_bytes_are_bytes (source : nat -> N) (size : nat) :
  Forall (fun b => (b < 256)%N)
         (map (fun i => (source i mod 256)%N) (seq 0 size)).
Proof.
  apply Forall_forall. intros b Hin. apply in_map_iff in Hin as [i [<- _]].
  apply N.mod_lt. discriminate.
Qed.

(** The shape check, on characters. *)
Lemma format_shape (email : string) :
  isValidFormat email = true <->
  exists a b c,
    email = a ++ String "@" (b ++ String "." c)
    /\ a <> "" /\ b <> "" /\ c <> ""
    /\ all_chars not_space_at a = true
    /\ all_chars not_space_at b = true
    /\ all_chars not_space_at c = true.
Proof.
  unfold isValidFormat. rewrite test_full_iff. unfold re_format. split.
  - intros H.
    apply lang_cat_inv in H as [a [t1 [-> [Ha H]]]].
    apply lang_cat_inv in H as [x [t2 [-> [Hx H]]]].
    apply lang_cat_inv in H as [b [t3 [-> [Hb H]]]].
    apply lang_cat_inv in H as [y [c [-> [Hy Hc]]]].
    apply lang_chr_inv in Hx, Hy. subst x y.
    apply lang_plus_cls in Ha as [Ha1 Ha2], Hb as [Hb1 Hb2], Hc as [Hc1 Hc2].
    exists a, b, c. repeat split; auto.
  - intros (a & b & c & -> & Ha & Hb & Hc & Ha' & Hb' & Hc').
    constructor; [now apply lang_plus_cls|].
    change (String "@" (b ++ String "." c))
      with (String "@" "" ++ (b ++ String "." c)).
    constructor; [apply lang_chr|].
    constructor; [now apply lang_plus_cls|].
    change (String "." c) with (String "." "" ++ c).
    constructor; [apply lang_chr | now apply lang_plus_cls].
Qed.

Lemma append_inv_head (a x y : string) : a ++ x = a ++ y -> x = y.
Proof.
  induction a as [|c a IH]; cbn; intros H; [exact H|].
  injection H as H. now apply IH.
Qed.

Lemma toLowerCase_not_empty (s : string) : s <> "" -> Js.toLowerCase s <> "".
Proof. destruct s; [congruence | discriminate]. Qed.

(** A synthetic address for the domain of an address of the accepted
    shape has the accepted shape. *)
Lemma synthetic_is_well_formed (token localPart domain : string) :
  isValidFormat (localPart ++ String "@" domain) = true ->
  no_at localPart = true ->
  token <> "" -> all_chars is_hex_digit token = true ->
  isValidFormat (token ++ "@" ++ Js.toLowerCase domain) = true.
Proof.
  intros Hfmt Hl Hne Hhex.
  apply format_shape in Hfmt as (a & b & c & E & Ha & Hb & Hc & Ha' & Hb' & Hc').
  assert (Hd : no_at domain = true /\ domain = b ++ String "." c).
  { assert (Hbc : no_at (b ++ String "." c) = true).
    { apply not_space_at_no_at. rewrite all_chars_app. cbn.
      now rewrite Hb', Hc'. }
    pose proof (split_parts a (b ++ String "." c)
                  (not_space_at_no_at a Ha') Hbc) as S1.
    rewrite <- E in S1.
    assert (S2 : Js.split "@" (localPart ++ String "@" domain)
                 = localPart :: Js.split_from "@" domain "" 0).
    { unfold Js.split. now rewrite split_at_first. }
    rewrite S1 in S2.
    destruct (Js.split_from "@" domain "" 0) as [|d [|? ?]] eqn:S3;
      try discriminate S2.
    injection S2 as -> Ed.
    apply append_inv_head in E. injection E as ->. now split. }
  destruct Hd as [_ ->].
  apply format_shape.
  exists token, (Js.toLowerCase b), (Js.toLowerCase c).
  rewrite toLowerCase_app. cbn [Js.toLowerCase].
  change (Js.lower_char ".") with "."%char.
  repeat split;
    auto using toLowerCase_not_empty, is_hex_not_space_at;
    now rewrite toLowerCase_not_space_at.
Qed.

Lemma probe_settled_inj (a c : string) (b d : Smtp.ProbeOutcome) :
  probe_settled a b = probe_settled c d -> a = c /\ b = d.
Proof. intros H. injection H. auto. Qed.

Lemma role_account_is_short (localPart : string) :
  isRoleAccount localPart = true -> String.length localPart <= 10.
Proof.
  unfold isRoleAccount, Js.array_includes. intros H.
  apply existsb_exists in H as [x [Hin Hx]].
  apply String.eqb_eq in Hx. rewrite <- (toLowerCase_length localPart), Hx.
  unfold roleAccounts in Hin. cbn [In] in Hin.
  repeat (destruct Hin as [<-|Hin]; [cbn; lia|]). destruct Hin.
Qed.

(** The score when the SMTP and DNS stages were reached and the role flag
    is that of the local part: the bounds 0 and 100 are never met. *)
Lemma heuristic_bounds
      (email : string) (r : VerificationResult) (p : Provider) :
  smtp_check r = true -> dns_check r = true ->
  is_role_account r = isRoleAccount (nth 0 (Js.split "@" email) "") ->
  (35 <= calculateHeuristicConfidence email r p <= 90)%Z
  /\ (is_major p || is_corporate p = true ->
      (50 <= calculateHeuristicConfidence email r p)%Z).
Proof.
  intros Hs Hd Hr.
  rewrite VerifierFacts.calculateHeuristicConfidence_design, Hs, Hd, Hr.
  set (l := nth 0 (Js.split "@" email) "").
  unfold Design.score, clamp, points, too_short, random_token.
  pose proof (role_account_is_short l) as Hrole.
  destruct (isRoleAccount l);
    [specialize (Hrole eq_refl) | clear Hrole];
    destruct (Nat.ltb_spec (String.length l) 3);
    destruct (Nat.leb_spec 20 (String.length l)); try lia;
    destruct (all_chars (fun c => is_lower_letter c || is_digit c) l),
      (name_pattern l), (is_free_email r), p;
    cbn; split; try lia; try discriminate; intros _; lia.
Qed.

End VerifierMore.

(** X13.  Every address a verification probes is the address itself or a
    synthetic one: 32 lowercase hexadecimal digits, [@], the domain of
    the address in lower case; and a synthetic address passes the shape
    check of [isValidFormat]. *)
Theorem probed_addresses_are_well_formed
        (net : Network) (email : string) (options : Options) :
  exists r tr,
    verifyEmail net email options = (Normal r, tr)
    /\ forall rcpt o,
         In (probe_settled rcpt o) tr ->
         rcpt = email
         \/ exists token localPart domain,
              Js.split "@" email = [localPart; domain]
              /\ rcpt = token ++ "@" ++ Js.toLowerCase domain
              /\ String.length token = 32
              /\ Design.all_chars is_hex_digit token = true
              /\ isValidFormat rcpt = true.
Proof.
  VerifierFacts.run_verifier.
  all: do 2 eexists; (split; [reflexivity|]).
  all: intros rcpt o' Hin; cbn [In] in Hin;
    repeat match goal with
           | H : _ \/ _ |- _ => destruct H as [H|H]
           | H : False |- _ => destruct H
           | H : _ = probe_settled _ _ |- _ =>
               first [ discriminate H
                     | apply VerifierMore.probe_settled_inj in H
                         as [<- <-] ]
           end;
    try (left; reflexivity).
  all: right;
    match goal with
    | |- context [Js.hex ?bytes] =>
        assert (Hlen : String.length (Js.hex bytes) = 32)
          by (now rewrite StringFacts.hex_length, length_map, length_seq);
        assert (Hhex : Design.all_chars is_hex_digit (Js.hex bytes) = true)
          by apply StringFacts.hex_is_hex,
                   VerifierMore.random_bytes_are_bytes;
        exists (Js.hex bytes)
    end;
    exists localPart, domain; repeat split; auto;
    apply (VerifierMore.synthetic_is_well_formed _ localPart domain);
    auto; try (rewrite <- Hemail; exact Hformat);
    intros E; rewrite E in Hlen; discriminate Hlen.
Qed.

(** X14.  On the path that skips the catch-all test, the score lies
    between 35 and 90, so the clamp to [0, 100] never applies; and for the
    providers that skip it by themselves ([google_workspace],
    [microsoft365], [corporate]) the score is at least 50, so an accepted
    address is always returned [valid], never [unknown]. *)
Theorem heuristic_path_bounds
        (net : Network) (email : string) (options : Options)
        (r : VerificationResult) (tr : list NetOp) (real : ProbeOutcome) :
  verifyEmail net email options = (Normal r, tr) ->
  outcomes tr = [real] ->
  Smtp.connected real = true -> Smtp.accepted real = true ->
  skipCatchAll options
  || is_major (detectMailProvider (mx_records r))
  || is_corporate (detectMailProvider (mx_records r)) = true ->
  (35 <= confidence_score r <= 90)%Z
  /\ (is_major (detectMailProvider (mx_records r))
      || is_corporate (detectMailProvider (mx_records r)) = true ->
      status r = Valid /\ (50 <= confidence_score r)%Z)
  /\ (status r = Unknown -> skipCatchAll options = true).
Proof.
  revert r tr real.
  VerifierFacts.run_verifier;
    intros r tr real Hrun Hout;
    injection Hrun as <- <-; try discriminate Hout;
    injection Hout as <-;
    cbv beta iota delta [status confidence_score mx_records];
    intros Hc Ha Hskip; cbn [sort] in *; try congruence.
  all: match goal with
       | |- context [calculateHeuristicConfidence ?e ?r ?p] =>
           destruct (VerifierMore.heuristic_bounds e r p) as [Hb Hmajor];
           [ reflexivity | reflexivity
           | cbv beta iota delta [is_role_account]; rewrite Hsplit;
             reflexivity
           | ]
       end.
  all: repeat match goal with
         | H : (_ >=? _)%Z = _ |- _ =>
             rewrite Z.geb_leb in H;
             first [apply Z.leb_le in H | apply Z.leb_gt in H]
         end.
  all: split; [exact Hb|]; split;
    [ intros Hp; specialize (Hmajor Hp); split; [reflexivity || lia | lia]
    | intros Hu; try discriminate Hu ].
  destruct (skipCatchAll options); [reflexivity|].
  cbn [orb] in Hskip. specialize (Hmajor Hskip). lia.
Qed.

Lemma heuristic_path_bounds_witness :
  exists r tr,
    verifyEmail corporate_exchanger "hr@example.org" (mkOptions false false)
    = (Normal r, tr)
    /\ status r = Valid /\ (50 <= confidence_score r)%Z.
Proof.
  let v := eval vm_compute in
             (verifyEmail corporate_exchanger "hr@example.org"
                          (mkOptions false false)) in
  match v with
  | (Normal ?r, ?tr) =>
      let os := eval vm_compute in (outcomes tr) in
      match os with
      | [?a] =>
          exists r, tr;
          assert (Hrun : verifyEmail corporate_exchanger "hr@example.org"
                                     (mkOptions false false) = (Normal r, tr))
            by (vm_compute; reflexivity);
          assert (Hout : outcomes tr = [a]) by reflexivity;
          split; [exact Hrun|];
          exact (proj1 (proj2 (heuristic_path_bounds _ _ _ _ _ _ Hrun Hout
                                 eq_refl eq_refl eq_refl)) eq_refl)
      end
  end.
Defined.

(** ** Providers, letter case, the order of exchangers *)

Module ProviderMore.
Import Regex Design Verifier Terms Notions StringFacts SortFacts.

Lemma sort_insert_of_priority (p : Z) (x : MxRecord) (l : list MxRecord) :
  of_priority p (sort_insert by_priority x l) = of_priority p (x :: l).
Proof.
  unfold of_priority.
  induction l as [|y l IH]; [reflexivity|].
  cbn [sort_insert]. unfold by_priority at 1.
  destruct (Z.gtb_spec (priority x - priority y) 0) as [Hgt|Hle];
    [|reflexivity].
  cbn [filter] in IH |- *. rewrite IH.
  destruct (Z.eqb_spec (priority x) p), (Z.eqb_spec (priority y) p);
    try reflexivity; lia.
Qed.

Lemma sorted_head_is_least (x : MxRecord) (l : list MxRecord) :
  Sorted by_priority_le (x :: l) ->
  forall y, In y (x :: l) -> (priority x <= priority y)%Z.
Proof.
  intros H. apply Sorted_StronglySorted in H.
  - apply StronglySorted_inv in H as [_ H].
    intros y [<-|Hin]; [lia|].
    rewrite Forall_forall in H. now apply H.
  - intros a b c. unfold by_priority_le. lia.
Qed.

End ProviderMore.

(** X15.  The exchanger that is probed, the first host of [mx_records],
    is a record of the answer whose priority no other record undercuts:
    one of the preferred exchangers. *)
Theorem probed_exchanger_is_preferred (recs : list MxRecord) :
  recs <> [] ->
  exists m,
    In m recs
    /\ nth 0 (map exchange (sort by_priority recs)) "" = exchange m
    /\ forall m', In m' recs -> (priority m <= priority m')%Z.
Proof.
  intros Hne.
  pose proof (SortFacts.sort_perm recs) as Hperm.
  pose proof (SortFacts.sort_sorted recs) as Hsorted.
  destruct (sort by_priority recs) as [|m sorted] eqn:E.
  - apply Permutation_sym, Permutation_nil in Hperm. contradiction.
  - exists m. split; [|split].
    + apply (Permutation_in m (Permutation_sym Hperm)). now left.
    + reflexivity.
    + intros m' Hin.
      apply (ProviderMore.sorted_head_is_least m sorted Hsorted).
      now apply (Permutation_in m' Hperm).
Qed.

Lemma probed_exchanger_is_preferred_witness :
  exists m,
    In m [mkMx "mx2.example.org" 20; mkMx "mx1.example.org" 10;
          mkMx "mx3.example.org" 10]
    /\ nth 0 (map exchange
                (sort by_priority
                      [mkMx "mx2.example.org" 20; mkMx "mx1.example.org" 10;
                       mkMx "mx3.example.org" 10])) ""
       = exchange m.
Proof.
  destruct (probed_exchanger_is_preferred
              [mkMx "mx2.example.org" 20; mkMx "mx1.example.org" 10;
               mkMx "mx3.example.org" 10]) as [m [H1 [H2 _]]].
  - discriminate.
  - exists m. split; assumption.
Defined.

(** X16.  The sort of the MX records is stable: for each priority, the
    records of that priority come in the order of the DNS answer. *)
Theorem sort_keeps_the_order_of_equal_priorities
        (p : Z) (recs : list MxRecord) :
  of_priority p (sort by_priority recs) = of_priority p recs.
Proof.
  induction recs as [|x recs IH]; [reflexivity|].
  cbn [sort]. rewrite ProviderMore.sort_insert_of_priority.
  unfold of_priority in *. cbn [filter]. now rewrite IH.
Qed.

(** X17.  As soon as one MX host holds "google", in any letter case, the
    provider is [google_workspace], whatever the other hosts and their
    order. *)
Theorem google_host_means_google_workspace
        (mxRecords : list string) (host : string) :
  In host mxRecords ->
  Js.includes "google" (Js.toLowerCase host) = true ->
  detectMailProvider mxRecords = google_workspace.
Proof.
  intros Hin Hgoogle. unfold detectMailProvider.
  destruct (StringFacts.join_holds " " host mxRecords Hin) as [a [b E]].
  rewrite E, !StringFacts.toLowerCase_app.
  now rewrite (StringFacts.includes_middle "google" _ _ _ Hgoogle).
Qed.

Lemma google_host_means_google_workspace_witness :
  detectMailProvider ["mx.zoho.com"; "ASPMX.L.GOOGLE.COM"; "mx.outlook.com"]
  = google_workspace.
Proof.
  apply (google_host_means_google_workspace
           ["mx.zoho.com"; "ASPMX.L.GOOGLE.COM"; "mx.outlook.com"]
           "ASPMX.L.GOOGLE.COM").
  - cbn. auto.
  - reflexivity.
Defined.

(** X18.  The letter case of the MX hosts does not change the provider,
    and the letter case of the local part does not change the
    role-account flag. *)
Theorem letter_case_is_ignored (mxRecords : list string) (localPart : string) :
  detectMailProvider (map Js.toLowerCase mxRecords)
  = detectMailProvider mxRecords
  /\ isRoleAccount (Js.toLowerCase localPart) = isRoleAccount localPart.
Proof.
  split.
  - unfold detectMailProvider.
    rewrite !StringFacts.toLowerCase_join, map_map.
    rewrite (map_ext _ _ StringFacts.toLowerCase_idempotent).
    reflexivity.
  - unfold isRoleAccount.
    now rewrite StringFacts.toLowerCase_idempotent.
Qed.

(** X19.  When neither [net.createConnection] nor [crypto.randomBytes]
    throws, the body of the [try] never throws: [domain.toLowerCase()] is
    always called on a string, and the catch block is not entered. *)
Theorem try_body_throws_only_on_the_network
        (net : Network) (email : string) (options : Options) :
  (forall n host rcpt, exists events, socket net n host rcpt = inr events) ->
  (forall n, exists source, entropy net n = inr source) ->
  exists st,
    verifyEmail_try net email options (mkVState (initial_result email) [])
    = (Normal tt, st)
    /\ verifyEmail net email options = (Normal (result st), transcript st).
Proof.
  intros Hsocket Hentropy.
  unfold verifyEmail, try_catch. unfold bind at 1.
  assert (H : exists st,
             verifyEmail_try net email options
                             (mkVState (initial_result email) [])
             = (Normal tt, st)).
  { VerifierFacts.reduce_verifier.
    repeat (first
              [ match goal with
                | |- context [match socket net ?n ?h ?e with _ => _ end] =>
                    let ev := fresh "events" in
                    let E := fresh "E" in
                    destruct (Hsocket n h e) as [ev E]; rewrite E
                | |- context [match entropy net ?n with _ => _ end] =>
                    let src := fresh "source" in
                    let E := fresh "E" in
                    destruct (Hentropy n) as [src E]; rewrite E
                end
              | VerifierFacts.branch_verifier ];
            VerifierFacts.reduce_verifier).
    all: eexists; reflexivity. }
  destruct H as [st E]. exists st. rewrite E. split; reflexivity.
Qed.

Lemma try_body_throws_only_on_the_network_witness :
  exists st,
    verifyEmail_try corporate_exchanger "bob@example.org"
                    (mkOptions false false)
                    (mkVState (initial_result "bob@example.org") [])
    = (Normal tt, st).
Proof.
  destruct (try_body_throws_only_on_the_network
              corporate_exchanger "bob@example.org" (mkOptions false false))
    as [st [E _]].
  - intros n host rcpt. eexists. reflexivity.
  - intros n. eexists. reflexivity.
  - exists st. exact E.
Defined.

(** ** The sender *)

Module MailerFacts.
Import Mailer.

Lemma split_from_not_empty (sep s acc : string) (skip : nat) :
  Js.split_from sep s acc skip <> [].
Proof.
  revert acc skip.
  induction s as [|c s IH]; intros acc skip; cbn [Js.split_from].
  - discriminate.
  - destruct skip; [|apply IH].
    destruct (prefix sep (String c s)); [discriminate | apply IH].
Qed.

Lemma aliases_not_empty (env : string) : 0 < List.length (aliases env).
Proof.
  unfold aliases, Js.split.
  pose proof (split_from_not_empty "," env "" 0) as H.
  destruct (Js.split_from "," env "" 0); [congruence | cbn; lia].
Qed.

(** The sweep of the queue is a partition of it. *)
Lemma sweep_is_partition
      (ready_now : Lead -> bool) (queue ready still : list Lead) :
  fold_left
    (fun '(r, s) item =>
       if ready_now item then ((r ++ [item])%list, s)
       else (r, (s ++ [item])%list))
    queue (ready, still)
  = ((ready ++ filter ready_now queue)%list,
     (still ++ filter (fun item => negb (ready_now item)) queue)%list).
Proof.
  revert ready still. induction queue as [|x queue IH]; intros ready still.
  - cbn. now rewrite !app_nil_r.
  - cbn [fold_left filter]. destruct (ready_now x); cbn [negb].
    + rewrite IH. now rewrite <- app_assoc.
    + rewrite IH. now rewrite <- app_assoc.
Qed.

Lemma processCooldownQueue_filter
      (now : Z) (table : string -> JsValue) (queue : list Lead) :
  processCooldownQueue now table queue
  = (filter (cooled_down now table) queue,
     filter (fun item => negb (cooled_down now table item)) queue).
Proof.
  unfold processCooldownQueue.
  exact (sweep_is_partition (cooled_down now table) queue [] []).
Qed.

Lemma filter_split_perm {A : Type} (f : A -> bool) (l : list A) :
  Permutation l (filter f l ++ filter (fun x => negb (f x)) l).
Proof.
  induction l as [|x l IH]; cbn; [constructor|].
  destruct (f x); cbn.
  - now constructor.
  - now apply Permutation_cons_app.
Qed.

(** The alias served by call [j] of a row of calls that starts at
    [aliasIndex]. *)
Lemma nextAliases_spec (xs : list string) (k i : nat) :
  i < List.length xs ->
  nextAliases xs k i
  = (map (fun j => Some (nth ((i + j) mod List.length xs) xs ""))
         (seq 0 k),
     (i + k) mod List.length xs).
Proof.
  set (n := List.length xs).
  revert i. induction k as [|k IH]; intros i Hi.
  - cbn. now rewrite Nat.add_0_r, Nat.mod_small.
  - cbn [nextAliases]. unfold getNextAlias. fold n.
    assert (Hi' : (i + 1) mod n < n) by (apply Nat.mod_upper_bound; lia).
    rewrite (IH _ Hi'). f_equal.
    + cbn [seq map]. rewrite Nat.add_0_r, (Nat.mod_small i n Hi).
      rewrite (nth_error_nth' xs "" Hi). f_equal.
      rewrite <- seq_shift, map_map. apply map_ext. intros j.
      rewrite Nat.Div0.add_mod_idemp_l. do 3 f_equal. lia.
    + rewrite Nat.Div0.add_mod_idemp_l. f_equal. lia.
Qed.

End MailerFacts.

Import Mailer.

(** X20.  [getNextAlias] serves the aliases of [FROM_ALIASES] in turn:
    from an index within the list, call [j] of a row of calls returns the
    alias at position [(aliasIndex + j) mod n], never [undefined], and
    after [n] calls, [n] being the number of aliases, the index is back
    where it was. *)
Theorem aliases_are_served_in_turn (FROM_ALIASES : string) (k i : nat) :
  let xs := aliases FROM_ALIASES in
  let n := List.length xs in
  i < n ->
  nextAliases xs k i
  = (map (fun j => Some (nth ((i + j) mod n) xs "")) (seq 0 k),
     (i + k) mod n)
  /\ snd (nextAliases xs n i) = i
  /\ snd (getNextAlias xs i) < n.
Proof.
  intros xs n Hi. split; [|split].
  - now apply MailerFacts.nextAliases_spec.
  - rewrite MailerFacts.nextAliases_spec by exact Hi. cbn [snd].
    fold n. rewrite <- (Nat.mul_1_l n) at 1.
    rewrite Nat.Div0.mod_add. now apply Nat.mod_small.
  - cbn [getNextAlias snd]. apply Nat.mod_upper_bound. fold n. lia.
Qed.

Lemma aliases_are_served_in_turn_witness :
  nextAliases (aliases "a@x.org,b@x.org,c@x.org") 4 1
  = ([Some "b@x.org"; Some "c@x.org"; Some "a@x.org"; Some "b@x.org"], 2).
Proof.
  destruct (aliases_are_served_in_turn "a@x.org,b@x.org,c@x.org" 4 1)
    as [H _].
  - cbn. lia.
  - exact H.
Defined.

(** X21.  The sweep of the cooldown queue loses and invents no lead: the
    leads it returns and the leads it keeps are, together, the leads of
    the queue, each list in the order of the queue; those it returns have
    cooled down and those it keeps have not. *)
Theorem cooldown_sweep_is_a_partition
        (now : Z) (domainLastSent : string -> JsValue)
        (cooldownQueue : list Lead) :
  let '(readyToSend, stillOnCooldown) :=
    processCooldownQueue now domainLastSent cooldownQueue in
  Permutation cooldownQueue (readyToSend ++ stillOnCooldown)
  /\ readyToSend = filter (cooled_down now domainLastSent) cooldownQueue
  /\ stillOnCooldown
     = filter (fun item => negb (cooled_down now domainLastSent item))
              cooldownQueue
  /\ (forall item, In item readyToSend ->
                   cooled_down now domainLastSent item = true)
  /\ (forall item, In item stillOnCooldown ->
                   cooled_down now domainLastSent item = false).
Proof.
  rewrite MailerFacts.processCooldownQueue_filter.
  split; [apply MailerFacts.filter_split_perm|].
  split; [reflexivity|]. split; [reflexivity|].
  split; intros item Hin; apply filter_In in Hin as [_ H].
  - exact H.
  - now apply negb_true_iff.
Qed.

(** X22.  A lead that the sweep of the queue returns at one instant
    passes [canSendToDomain] at that instant and at any later one, as
    long as its address has a domain and nothing was sent to the domain
    in between. *)
Theorem swept_lead_can_be_sent_to
        (now later : Z) (domainLastSent : string -> JsValue)
        (cooldownQueue : list Lead) (item : Lead) :
  In item (fst (processCooldownQueue now domainLastSent cooldownQueue)) ->
  (now <= later)%Z ->
  extractDomain (email item) <> "" ->
  canSendToDomain later domainLastSent (email item) = true.
Proof.
  rewrite MailerFacts.processCooldownQueue_filter. cbn [fst].
  intros Hin Hlater Hdomain. apply filter_In in Hin as [_ Hcool].
  unfold canSendToDomain, cooled_down in *.
  apply String.eqb_neq in Hdomain. rewrite Hdomain.
  destruct (truthy (domainLastSent (extractDomain (email item))));
    [|reflexivity].
  cbn [negb orb] in Hcool |- *. unfold since_ge, since_lt in *.
  destruct (number (domainLastSent (extractDomain (email item))));
    [|discriminate Hcool].
  rewrite Z.geb_leb in Hcool. apply Z.leb_le in Hcool.
  destruct (Z.ltb_spec (later - z) DOMAIN_COOLDOWN); [lia | reflexivity].
Qed.

Lemma swept_lead_can_be_sent_to_witness :
  canSendToDomain 1900000
    (fun d => if (d =? "example.org")%string then instant 100000
              else absent)
    "bob@Example.org"
  = true.
Proof.
  apply (swept_lead_can_be_sent_to
           1900000 1900000
           (fun d => if (d =? "example.org")%string then instant 100000
                     else absent)
           [mkLead "1" "Example" "ann@other.org" "Ann" true;
            mkLead "2" "Example" "bob@Example.org" "Bob" true]
           (mkLead "2" "Example" "bob@Example.org" "Bob" true)).
  - vm_compute. right. left. reflexivity.
  - lia.
  - discriminate.
Defined.

(** X23.  For an address that passes the shape check of the verifier,
    [extractDomain] is the domain that [verifyEmail] resolves, the part
    after the [@] in lower case, and it is not empty; for a string
    without [@] it is empty and [canSendToDomain] refuses. *)
Theorem extractDomain_of_addresses
        (address : string) (now : Z) (domainLastSent : string -> JsValue) :
  (isValidFormat address = true ->
   exists localPart domain,
     Js.split "@" address = [localPart; domain]
     /\ extractDomain address = Js.toLowerCase domain
     /\ extractDomain address <> "")
  /\ (no_at address = true ->
      extractDomain address = ""
      /\ canSendToDomain now domainLastSent address = false).
Proof.
  split.
  - intros Hfmt.
    apply VerifierMore.format_shape in Hfmt
      as (a & b & c & -> & Ha & Hb & Hc & Ha' & Hb' & Hc').
    assert (Hbc : no_at (b ++ String "." c) = true).
    { apply FormatFacts.not_space_at_no_at.
      rewrite RegexShapes.all_chars_app. cbn. now rewrite Hb', Hc'. }
    pose proof (FormatFacts.split_parts a (b ++ String "." c)
                  (FormatFacts.not_space_at_no_at a Ha') Hbc) as Hsplit.
    exists a, (b ++ String "." c). split; [exact Hsplit|].
    unfold extractDomain. rewrite Hsplit. cbn [Js.at_index Z.ltb Z.compare
      Z.to_nat Pos.to_nat Pos.iter_op Nat.add nth_error].
    destruct b as [|x b]; [congruence|]. cbn. split; [reflexivity|discriminate].
  - intros Hno. unfold canSendToDomain, extractDomain, Js.split.
    rewrite (FormatFacts.split_at_end address "" Hno). cbn. auto.
Qed.

Lemma extractDomain_of_addresses_witness :
  exists localPart domain,
    Js.split "@" "Bob@Example.ORG" = [localPart; domain]
    /\ extractDomain "Bob@Example.ORG" = Js.toLowerCase domain.
Proof.
  destruct (proj1 (extractDomain_of_addresses "Bob@Example.ORG" 0
                     (fun _ => absent)) eq_refl)
    as (l & d & H1 & H2 & _).
  exists l, d. split; assumption.
Defined.

Module SenderFacts.
Import Mailer Sender.

Ltac run_setters :=
  cbv beta iota zeta
      delta [attend saveProgress advance set_sentCount set_failedCount
             set_aliasIndex set_lastIndex set_domainLastSent
             set_cooldownQueue set_sentLog set_sentToday set_sent_json
             set_outbox snapshot sentCount failedCount aliasIndex lastIndex
             domainLastSent cooldownQueue sentLog progress sent_json outbox
             lastRunDate sentToday negb fst snd getNextAlias] in *.

Ltac conjuncts :=
  repeat match goal with
         | |- _ /\ _ => split
         | |- ?x = ?x => reflexivity
         | |- _ \/ _ => left; reflexivity
         end.

Ltac kept := match goal with |- _ \/ _ => right end.

(** What attending to one lead does to the state: either the message is
    handed over, after the four checks, or nothing is sent. *)
Lemma attend_effect (aliases : list string) (tick : Tick) (lead : Lead)
      (isFromQueue : bool) (st : State) :
  let st' := attend aliases tick lead isFromQueue st in
  (lastIndex st' = if isFromQueue then lastIndex st else S (lastIndex st))
  /\ sent_json st' = Some (snapshot st')
  /\ lastRunDate (progress st') = lastRunDate (progress st)
  /\ ((logged (sentLog st (email lead)) = false
       /\ format_ok tick = true
       /\ isEmailSafeToSend (verification tick) = true
       /\ canSendToDomain (check_now tick) (domainLastSent st) (email lead)
          = true
       /\ delivery tick = None
       /\ outbox st'
          = (outbox st
             ++ [mkDelivery
                   (mailOptions (fst (getNextAlias aliases (aliasIndex st)))
                                lead)
                   (check_now tick) (sent_now tick)])%list
       /\ sentToday (progress st') = (sentToday (progress st) + 1)%Z
       /\ sentLog st' = assign (sentLog st) (email lead) (Some (sent_iso tick))
       /\ domainLastSent st'
          = assign (domainLastSent st) (extractDomain (email lead))
                   (instant (sent_now tick))
       /\ cooldownQueue st' = cooldownQueue st
       /\ aliasIndex st' = snd (getNextAlias aliases (aliasIndex st)))
      \/ (outbox st' = outbox st
          /\ sentToday (progress st') = sentToday (progress st)
          /\ domainLastSent st' = domainLastSent st
          /\ (sentLog st' = sentLog st
              \/ exists text,
                   text <> ""
                   /\ logged (sentLog st (email lead)) = false
                   /\ sentLog st' = assign (sentLog st) (email lead)
                                           (Some text))
          /\ (cooldownQueue st' = cooldownQueue st
              \/ (isFromQueue = false
                  /\ cooldownQueue st'
                     = (cooldownQueue st
                        ++ [mkLead (srno lead) (company lead) (email lead)
                                   (name lead) true])%list))
          /\ (aliasIndex st' = aliasIndex st
              \/ aliasIndex st' = snd (getNextAlias aliases (aliasIndex st))))).
Proof.
  intros st'. assert (E : st' = attend aliases tick lead isFromQueue st)
    by reflexivity.
  clearbody st'. destruct st as [sc fc ai li dls cq sl [lrd today] sj ob].
  unfold attend in E. run_setters.
  destruct (logged (sl (email lead))) eqn:Hlog.
  { subst st'. destruct isFromQueue; conjuncts; kept; conjuncts. }
  destruct (format_ok tick) eqn:Hfmt.
  2:{ subst st'. destruct isFromQueue; conjuncts; kept; conjuncts. }
  destruct (isEmailSafeToSend (verification tick)) eqn:Hsafe.
  2:{ subst st'. destruct isFromQueue; conjuncts; kept; conjuncts;
      right; exists ("VERIFICATION_FAILED_" ++ text_of (verification tick));
      conjuncts; discriminate. }
  destruct (canSendToDomain (check_now tick) dls (email lead)) eqn:Hcan.
  2:{ subst st'. destruct isFromQueue; conjuncts; kept; conjuncts.
      right. split; reflexivity. }
  destruct (delivery tick) as [message|] eqn:Hdel.
  - subst st'. destruct (unreachable message), isFromQueue;
      conjuncts; kept; conjuncts;
      right; try reflexivity; exists "INVALID_EMAIL";
      conjuncts; discriminate.
  - subst st'. destruct isFromQueue; conjuncts; left; conjuncts.
Qed.

(** Attending to a lead of the queue. *)
Lemma attend_effect_of (aliases : list string) (tick : Tick) (lead : Lead)
      (st : State) :
  let st' := attend aliases tick lead true st in
  lastIndex st' = lastIndex st
  /\ cooldownQueue st' = cooldownQueue st
  /\ (outbox st' = outbox st
      \/ exists d, outbox st' = (outbox st ++ [d])%list
                   /\ to (mail d) = email lead).
Proof.
  intros st'. subst st'.
  destruct (attend_effect aliases tick lead true st)
    as (Hi & _ & _ & [Hsent | Hkept]).
  - destruct Hsent as (_ & _ & _ & _ & _ & Ho & _ & _ & _ & Hq & _).
    split; [exact Hi|]. split; [exact Hq|]. right.
    eexists. split; [exact Ho | reflexivity].
  - destruct Hkept as (Ho & _ & _ & _ & Hq & _).
    split; [exact Hi|]. split; [|now left].
    destruct Hq as [Hq | [Hq _]]; [exact Hq | discriminate Hq].
Qed.

Lemma set_cooldownQueue_same (st : State) :
  set_cooldownQueue (cooldownQueue st) st = st.
Proof. now destruct st. Qed.

Lemma filter_nil_keeps {A : Type} (f : A -> bool) (l : list A) :
  filter f l = [] -> filter (fun x => negb (f x)) l = l.
Proof.
  induction l as [|x l IH]; [reflexivity|]. cbn.
  destruct (f x); [discriminate|]. cbn. intros H. now rewrite IH.
Qed.

Lemma filter_split_length {A : Type} (f : A -> bool) (l : list A) :
  (List.length (filter f l)
   + List.length (filter (fun x => negb (f x)) l)
   = List.length l)%nat.
Proof.
  induction l as [|x l IH]; [reflexivity|]. cbn.
  destruct (f x); cbn; lia.
Qed.

(** One turn of the loop, the sweep of the queue written as the two
    filters it computes. *)
Lemma turn_cases (leads : list Lead) (aliases : list string)
      (maxPerRun : Z) (tick : Tick) (st : State) :
  let ready :=
    filter (cooled_down (sweep_now tick) (domainLastSent st))
           (cooldownQueue st) in
  let still :=
    filter (fun item =>
              negb (cooled_down (sweep_now tick) (domainLastSent st) item))
           (cooldownQueue st) in
  ((maxPerRun <= sentToday (progress st))%Z
   /\ turn leads aliases maxPerRun tick st = Break (saveProgress st))
  \/ ((sentToday (progress st) < maxPerRun)%Z
      /\ ((exists lead others,
              ready = lead :: others
              /\ turn leads aliases maxPerRun tick st
                 = Again (attend aliases tick lead true
                                 (set_cooldownQueue still st)))
          \/ (ready = []
              /\ still = cooldownQueue st
              /\ ((exists lead,
                      nth_error leads (lastIndex st) = Some lead
                      /\ turn leads aliases maxPerRun tick st
                         = Again (attend aliases tick lead false st))
                  \/ (nth_error leads (lastIndex st) = None
                      /\ cooldownQueue st <> []
                      /\ turn leads aliases maxPerRun tick st = Again st)
                  \/ (nth_error leads (lastIndex st) = None
                      /\ cooldownQueue st = []
                      /\ turn leads aliases maxPerRun tick st = Break st))))).
Proof.
  intros ready still. unfold turn.
  rewrite MailerFacts.processCooldownQueue_filter. fold ready still.
  destruct (Z.geb_spec (sentToday (progress st)) maxPerRun) as [Hge|Hlt];
    [left; split; [lia | reflexivity]|].
  right. split; [lia|].
  destruct ready as [|lead others] eqn:Hready.
  - right. split; [reflexivity|].
    assert (Hstill : still = cooldownQueue st)
      by (apply filter_nil_keeps; exact Hready).
    split; [exact Hstill|]. rewrite Hstill, set_cooldownQueue_same.
    destruct (nth_error leads (lastIndex st)) as [lead|];
      [left; exists lead; split; reflexivity|].
    right. destruct (cooldownQueue st) as [|item queue]; cbn.
    + right. split; [reflexivity|]. split; reflexivity.
    + left. split; [reflexivity|]. split; [discriminate | reflexivity].
  - left. exists lead, others. split; reflexivity.
Qed.

(** What one turn does to the messages sent, the daily counter and the
    two tables. *)
Lemma turn_summary (leads : list Lead) (aliases : list string)
      (maxPerRun : Z) (tick : Tick) (st st' : State) :
  turn leads aliases maxPerRun tick st = Again st'
  \/ turn leads aliases maxPerRun tick st = Break st' ->
  (exists lead alias,
      (sentToday (progress st) < maxPerRun)%Z
      /\ logged (sentLog st (email lead)) = false
      /\ canSendToDomain (check_now tick) (domainLastSent st) (email lead)
         = true
      /\ outbox st'
         = (outbox st
            ++ [mkDelivery (mailOptions alias lead)
                           (check_now tick) (sent_now tick)])%list
      /\ sentToday (progress st') = (sentToday (progress st) + 1)%Z
      /\ sentLog st' = assign (sentLog st) (email lead) (Some (sent_iso tick))
      /\ domainLastSent st'
         = assign (domainLastSent st) (extractDomain (email lead))
                  (instant (sent_now tick)))
  \/ (outbox st' = outbox st
      /\ sentToday (progress st') = sentToday (progress st)
      /\ domainLastSent st' = domainLastSent st
      /\ (sentLog st' = sentLog st
          \/ exists address text,
               text <> ""
               /\ logged (sentLog st address) = false
               /\ sentLog st' = assign (sentLog st) address (Some text))).
Proof.
  intros Hturn.
  assert (Hattend : forall lead q st1,
            outbox st1 = outbox st ->
            sentToday (progress st1) = sentToday (progress st) ->
            domainLastSent st1 = domainLastSent st ->
            sentLog st1 = sentLog st ->
            (sentToday (progress st) < maxPerRun)%Z ->
            st' = attend aliases tick lead q st1 ->
            (exists lead alias,
                (sentToday (progress st) < maxPerRun)%Z
                /\ logged (sentLog st (email lead)) = false
                /\ canSendToDomain (check_now tick) (domainLastSent st)
                                   (email lead) = true
                /\ outbox st'
                   = (outbox st
                      ++ [mkDelivery (mailOptions alias lead)
                                     (check_now tick) (sent_now tick)])%list
                /\ sentToday (progress st') = (sentToday (progress st) + 1)%Z
                /\ sentLog st'
                   = assign (sentLog st) (email lead) (Some (sent_iso tick))
                /\ domainLastSent st'
                   = assign (domainLastSent st) (extractDomain (email lead))
                            (instant (sent_now tick)))
            \/ (outbox st' = outbox st
                /\ sentToday (progress st') = sentToday (progress st)
                /\ domainLastSent st' = domainLastSent st
                /\ (sentLog st' = sentLog st
                    \/ exists address text,
                         text <> ""
                         /\ logged (sentLog st address) = false
                         /\ sentLog st'
                            = assign (sentLog st) address (Some text)))).
  { intros lead q st1 Ho Ht Hd Hl Hlt ->.
    destruct (attend_effect aliases tick lead q st1)
      as (_ & _ & _ & [Hsent | Hkept]).
    - destruct Hsent as (H1 & _ & _ & H4 & _ & H6 & H7 & H8 & H9 & _).
      left. exists lead, (fst (getNextAlias aliases (aliasIndex st1))).
      rewrite <- Ho, <- Ht, <- Hd, <- Hl. rewrite <- Ht in Hlt. auto 10.
    - destruct Hkept as (H1 & H2 & H3 & H4 & _).
      right. rewrite <- Ho, <- Ht, <- Hd, <- Hl.
      repeat split; auto.
      destruct H4 as [H4 | (text & Ht1 & Ht2 & Ht3)]; [now left|].
      right. exists (email lead), text. auto. }
  destruct (turn_cases leads aliases maxPerRun tick st)
    as [[_ E] | [Hlt [(lead & others & _ & E)
                     | (_ & _ & [(lead & _ & E) | [(_ & _ & E) | (_ & _ & E)]])]]];
    rewrite E in Hturn.
  - destruct Hturn as [Hturn | Hturn]; [discriminate|].
    injection Hturn as <-. right. cbn. auto.
  - destruct Hturn as [Hturn | Hturn]; [|discriminate].
    injection Hturn as Hturn. symmetry in Hturn.
    refine (Hattend lead true _ _ _ _ _ Hlt Hturn); reflexivity.
  - destruct Hturn as [Hturn | Hturn]; [|discriminate].
    injection Hturn as Hturn. symmetry in Hturn.
    refine (Hattend lead false _ _ _ _ _ Hlt Hturn); reflexivity.
  - destruct Hturn as [Hturn | Hturn]; [|discriminate].
    injection Hturn as <-. right. auto.
  - destruct Hturn as [Hturn | Hturn]; [discriminate|].
    injection Hturn as <-. right. auto.
Qed.

(** A property that every turn keeps holds of the state in which the
    loop stops, and of the state reached when the ticks are used up. *)
Lemma loop_invariant (Inv : State -> Prop) (Good : Tick -> Prop)
      (leads : list Lead) (aliases : list string) (maxPerRun : Z) :
  (forall tick st st',
      Good tick -> Inv st ->
      turn leads aliases maxPerRun tick st = Again st'
      \/ turn leads aliases maxPerRun tick st = Break st' ->
      Inv st') ->
  forall ticks st,
    Forall Good ticks -> Inv st ->
    Inv (fst (loop leads aliases maxPerRun ticks st)).
Proof.
  intros Hstep ticks. induction ticks as [|tick ticks IH]; intros st Hg Hi.
  - cbn. now destruct (pending leads st).
  - cbn [loop]. destruct (pending leads st); [|exact Hi]. cbn [negb].
    inversion Hg as [|? ? Hg1 Hg2]; subst.
    destruct (turn leads aliases maxPerRun tick st) as [st'|st'] eqn:E.
    + apply IH; [exact Hg2|]. apply (Hstep tick st st' Hg1 Hi). now left.
    + cbn [fst]. apply (Hstep tick st st' Hg1 Hi). now right.
Qed.

Lemma snoc_split {A : Type} (new older newer : list A) (d y : A) :
  (new ++ [d] = older ++ y :: newer)%list ->
  (newer = [] /\ older = new /\ y = d)
  \/ exists newer', newer = (newer' ++ [d])%list
                    /\ new = (older ++ y :: newer')%list.
Proof.
  destruct newer as [|z zs] using rev_ind.
  - intros H. change (older ++ [y])%list with (older ++ [y])%list in H.
    apply app_inj_tail in H as [-> ->]. left. auto.
  - intros H. rewrite app_comm_cons, app_assoc in H.
    apply app_inj_tail in H as [-> ->]. right. exists zs. auto.
Qed.

Lemma last_stamp_snoc (domain : string) (new : list Delivery) (d : Delivery) :
  last_stamp domain (new ++ [d])
  = if (extractDomain (to (mail d)) =? domain)%string
    then Some (stamped_at d)
    else last_stamp domain new.
Proof.
  induction new as [|x new IH]; cbn [app last_stamp].
  - reflexivity.
  - rewrite IH. destruct (extractDomain (to (mail d)) =? domain)%string;
      [reflexivity|]. reflexivity.
Qed.

Lemma saveProgress_saved (st : State) :
  sent_json (saveProgress st) = Some (snapshot (saveProgress st)).
Proof. now destruct st. Qed.

Lemma pending_false (leads : list Lead) (st : State) :
  pending leads st = false <->
  (List.length leads <= lastIndex st)%nat /\ cooldownQueue st = [].
Proof.
  unfold pending. rewrite orb_false_iff, !Nat.ltb_ge.
  destruct (cooldownQueue st); cbn; split; intros [H1 H2];
    (split; [exact H1|]); try reflexivity; try lia; discriminate.
Qed.

Lemma wind_up_saved (leads : list Lead) (st : State) :
  pending leads st = false \/ sent_json st = Some (snapshot st) ->
  sent_json (wind_up leads st) = Some (snapshot (wind_up leads st)).
Proof.
  intros H. unfold wind_up.
  destruct ((List.length leads <=? lastIndex st)%nat
            && (List.length (cooldownQueue st) =? 0)%nat) eqn:E.
  - destruct st as [sc fc ai li dls cq sl [lrd today] sj ob]. reflexivity.
  - destruct H as [H | H]; [|exact H].
    apply pending_false in H as [H1 H2]. rewrite H2 in E. cbn in E.
    rewrite andb_true_r in E. apply Nat.leb_gt in E. lia.
Qed.

(** When the loop is left, either nothing is pending or the file has
    just been written. *)
Lemma loop_left (leads : list Lead) (aliases : list string)
      (maxPerRun : Z) (ticks : list Tick) :
  forall st st',
    loop leads aliases maxPerRun ticks st = (st', true) ->
    pending leads st' = false \/ sent_json st' = Some (snapshot st').
Proof.
  induction ticks as [|tick ticks IH]; intros st st' H; cbn [loop] in H.
  - destruct (pending leads st) eqn:E; cbn [negb] in H; [discriminate|].
    injection H as <-. now left.
  - destruct (pending leads st) eqn:E; cbn [negb] in H;
      [|injection H as <-; now left].
    destruct (turn_cases leads aliases maxPerRun tick st)
      as [[_ Et] | [_ [(lead & others & _ & Et)
                      | (_ & _ & [(lead & _ & Et)
                                 | [(_ & _ & Et) | (Hn & Hq & Et)]])]]];
      rewrite Et in H; try (now apply (IH _ _ H)).
    + injection H as <-. right. apply saveProgress_saved.
    + injection H as <-. left. apply pending_false.
      split; [now apply nth_error_None | exact Hq].
Qed.

(** What one turn does to the alias index and the queue, and where the
    lead of a message comes from. *)
Lemma turn_origin (leads : list Lead) (aliases : list string)
      (maxPerRun : Z) (tick : Tick) (st st' : State) :
  turn leads aliases maxPerRun tick st = Again st'
  \/ turn leads aliases maxPerRun tick st = Break st' ->
  (aliasIndex st < List.length aliases)%nat ->
  (aliasIndex st' < List.length aliases)%nat
  /\ (forall item,
         In item (cooldownQueue st') ->
         In item (cooldownQueue st)
         \/ exists lead,
              In lead leads
              /\ item = mkLead (srno lead) (company lead) (email lead)
                               (name lead) true)
  /\ (outbox st' = outbox st
      \/ exists alias lead,
           nth_error aliases (aliasIndex st) = Some alias
           /\ (In lead leads \/ In lead (cooldownQueue st))
           /\ outbox st'
              = (outbox st
                 ++ [mkDelivery (mailOptions (Some alias) lead)
                                (check_now tick) (sent_now tick)])%list).
Proof.
  intros Hturn Hai.
  assert (Hnext : (snd (getNextAlias aliases (aliasIndex st))
                   < List.length aliases)%nat).
  { cbn. apply Nat.mod_upper_bound. lia. }
  assert (Hattend : forall lead q st1,
            aliasIndex st1 = aliasIndex st ->
            outbox st1 = outbox st ->
            (forall item, In item (cooldownQueue st1) ->
                          In item (cooldownQueue st)) ->
            (q = false -> In lead leads) ->
            In lead leads \/ In lead (cooldownQueue st) ->
            st' = attend aliases tick lead q st1 ->
            (aliasIndex st' < List.length aliases)%nat
            /\ (forall item,
                   In item (cooldownQueue st') ->
                   In item (cooldownQueue st)
                   \/ exists lead,
                        In lead leads
                        /\ item = mkLead (srno lead) (company lead)
                                         (email lead) (name lead) true)
            /\ (outbox st' = outbox st
                \/ exists alias lead,
                     nth_error aliases (aliasIndex st) = Some alias
                     /\ (In lead leads \/ In lead (cooldownQueue st))
                     /\ outbox st'
                        = (outbox st
                           ++ [mkDelivery (mailOptions (Some alias) lead)
                                          (check_now tick)
                                          (sent_now tick)])%list)).
  { intros lead q st1 Ha Ho Hq Hfile Hfrom ->.
    destruct (attend_effect aliases tick lead q st1)
      as (_ & _ & _ & [Hsent | Hkept]).
    - destruct Hsent as (_ & _ & _ & _ & _ & H6 & _ & _ & _ & H10 & H11).
      rewrite H11, H10, H6, Ha, Ho. split; [exact Hnext|].
      split; [intros item Hin; left; now apply Hq|]. right.
      destruct (nth_error aliases (aliasIndex st)) as [alias|] eqn:E;
        [|apply nth_error_None in E; lia].
      exists alias, lead. cbn [getNextAlias fst]. rewrite E. auto.
    - destruct Hkept as (H1 & _ & _ & _ & H5 & H6).
      rewrite H1, Ho. rewrite Ha in H6.
      split; [destruct H6 as [-> | ->]; [exact Hai | exact Hnext]|].
      split; [|now left].
      destruct H5 as [-> | [Hq' ->]]; intros item Hin;
        [left; now apply Hq|].
      apply in_app_or in Hin as [Hin | [<- | []]]; [left; now apply Hq|].
      right. exists lead. split; [now apply Hfile | reflexivity]. }
  destruct (turn_cases leads aliases maxPerRun tick st)
    as [[_ E] | [_ [(lead & others & Hready & E)
                   | (_ & _ & [(lead & Hnth & E)
                              | [(_ & _ & E) | (_ & _ & E)]])]]];
    rewrite E in Hturn.
  - destruct Hturn as [Hturn | Hturn]; [discriminate|].
    injection Hturn as <-. cbn. auto.
  - destruct Hturn as [Hturn | Hturn]; [|discriminate].
    injection Hturn as Hturn. symmetry in Hturn.
    assert (Hin : In lead (cooldownQueue st)).
    { assert (H : In lead (lead :: others)) by now left.
      rewrite <- Hready in H. now apply filter_In in H as [H _]. }
    refine (Hattend lead true _ _ _ _ _ _ Hturn);
      try reflexivity; [| discriminate | now right].
    cbn. intros item H. now apply filter_In in H as [H _].
  - destruct Hturn as [Hturn | Hturn]; [|discriminate].
    injection Hturn as Hturn. symmetry in Hturn.
    apply nth_error_In in Hnth.
    refine (Hattend lead false _ _ _ _ _ _ Hturn); auto.
  - destruct Hturn as [Hturn | Hturn]; [|discriminate].
    injection Hturn as <-. auto.
  - destruct Hturn as [Hturn | Hturn]; [discriminate|].
    injection Hturn as <-. auto.
Qed.

End SenderFacts.

Import Mailer Sender.

(** X24.  The daily limit holds for every run of the loop, whatever the
    outside answers: the messages handed to the transport in the run are
    at most [maxPerRun] less what the daily counter already showed, the
    counter grows by one with each of them, and the statement after the
    loop sends nothing. *)
Theorem daily_limit_is_kept
        (leads : list Lead) (aliases : list string) (maxPerRun : Z)
        (ticks : list Tick) (st : State) :
  let st' := fst (loop leads aliases maxPerRun ticks st) in
  exists new,
    outbox st' = (outbox st ++ new)%list
    /\ sentToday (progress st')
       = (sentToday (progress st) + Z.of_nat (List.length new))%Z
    /\ (List.length new
        <= Z.to_nat (maxPerRun - sentToday (progress st)))%nat
    /\ (forall st'',
           sendMails leads aliases maxPerRun ticks st = Some st'' ->
           outbox st'' = outbox st').
Proof.
  intros st'.
  assert (Hrun : exists new,
             outbox st' = (outbox st ++ new)%list
             /\ sentToday (progress st')
                = (sentToday (progress st) + Z.of_nat (List.length new))%Z
             /\ (List.length new
                 <= Z.to_nat (maxPerRun - sentToday (progress st)))%nat).
  { apply (SenderFacts.loop_invariant
             (fun s => exists new,
                  outbox s = (outbox st ++ new)%list
                  /\ sentToday (progress s)
                     = (sentToday (progress st)
                        + Z.of_nat (List.length new))%Z
                  /\ (List.length new
                      <= Z.to_nat (maxPerRun - sentToday (progress st)))%nat)
             (fun _ => True)).
    - intros tick s s' _ (new & Ho & Ht & Hn) Hturn.
      destruct (SenderFacts.turn_summary _ _ _ _ _ _ Hturn)
        as [(lead & alias & Hlt & _ & _ & Ho' & Ht' & _) | (Ho' & Ht' & _)].
      + exists (new ++ [mkDelivery (mailOptions alias lead)
                                   (check_now tick) (sent_now tick)])%list.
        rewrite Ho', Ho, Ht', Ht, <- app_assoc, length_app. cbn [List.length].
        split; [reflexivity|]. split; lia.
      + exists new. rewrite Ho', Ht'. auto.
    - apply Forall_forall. auto.
    - exists []. rewrite app_nil_r. cbn. split; [reflexivity|].
      split; lia. }
  destruct Hrun as (new & Ho & Ht & Hn). exists new.
  split; [exact Ho|]. split; [exact Ht|]. split; [exact Hn|].
  intros st'' Hsend. unfold sendMails in Hsend. subst st'.
  destruct (loop leads aliases maxPerRun ticks st) as [s [|]];
    [|discriminate].
  injection Hsend as <-. cbn [fst]. unfold wind_up.
  destruct ((List.length leads <=? lastIndex s)%nat
            && (List.length (cooldownQueue s) =? 0)%nat); reflexivity.
Qed.

(** X25.  No address is written to twice in a run, and none that the
    log already holds: each message of the run goes to an address that
    had no entry in [sentLog] when the run began and has one when it
    stops, and an entry, once there, stays. *)
Theorem no_address_is_written_to_twice
        (leads : list Lead) (aliases : list string) (maxPerRun : Z)
        (ticks : list Tick) (st : State) :
  Forall (fun tick => sent_iso tick <> "") ticks ->
  let st' := fst (loop leads aliases maxPerRun ticks st) in
  exists new,
    outbox st' = (outbox st ++ new)%list
    /\ NoDup (map (fun d => to (mail d)) new)
    /\ (forall d, In d new ->
                  logged (sentLog st (to (mail d))) = false
                  /\ logged (sentLog st' (to (mail d))) = true)
    /\ (forall address,
           logged (sentLog st address) = true ->
           logged (sentLog st' address) = true).
Proof.
  intros Hticks st'.
  assert (Hrun : exists new,
             outbox st' = (outbox st ++ new)%list
             /\ NoDup (map (fun d => to (mail d)) new)
             /\ (forall d, In d new ->
                           logged (sentLog st (to (mail d))) = false
                           /\ logged (sentLog st' (to (mail d))) = true)
             /\ (forall address,
                    logged (sentLog st address) = true ->
                    logged (sentLog st' address) = true));
    [|exact Hrun].
  apply (SenderFacts.loop_invariant
           (fun s => exists new,
                outbox s = (outbox st ++ new)%list
                /\ NoDup (map (fun d => to (mail d)) new)
                /\ (forall d, In d new ->
                              logged (sentLog st (to (mail d))) = false
                              /\ logged (sentLog s (to (mail d))) = true)
                /\ (forall address,
                       logged (sentLog st address) = true ->
                       logged (sentLog s address) = true))
           (fun tick => sent_iso tick <> "")); [| exact Hticks |].
  - intros tick s s' Hiso (new & Ho & Hnd & Hnew & Hmono) Hturn.
    assert (Hset : forall address text,
               text <> "" ->
               forall a, logged (sentLog s a) = true ->
                         logged (assign (sentLog s) address (Some text) a)
                         = true).
    { intros address text Htext a Ha. unfold assign.
      destruct (a =? address)%string; [|exact Ha].
      cbn. apply negb_true_iff, String.eqb_neq, Htext. }
    destruct (SenderFacts.turn_summary _ _ _ _ _ _ Hturn)
      as [(lead & alias & _ & Hlog & _ & Ho' & _ & Hl' & _)
         | (Ho' & _ & _ & Hl')].
    + exists (new ++ [mkDelivery (mailOptions alias lead)
                                 (check_now tick) (sent_now tick)])%list.
      rewrite Ho', Ho, <- app_assoc, Hl'. split; [reflexivity|].
      assert (Hfresh : ~ In (email lead) (map (fun d => to (mail d)) new)).
      { intros Hin. apply in_map_iff in Hin as (d & Hd & Hin).
        destruct (Hnew d Hin) as [_ Hd']. rewrite Hd in Hd'. congruence. }
      assert (Hnow : logged (assign (sentLog s) (email lead)
                                    (Some (sent_iso tick)) (email lead))
                     = true).
      { unfold assign. rewrite String.eqb_refl. cbn.
        apply negb_true_iff, String.eqb_neq, Hiso. }
      split; [|split].
      * rewrite map_app. cbn [map mail to mailOptions].
        apply NoDup_app; [exact Hnd | | ].
        -- constructor; [intros [] | constructor].
        -- intros a Ha [<- | []]. now apply Hfresh.
      * intros d Hin. apply in_app_or in Hin as [Hin | [<- | []]].
        -- destruct (Hnew d Hin) as [H1 H2]. split; [exact H1|].
           now apply Hset.
        -- cbn [mail to mailOptions]. split; [|exact Hnow].
           destruct (logged (sentLog st (email lead))) eqn:E; [|reflexivity].
           apply Hmono in E. congruence.
      * intros a Ha. apply Hset; [exact Hiso|]. now apply Hmono.
    + exists new. rewrite Ho'. split; [exact Ho|]. split; [exact Hnd|].
      destruct Hl' as [-> | (address & text & Htext & _ & ->)];
        [now split|].
      split.
      * intros d Hin. destruct (Hnew d Hin) as [H1 H2]. split; [exact H1|].
        now apply Hset.
      * intros a Ha. apply Hset; [exact Htext|]. now apply Hmono.
  - exists []. rewrite app_nil_r. split; [reflexivity|].
    split; [constructor|]. split; [intros d []|auto].
Qed.

Lemma no_address_is_written_to_twice_witness :
  exists new,
    outbox (fst (loop [mkLead "1" "Example" "ann@example.org" "Ann" false;
                       mkLead "2" "Example" "ann@example.org" "Ann" false]
                      ["me@example.com"] 5
                      [clear_tick 1000; clear_tick 2000000]
                      (first_run "2024-05-01")))
    = new
    /\ NoDup (map (fun d => to (mail d)) new).
Proof.
  destruct (no_address_is_written_to_twice
              [mkLead "1" "Example" "ann@example.org" "Ann" false;
               mkLead "2" "Example" "ann@example.org" "Ann" false]
              ["me@example.com"] 5
              [clear_tick 1000; clear_tick 2000000]
              (first_run "2024-05-01"))
    as (new & Ho & Hnd & _).
  - repeat constructor; discriminate.
  - exists new. split; [exact Ho | exact Hnd].
Defined.

(** X26.  The cooldown is observed between the messages of a run: each
    goes to an address with a domain, and when an earlier message of the
    run went to the same domain, the clock read before the later one is
    at least [DOMAIN_COOLDOWN] after the instant stamped for the last
    such message, unless that instant is 0, which the code takes for no
    instant at all.  For the first message to a domain the table of the
    beginning of the run decides. *)
Theorem cooldown_is_observed
        (leads : list Lead) (aliases : list string) (maxPerRun : Z)
        (ticks : list Tick) (st : State) :
  let st' := fst (loop leads aliases maxPerRun ticks st) in
  exists new,
    outbox st' = (outbox st ++ new)%list
    /\ forall older y newer,
         new = (older ++ y :: newer)%list ->
         extractDomain (to (mail y)) <> ""
         /\ match last_stamp (extractDomain (to (mail y))) older with
            | Some t => t = 0%Z \/ (DOMAIN_COOLDOWN <= checked_at y - t)%Z
            | None => canSendToDomain (checked_at y) (domainLastSent st)
                                      (to (mail y)) = true
            end.
Proof.
  intros st'.
  assert (Hrun : exists new,
             outbox st' = (outbox st ++ new)%list
             /\ (forall domain,
                    domainLastSent st' domain
                    = match last_stamp domain new with
                      | Some t => instant t
                      | None => domainLastSent st domain
                      end)
             /\ forall older y newer,
                  new = (older ++ y :: newer)%list ->
                  extractDomain (to (mail y)) <> ""
                  /\ match last_stamp (extractDomain (to (mail y))) older with
                     | Some t =>
                         t = 0%Z \/ (DOMAIN_COOLDOWN <= checked_at y - t)%Z
                     | None =>
                         canSendToDomain (checked_at y) (domainLastSent st)
                                         (to (mail y)) = true
                     end).
  2:{ destruct Hrun as (new & Ho & _ & H). exists new. split; assumption. }
  apply (SenderFacts.loop_invariant
           (fun s => exists new,
                outbox s = (outbox st ++ new)%list
                /\ (forall domain,
                       domainLastSent s domain
                       = match last_stamp domain new with
                         | Some t => instant t
                         | None => domainLastSent st domain
                         end)
                /\ forall older y newer,
                     new = (older ++ y :: newer)%list ->
                     extractDomain (to (mail y)) <> ""
                     /\ match last_stamp (extractDomain (to (mail y))) older
                        with
                        | Some t =>
                            t = 0%Z
                            \/ (DOMAIN_COOLDOWN <= checked_at y - t)%Z
                        | None =>
                            canSendToDomain (checked_at y)
                                            (domainLastSent st)
                                            (to (mail y)) = true
                        end)
           (fun _ => True)).
  - intros tick s s' _ (new & Ho & Htable & Hspaced) Hturn.
    destruct (SenderFacts.turn_summary _ _ _ _ _ _ Hturn)
      as [(lead & alias & _ & _ & Hcan & Ho' & _ & _ & Hd')
         | (Ho' & _ & Hd' & _)].
    + exists (new ++ [mkDelivery (mailOptions alias lead)
                                 (check_now tick) (sent_now tick)])%list.
      rewrite Ho', Ho, <- app_assoc, Hd'. split; [reflexivity|]. split.
      * intros domain. rewrite SenderFacts.last_stamp_snoc.
        cbn [mail to mailOptions stamped_at]. unfold assign.
        rewrite (String.eqb_sym domain).
        destruct (extractDomain (email lead) =? domain)%string;
          [reflexivity | apply Htable].
      * intros older y newer Hsplit.
        apply SenderFacts.snoc_split in Hsplit
          as [(_ & -> & ->) | (newer' & _ & ->)];
          [|now apply (Hspaced older y newer')].
        cbn [mail to mailOptions checked_at].
        unfold canSendToDomain in Hcan |- *.
        destruct (extractDomain (email lead) =? "")%string eqn:Hdom;
          [discriminate|].
        split; [now apply String.eqb_neq|].
        rewrite (Htable (extractDomain (email lead))) in Hcan.
        destruct (last_stamp (extractDomain (email lead)) new) as [t|];
          [|exact Hcan].
        unfold instant, since_lt in Hcan. cbn [truthy number] in Hcan.
        destruct (Z.eqb_spec t 0) as [Hz|Hnz]; [now left|].
        cbn [negb] in Hcan. right.
        destruct (Z.ltb_spec (check_now tick - t) DOMAIN_COOLDOWN);
          [discriminate | assumption].
    + exists new. rewrite Ho', Hd'. auto.
  - apply Forall_forall. auto.
  - exists []. rewrite app_nil_r. split; [reflexivity|].
    split; [reflexivity|]. intros [|? ?] y newer H; discriminate H.
Qed.

(** X27.  A turn that finds leads of the queue cooled down attends to
    the first of them only, and all of them leave the queue: the others
    are neither written to in this turn nor kept for a later one, and
    the index into the file does not move. *)
Theorem cooled_leads_leave_the_queue
        (leads : list Lead) (aliases : list string) (maxPerRun : Z)
        (tick : Tick) (st : State)
        (lead : Lead) (others stillOnCooldown : list Lead) :
  (sentToday (progress st) < maxPerRun)%Z ->
  processCooldownQueue (sweep_now tick) (domainLastSent st)
                       (cooldownQueue st)
  = (lead :: others, stillOnCooldown) ->
  exists st',
    turn leads aliases maxPerRun tick st = Again st'
    /\ cooldownQueue st' = stillOnCooldown
    /\ lastIndex st' = lastIndex st
    /\ (forall item, In item (lead :: others) ->
                     ~ In item (cooldownQueue st'))
    /\ (outbox st' = outbox st
        \/ exists d, outbox st' = (outbox st ++ [d])%list
                     /\ to (mail d) = email lead).
Proof.
  intros Hlt Hsweep.
  exists (attend aliases tick lead true
                 (set_cooldownQueue stillOnCooldown st)).
  destruct (SenderFacts.attend_effect_of
              aliases tick lead (set_cooldownQueue stillOnCooldown st))
    as (Hi & Hq & Ho).
  split; [|split; [exact Hq | split; [exact Hi | split; [|exact Ho]]]].
  - unfold turn. rewrite Hsweep.
    destruct (Z.geb_spec (sentToday (progress st)) maxPerRun);
      [lia | reflexivity].
  - rewrite Hq. cbn [cooldownQueue set_cooldownQueue].
    rewrite MailerFacts.processCooldownQueue_filter in Hsweep.
    injection Hsweep as Hready Hstill. intros item Hin Hin'.
    rewrite <- Hready in Hin. rewrite <- Hstill in Hin'.
    apply filter_In in Hin as [_ H1]. apply filter_In in Hin' as [_ H2].
    rewrite H1 in H2. discriminate.
Qed.

Lemma cooled_leads_leave_the_queue_witness :
  exists st',
    turn [] ["me@example.com"] 5 (clear_tick 2000000) two_cooled = Again st'
    /\ cooldownQueue st' = []
    /\ List.length (outbox st') = 1%nat.
Proof.
  destruct (cooled_leads_leave_the_queue
              [] ["me@example.com"] 5 (clear_tick 2000000) two_cooled
              (mkLead "1" "Example" "ann@example.org" "Ann" true)
              [mkLead "2" "Example" "bob@example.org" "Bob" true] [])
    as (st' & Hturn & Hq & _).
  - vm_compute. reflexivity.
  - vm_compute. reflexivity.
  - exists st'. split; [exact Hturn|]. split; [exact Hq|].
    assert (E : turn [] ["me@example.com"] 5 (clear_tick 2000000) two_cooled
                = Again (attend ["me@example.com"] (clear_tick 2000000)
                           (mkLead "1" "Example" "ann@example.org" "Ann" true)
                           true (set_cooldownQueue [] two_cooled)))
      by (vm_compute; reflexivity).
    rewrite E in Hturn. injection Hturn as <-. vm_compute. reflexivity.
Defined.

(** X28.  What is in memory is in the file: after any number of turns
    [sent.json] holds the state of the module as it is, unless no turn
    changed anything, and when [sendMails] returns it always does. *)
Theorem progress_is_saved
        (leads : list Lead) (aliases : list string) (maxPerRun : Z)
        (ticks : list Tick) (st : State) :
  (let st' := fst (loop leads aliases maxPerRun ticks st) in
   sent_json st' = Some (snapshot st') \/ st' = st)
  /\ (forall st'',
         sendMails leads aliases maxPerRun ticks st = Some st'' ->
         sent_json st'' = Some (snapshot st'')).
Proof.
  split.
  - apply (SenderFacts.loop_invariant
             (fun s => sent_json s = Some (snapshot s) \/ s = st)
             (fun _ => True)); [| apply Forall_forall; auto | now right].
    intros tick s s' _ Hs Hturn.
    destruct (SenderFacts.turn_cases leads aliases maxPerRun tick s)
      as [[_ E] | [_ [(lead & others & _ & E)
                     | (_ & _ & [(lead & _ & E)
                                | [(_ & _ & E) | (_ & _ & E)]])]]];
      rewrite E in Hturn;
      destruct Hturn as [Hturn | Hturn]; try discriminate;
      injection Hturn as <-; try exact Hs; left.
    + apply SenderFacts.saveProgress_saved.
    + apply SenderFacts.attend_effect.
    + apply SenderFacts.attend_effect.
  - intros st'' Hsend. unfold sendMails in Hsend.
    destruct (loop leads aliases maxPerRun ticks st) as [s [|]] eqn:E;
      [|discriminate].
    injection Hsend as <-. apply SenderFacts.wind_up_saved.
    exact (SenderFacts.loop_left _ _ _ _ _ _ E).
Qed.

(** X29.  Every turn that goes on either only waits, the file being
    used up and no lead of the queue cooled down, or brings the end
    nearer: twice the leads left in the file plus the leads in the queue
    goes down. *)
Theorem every_turn_makes_progress
        (leads : list Lead) (aliases : list string) (maxPerRun : Z)
        (tick : Tick) (st st' : State) :
  turn leads aliases maxPerRun tick st = Again st' ->
  (work_left leads st' < work_left leads st)%nat
  \/ (st' = st
      /\ (List.length leads <= lastIndex st)%nat
      /\ cooldownQueue st <> []
      /\ forall item,
           In item (cooldownQueue st) ->
           cooled_down (sweep_now tick) (domainLastSent st) item = false).
Proof.
  intros Hturn. unfold work_left.
  destruct (SenderFacts.turn_cases leads aliases maxPerRun tick st)
    as [[_ E] | [_ [(lead & others & Hready & E)
                   | (Hready & _ & [(lead & Hnth & E)
                                   | [(Hnth & Hq & E) | (_ & _ & E)]])]]];
    rewrite E in Hturn; try discriminate; injection Hturn as <-.
  - left.
    destruct (SenderFacts.attend_effect_of
                aliases tick lead
                (set_cooldownQueue
                   (filter (fun item =>
                              negb (cooled_down (sweep_now tick)
                                                (domainLastSent st) item))
                           (cooldownQueue st))
                   st))
      as (Hi & Hq & _).
    rewrite Hi, Hq. cbn [lastIndex cooldownQueue set_cooldownQueue].
    pose proof (SenderFacts.filter_split_length
                  (cooled_down (sweep_now tick) (domainLastSent st))
                  (cooldownQueue st)) as Hlen.
    rewrite Hready in Hlen. cbn [List.length] in Hlen. lia.
  - left.
    destruct (SenderFacts.attend_effect aliases tick lead false st)
      as (Hi & _ & _ & [Hsent | Hkept]).
    + destruct Hsent as (_ & _ & _ & _ & _ & _ & _ & _ & _ & Hq & _).
      rewrite Hi, Hq.
      assert (lastIndex st < List.length leads)%nat
        by (apply nth_error_Some; congruence).
      lia.
    + destruct Hkept as (_ & _ & _ & _ & Hq & _).
      assert (lastIndex st < List.length leads)%nat
        by (apply nth_error_Some; congruence).
      rewrite Hi. destruct Hq as [-> | [_ ->]];
        [|rewrite length_app; cbn [List.length]]; lia.
  - right. split; [reflexivity|]. split; [now apply nth_error_None|].
    split; [exact Hq|]. intros item Hin.
    destruct (cooled_down (sweep_now tick) (domainLastSent st) item) eqn:Hc;
      [|reflexivity].
    assert (H : In item (filter (cooled_down (sweep_now tick)
                                             (domainLastSent st))
                                (cooldownQueue st)))
      by (apply filter_In; auto).
    rewrite Hready in H. destruct H.
Qed.

Lemma every_turn_makes_progress_witness :
  (work_left [] (attend ["me@example.com"] (clear_tick 2000000)
                   (mkLead "1" "Example" "ann@example.org" "Ann" true)
                   true (set_cooldownQueue [] two_cooled))
   < work_left [] two_cooled)%nat.
Proof.
  destruct (every_turn_makes_progress
              [] ["me@example.com"] 5 (clear_tick 2000000) two_cooled
              (attend ["me@example.com"] (clear_tick 2000000)
                 (mkLead "1" "Example" "ann@example.org" "Ann" true)
                 true (set_cooldownQueue [] two_cooled)))
    as [H | (H & _)].
  - vm_compute. reflexivity.
  - exact H.
  - exfalso. apply (f_equal cooldownQueue) in H. vm_compute in H.
    discriminate H.
Defined.

(** X30.  Every message of a run is the template filled in for a lead
    of the file or of the queue as it was when the run began, under one
    of the configured aliases: [from] and [replyTo] name the alias, never
    [undefined], and [to] is the address of the lead.  The alias index
    stays inside the list. *)
Theorem mail_is_from_an_alias_to_a_lead
        (leads : list Lead) (aliases : list string) (maxPerRun : Z)
        (ticks : list Tick) (st : State) :
  (aliasIndex st < List.length aliases)%nat ->
  let st' := fst (loop leads aliases maxPerRun ticks st) in
  (aliasIndex st' < List.length aliases)%nat
  /\ exists new,
       outbox st' = (outbox st ++ new)%list
       /\ forall d, In d new ->
            exists alias lead,
              In alias aliases
              /\ (In lead leads
                  \/ In lead (cooldownQueue st)
                  \/ exists row,
                       In row leads
                       /\ lead = mkLead (srno row) (company row)
                                        (email row) (name row) true)
              /\ mail d = mailOptions (Some alias) lead
              /\ from (mail d) = "Saket <" ++ alias ++ ">"
              /\ replyTo (mail d) = Some alias
              /\ to (mail d) = email lead.
Proof.
  intros Hai st'.
  assert (Hrun :
    (aliasIndex st' < List.length aliases)%nat
    /\ (forall item,
           In item (cooldownQueue st') ->
           In item (cooldownQueue st)
           \/ exists row,
                In row leads
                /\ item = mkLead (srno row) (company row) (email row)
                                 (name row) true)
    /\ exists new,
         outbox st' = (outbox st ++ new)%list
         /\ forall d, In d new ->
              exists alias lead,
                In alias aliases
                /\ (In lead leads
                    \/ In lead (cooldownQueue st)
                    \/ exists row,
                         In row leads
                         /\ lead = mkLead (srno row) (company row)
                                          (email row) (name row) true)
                /\ mail d = mailOptions (Some alias) lead
                /\ from (mail d) = "Saket <" ++ alias ++ ">"
                /\ replyTo (mail d) = Some alias
                /\ to (mail d) = email lead).
  2:{ destruct Hrun as (H1 & _ & H3). split; assumption. }
  apply (SenderFacts.loop_invariant
           (fun s =>
              (aliasIndex s < List.length aliases)%nat
              /\ (forall item,
                     In item (cooldownQueue s) ->
                     In item (cooldownQueue st)
                     \/ exists row,
                          In row leads
                          /\ item = mkLead (srno row) (company row)
                                           (email row) (name row) true)
              /\ exists new,
                   outbox s = (outbox st ++ new)%list
                   /\ forall d, In d new ->
                        exists alias lead,
                          In alias aliases
                          /\ (In lead leads
                              \/ In lead (cooldownQueue st)
                              \/ exists row,
                                   In row leads
                                   /\ lead = mkLead (srno row) (company row)
                                                    (email row) (name row)
                                                    true)
                          /\ mail d = mailOptions (Some alias) lead
                          /\ from (mail d) = "Saket <" ++ alias ++ ">"
                          /\ replyTo (mail d) = Some alias
                          /\ to (mail d) = email lead)
           (fun _ => True)).
  - intros tick s s' _ (Ha & Hq & new & Ho & Hnew) Hturn.
    destruct (SenderFacts.turn_origin _ _ _ _ _ _ Hturn Ha)
      as (Ha' & Hq' & Ho').
    split; [exact Ha'|]. split.
    { intros item Hin. destruct (Hq' item Hin) as [H | H];
        [now apply Hq | now right]. }
    destruct Ho' as [Ho' | (alias & lead & Hnth & Hfrom & Ho')].
    + exists new. rewrite Ho'. auto.
    + exists (new ++ [mkDelivery (mailOptions (Some alias) lead)
                                 (check_now tick) (sent_now tick)])%list.
      rewrite Ho', Ho, <- app_assoc. split; [reflexivity|].
      intros d Hin. apply in_app_or in Hin as [Hin | [<- | []]];
        [now apply Hnew|].
      exists alias, lead. split; [now apply nth_error_In in Hnth|].
      split; [|cbn; auto].
      destruct Hfrom as [H | H]; [now left|].
      destruct (Hq lead H) as [H' | H']; auto.
  - apply Forall_forall. auto.
  - split; [exact Hai|]. split; [now left|]. exists [].
    rewrite app_nil_r. split; [reflexivity | intros d []].
Qed.

Lemma mail_is_from_an_alias_to_a_lead_witness :
  (aliasIndex
     (fst (loop [mkLead "1" "Example" "ann@example.org" "Ann" false;
                 mkLead "2" "Sample" "bob@sample.org" "Bob" false]
                ["me@example.com"; "you@example.com"] 5
                [clear_tick 1000; clear_tick 2000]
                (first_run "2024-05-01")))
   < 2)%nat.
Proof.
  destruct (mail_is_from_an_alias_to_a_lead
              [mkLead "1" "Example" "ann@example.org" "Ann" false;
               mkLead "2" "Sample" "bob@sample.org" "Bob" false]
              ["me@example.com"; "you@example.com"] 5
              [clear_tick 1000; clear_tick 2000]
              (first_run "2024-05-01"))
    as [H _].
  - cbn. lia.
  - exact H.
Defined.
